(** * WOL MCP server: the extraction and resilient-fetch core, verified

    A shallow embedding of [src/wol/utils.ts], [src/wol/videoService.ts] and
    [src/wol/wolService.ts], and the properties of the specification that are
    stated about them.

    Conventions of the embedding.
    - A JavaScript string is a list of code units.  The development covers the
      strings whose code units are below 256, so a code unit is an [ascii];
      the character classes of the regular expressions ([\d], [\w], [\s]) and
      of [trim] are the ECMAScript ones restricted to that range.
    - A JavaScript number that the code computes with as a real (timestamps,
      time windows) is a binary64 [float]; a number that only ever holds a
      count read from digits is a [Z].
    - A function that can throw returns an [Outcome]; an [await]ed promise
      that can reject is an [Outcome] as well.
    - What the platform or a library provides and the repository only calls
      (the URL parser of [new URL], the HTML queries of cheerio, [fetch]) is
      a parameter: a class whose methods are the calls the code makes. *)

From Stdlib Require Import ZArith Ascii String List Lia Floats.
From Stdlib Require QArith Qround.
From stdpp Require Import base strings list gmap.

Abbreviation jsstring := (list ascii).
Coercion list_ascii_of_string : string >-> list.
Arguments list_ascii_of_string : simpl never.

(** ** ECMAScript string primitives *)

Module JS.

Definition code (c : ascii) : N := N_of_ascii c.

Definition inRange (lo hi : N) (c : ascii) : bool :=
  ((lo <=? code c) && (code c <=? hi))%N.

Definition isDigit (c : ascii) : bool := inRange 48 57 c.
Definition isUpper (c : ascii) : bool := inRange 65 90 c.
Definition isLower (c : ascii) : bool := inRange 97 122 c.
Definition isAlnum (c : ascii) : bool := isDigit c || isUpper c || isLower c.

(** [\w] *)
Definition isWordChar (c : ascii) : bool := isAlnum c || Ascii.eqb c "_".

(** [\s], and the characters [trim] strips: TAB, LF, VT, FF, CR, SP, NBSP. *)
Definition isWhiteSpace (c : ascii) : bool :=
  inRange 9 13 c || Ascii.eqb c " " || (code c =? 160)%N.

(** What [.] does not match. *)
Definition isLineTerminator (c : ascii) : bool :=
  (code c =? 10)%N || (code c =? 13)%N.

(** [String.prototype.toLowerCase] on one code unit: A-Z, and the Latin-1
    capitals 0xC0-0xDE except the multiplication sign 0xD7. *)
Definition lowerChar (c : ascii) : ascii :=
  if isUpper c || (inRange 192 222 c && negb (code c =? 215)%N)
  then ascii_of_N (code c + 32) else c.

Definition toLowerCase (s : jsstring) : jsstring := map lowerChar s.

(** The canonicalisation of a case-insensitive regular expression (flag [i]
    without [u]) agrees, on patterns written in ASCII letters, with folding
    A-Z only: a code unit above 127 never matches an ASCII letter. *)
Definition foldChar (c : ascii) : ascii :=
  if isUpper c then ascii_of_N (code c + 32) else c.

Definition foldCase (s : jsstring) : jsstring := map foldChar s.

Fixpoint startsWith (p s : jsstring) : bool :=
  match p, s with
  | [], _ => true
  | _ :: _, [] => false
  | a :: p', b :: s' => Ascii.eqb a b && startsWith p' s'
  end.

Definition endsWith (p s : jsstring) : bool := startsWith (rev p) (rev s).

Fixpoint includes (needle s : jsstring) : bool :=
  startsWith needle s ||
  match s with
  | [] => false
  | _ :: s' => includes needle s'
  end.

Fixpoint dropWhile (p : ascii -> bool) (s : jsstring) : jsstring :=
  match s with
  | [] => []
  | c :: s' => if p c then dropWhile p s' else s
  end.

Fixpoint takeWhile (p : ascii -> bool) (s : jsstring) : jsstring :=
  match s with
  | [] => []
  | c :: s' => if p c then c :: takeWhile p s' else []
  end.

Definition trimStart (s : jsstring) : jsstring := dropWhile isWhiteSpace s.
Definition trimEnd (s : jsstring) : jsstring := rev (trimStart (rev s)).
Definition trim (s : jsstring) : jsstring := trimEnd (trimStart s).

(** [s.split(sep)] for a separator that matches exactly one code unit (a
    one-character string, or a character class): never the empty list. *)
Fixpoint split (sep : ascii -> bool) (s : jsstring) : list jsstring :=
  match s with
  | [] => [[]]
  | c :: s' =>
      if sep c then [] :: split sep s'
      else match split sep s' with
           | [] => [[c]]
           | part :: parts => (c :: part) :: parts
           end
  end.

Fixpoint join (sep : jsstring) (parts : list jsstring) : jsstring :=
  match parts with
  | [] => []
  | [p] => p
  | p :: rest => p ++ sep ++ join sep rest
  end.

(** Truthiness of a string: [""] is falsy. *)
Definition truthy (s : jsstring) : bool :=
  match s with [] => false | _ :: _ => true end.

(** [a || b] on values that are a string or [undefined]/[null]. *)
Definition orElse (a b : option jsstring) : option jsstring :=
  match a with
  | Some (_ :: _) => a
  | _ => b
  end.

(** [a || d] where [d] is a string. *)
Definition orDefault (a : option jsstring) (d : jsstring) : jsstring :=
  match a with
  | Some (c :: s) => c :: s
  | _ => d
  end.

(** A global replacement [s.replace(/re/g, "")] for an expression whose match
    at a position, when there is one, is determined by the text from that
    position on: [matchLen rest] is the length of the match that starts
    [rest].  The scan resumes after each match; [skip] counts the code units
    of the current match still to drop. *)
Fixpoint removeAllFrom (matchLen : jsstring -> option nat)
    (skip : nat) (s : jsstring) : jsstring :=
  match s with
  | [] => []
  | c :: s' =>
      match skip with
      | S k => removeAllFrom matchLen k s'
      | O =>
          match matchLen s with
          | Some (S k) => removeAllFrom matchLen k s'
          | _ => c :: removeAllFrom matchLen 0 s'
          end
      end
  end.

Definition removeAll (matchLen : jsstring -> option nat) (s : jsstring)
  : jsstring := removeAllFrom matchLen 0 s.

(** [prefix] followed by one or more characters of class [cls], then by
    [close] when given: the shape of [line:\d+%], [align:\w+], [<[^>]+>].
    The class never contains the closing character, so the greedy run is the
    only candidate. *)
Definition matchRun (prefix : jsstring) (cls : ascii -> bool)
    (close : option ascii) (s : jsstring) : option nat :=
  if startsWith prefix s then
    let rest := drop (length prefix) s in
    let run := takeWhile cls rest in
    match run with
    | [] => None
    | _ :: _ =>
        match close with
        | None => Some (length prefix + length run)
        | Some c =>
            match drop (length run) rest with
            | c' :: _ =>
                if Ascii.eqb c c' then Some (length prefix + length run + 1)
                else None
            | [] => None
            end
        end
    end
  else None.

(** Decimal digits of a non-negative integer: [Number.prototype.toString]
    on an integer below 2^53. *)
Definition digitChar (d : N) : ascii := ascii_of_N (48 + d).

Fixpoint digitsOfFuel (fuel : nat) (n : N) (acc : jsstring) : jsstring :=
  match fuel with
  | O => acc
  | S f =>
      let acc' := digitChar (n mod 10) :: acc in
      if (n <? 10)%N then acc' else digitsOfFuel f (n / 10) acc'
  end.

Definition natToString (n : N) : jsstring :=
  digitsOfFuel (S (N.to_nat (N.log2 n))) n [].

Definition intToString (z : Z) : jsstring :=
  match z with
  | Zneg p => "-"%char :: natToString (Npos p)
  | _ => natToString (Z.to_N z)
  end.

Definition digitValue (c : ascii) : Z := Z.of_N (code c) - 48.

(** The integer a run of decimal digits denotes. *)
Definition digitsValue (ds : jsstring) : Z :=
  fold_left (fun acc c => 10 * acc + digitValue c)%Z ds 0%Z.

(** [s.replace(/c/g, rep)] for a pattern that is one literal character and a
    replacement text without [$]: every occurrence, left to right. *)
Definition replaceAllChar (c : ascii) (rep s : jsstring) : jsstring :=
  flat_map (fun x => if Ascii.eqb x c then rep else [x]) s.

(** [s.replace(/pat/g, rep)] for a pattern that is a literal text, not
    empty, and a replacement text without [$]: the occurrences are found
    left to right, each search resuming after the previous match; [skip]
    counts the code units of the current match still to pass. *)
Fixpoint replaceAllFrom (pat rep : jsstring) (skip : nat) (s : jsstring)
  : jsstring :=
  match s with
  | [] => []
  | c :: s' =>
      match skip with
      | S k => replaceAllFrom pat rep k s'
      | O =>
          if startsWith pat s
          then rep ++ replaceAllFrom pat rep (length pat - 1) s'
          else c :: replaceAllFrom pat rep 0 s'
      end
  end.

Definition replaceAll (pat rep s : jsstring) : jsstring :=
  replaceAllFrom pat rep 0 s.

(** [s.replace(/\s+/g, " ")]: [inRun] tells that the code unit before was
    white space, already replaced. *)
Fixpoint collapseFrom (inRun : bool) (s : jsstring) : jsstring :=
  match s with
  | [] => []
  | c :: s' =>
      if isWhiteSpace c
      then if inRun then collapseFrom true s' else " "%char :: collapseFrom true s'
      else c :: collapseFrom false s'
  end.

Definition collapseWhiteSpace (s : jsstring) : jsstring := collapseFrom false s.

End JS.

(** ** Errors and outcomes *)

(** [WOLError["code"]] of [types.ts]. *)
Inductive ErrorCode :=
| SERVICE_UNAVAILABLE
| NOT_FOUND
| INVALID_QUERY
| NETWORK_ERROR
| PARSE_ERROR.

(** A thrown value.  Everything the code throws or sees thrown is an [Error]
    object; [code] is its [code] property when it has a truthy one.  The
    [details] payload of a [WOLError] is diagnostic only and is left out. *)
Record JSError := mkError {
  errName : jsstring;
  message : jsstring;
  code : option ErrorCode
}.

(** [new Error(message)] *)
Definition newError (msg : jsstring) : JSError := mkError "Error" msg None.

(** [createWOLError(code, message, details)] of [utils.ts]. *)
Definition createWOLError (c : ErrorCode) (msg : jsstring) : JSError :=
  mkError "Error" msg (Some c).

(** [`${error}`]: [Error.prototype.toString]. *)
Definition errorToString (e : JSError) : jsstring :=
  match errName e, message e with
  | [], m => m
  | n, [] => n
  | n, m => n ++ ": " ++ m
  end.

Inductive Outcome (A : Type) :=
| Returns (a : A)
| Throws (e : JSError).
Arguments Returns {A} a.
Arguments Throws {A} e.

Global Instance Outcome_ret : MRet Outcome := fun _ a => Returns a.
Global Instance Outcome_bind : MBind Outcome := fun _ _ k m =>
  match m with
  | Returns a => k a
  | Throws e => Throws e
  end.

(** [try { body } catch (error) { handler }] *)
Definition tryCatch {A} (body : Outcome A) (handler : JSError -> Outcome A)
  : Outcome A :=
  match body with
  | Returns a => Returns a
  | Throws e => handler e
  end.

(** The [catch] block every public operation ends with: an error that has a
    [code] is rethrown as it is, anything else is wrapped as [NETWORK_ERROR]
    with [prefix] before its text. *)
Definition rethrowOrWrap {A} (prefix : jsstring) (e : JSError) : Outcome A :=
  match code e with
  | Some _ => Throws e
  | None => Throws (createWOLError NETWORK_ERROR (prefix ++ errorToString e))
  end.

(** ** ECMAScript numbers *)

Module Num.

(** The Number value of a mathematical integer: round to nearest, ties to
    even. *)
Definition ofZ (z : Z) : float :=
  SF2Prim (binary_normalize prec emax z 0 false).

(** The Number value of [mantissa / 10^scale], correctly rounded. *)
Definition ofRatio (mantissa : Z) (scale : N) : float :=
  match mantissa with
  | Zpos m =>
      SF2Prim (SFdiv prec emax (S754_finite false m 0)
                 (S754_finite false (Z.to_pos (10 ^ Z.of_N scale)) 0))
  | _ => zero
  end.

(** The Number value of [mantissa * 10^exp10]. *)
Definition ofDecimal (mantissa : Z) (exp10 : Z) : float :=
  match exp10 with
  | Zneg e => ofRatio mantissa (Npos e)
  | _ => ofZ (mantissa * 10 ^ exp10)
  end.

Definition negateIf (neg : bool) (x : float) : float :=
  if neg then PrimFloat.opp x else x.

(** An optional sign: whether it is a minus, and the text after it. *)
Definition readSign (s : jsstring) : bool * jsstring :=
  match s with
  | "-"%char :: r => (true, r)
  | "+"%char :: r => (false, r)
  | _ => (false, s)
  end.

(** [parseInt(s, 10)]: leading white space, an optional sign, then the
    longest run of decimal digits; [NaN] when there is no digit. *)
Definition parseInt (s : jsstring) : float :=
  let '(neg, r) := readSign (JS.trimStart s) in
  match JS.takeWhile JS.isDigit r with
  | [] => nan
  | ds => negateIf neg (ofZ (JS.digitsValue ds))
  end.

(** The exponent part [e], [e+], [e-] followed by digits, when there is one:
    its value. *)
Definition readExponent (s : jsstring) : Z :=
  match s with
  | c :: r =>
      if Ascii.eqb c "e" || Ascii.eqb c "E" then
        let '(neg, r') := readSign r in
        match JS.takeWhile JS.isDigit r' with
        | [] => 0
        | ds => if neg then - JS.digitsValue ds else JS.digitsValue ds
        end
      else 0
  | [] => 0
  end%Z.

(** [parseFloat(s)]: leading white space, then the longest prefix that is a
    decimal literal ([Infinity], digits with an optional fraction and
    exponent, or a fraction that starts with the point); [NaN] when there is
    none. *)
Definition parseFloat (s : jsstring) : float :=
  let '(neg, r) := readSign (JS.trimStart s) in
  if JS.startsWith "Infinity" r then negateIf neg infinity
  else
    let ip := JS.takeWhile JS.isDigit r in
    let r1 := drop (length ip) r in
    let '(fp, r2) :=
      match r1 with
      | "."%char :: r' =>
          let fp := JS.takeWhile JS.isDigit r' in (fp, drop (length fp) r')
      | _ => ([], r1)
      end in
    match ip ++ fp with
    | [] => nan
    | ds =>
        negateIf neg
          (ofDecimal (JS.digitsValue ds)
             (readExponent r2 - Z.of_nat (length fp)))
    end.

(** [a >= b] and [a <= b]: false when either side is [NaN]. *)
Definition geb (a b : float) : bool := PrimFloat.leb b a.
Definition leb (a b : float) : bool := PrimFloat.leb a b.

(** [Math.ceil(x)]: the least integer not below [x].  It is [x] itself when
    [x] is an integer, a zero, an infinity or [NaN], and the negative zero
    for [x] between -1 and 0.  A Number with a fraction is below 2^52 in
    size, so the integer is a Number as it stands. *)
Definition ceil (x : float) : float :=
  match Prim2SF x with
  | S754_finite s m (Zneg k) =>
      let c := (if s then - (Zpos m / 2 ^ Zpos k)
                else - (- Zpos m / 2 ^ Zpos k))%Z in
      if (c =? 0)%Z then neg_zero else ofZ c
  | _ => x
  end.

End Num.

(** ** The platform: URL objects and URLSearchParams

    [new URL(s)], the properties of the URL object the code reads or assigns,
    and the serialiser of [URLSearchParams].  The laws are those of the URL
    Standard that the properties below rest on: assigning [search] the
    serialisation of a list of pairs makes that list the URL's parameters,
    assigning it the empty string removes them, and neither touches the host
    or the path; the serialisation is empty for the empty list only. *)

Abbreviation params := (list (jsstring * jsstring)).

Class Platform := {
  URL : Type;
  (** [new URL(s)]; [None] when the constructor throws *)
  URL_new : jsstring -> option URL;
  URL_hostname : URL -> jsstring;
  URL_pathname : URL -> jsstring;
  (** [url.searchParams], in order *)
  URL_searchParams : URL -> params;
  (** [url.search = value] *)
  URL_setSearch : URL -> jsstring -> URL;
  (** [url.toString()] *)
  URL_toString : URL -> jsstring;
  (** [new URLSearchParams], filled by [append], then [toString()] *)
  URLSearchParams_toString : params -> jsstring;

  URLSearchParams_toString_nil :
    forall ps, URLSearchParams_toString ps = [] <-> ps = [];
  URL_searchParams_setSearch :
    forall u ps, ps <> [] ->
      URL_searchParams (URL_setSearch u ("?"%char :: URLSearchParams_toString ps)) = ps;
  URL_searchParams_clearSearch :
    forall u, URL_searchParams (URL_setSearch u []) = [];
  URL_hostname_setSearch :
    forall u v, URL_hostname (URL_setSearch u v) = URL_hostname u;
  URL_pathname_setSearch :
    forall u v, URL_pathname (URL_setSearch u v) = URL_pathname u
}.

(** [searchParams.get(name)]: the first value under [name]. *)
Fixpoint URLSearchParams_get (ps : params) (name : jsstring) : option jsstring :=
  match ps with
  | [] => None
  | (k, v) :: rest =>
      if bool_decide (k = name) then Some v else URLSearchParams_get rest name
  end.

(** [searchParams.set(name, value)]: the first pair under [name] takes the
    value and the later ones go; a new pair is appended when there is none. *)
Fixpoint URLSearchParams_set (ps : params) (name value : jsstring) : params :=
  match ps with
  | [] => [(name, value)]
  | (k, v) :: rest =>
      if bool_decide (k = name)
      then (k, value) :: filter (fun kv => kv.1 <> name) rest
      else (k, v) :: URLSearchParams_set rest name value
  end.

(** ** Data model ([types.ts], and the interfaces of [videoService.ts]) *)

Record SearchOptions := {
  useOperators : option bool;
  scope : option jsstring;
  publications : option (list jsstring);
  language : option jsstring;
  limit : option Z;
  sort : option jsstring;
  page : option Z
}.

Inductive ResultType := key_publication | document_result | subheading.

Record SearchResult := {
  sr_title : jsstring;
  sr_url : jsstring;
  sr_snippet : jsstring;
  sr_publication : jsstring;
  sr_occurrences : option Z;
  sr_documentId : option jsstring;
  sr_resultType : option ResultType;
  sr_subheadings : option (list jsstring);
  sr_contextSnippets : option (list jsstring)
}.

(** The counts are Numbers, binary64 floats.  [currentPage] is [None] when
    the code stores [NaN] there. *)
Record SearchPagination := {
  totalResults : float;
  pageSize : float;
  totalPages : float;
  currentPage : option Z
}.

Record SearchResponse := {
  results : list SearchResult;
  pagination : SearchPagination
}.

Record Document := {
  doc_id : jsstring;
  doc_title : jsstring;
  doc_content : jsstring;
  doc_publication : jsstring;
  doc_url : jsstring;
  doc_language : jsstring
}.

Record Subtitles := {
  sub_url : jsstring;
  modifiedDatetime : jsstring;
  checksum : jsstring
}.

Record PubMediaVideoFile := {
  pm_title : jsstring;
  pm_label : jsstring;
  pm_duration : float;
  pm_subtitles : option Subtitles;
  pm_trackImage : option jsstring
}.

(** [files[lang]]: an object whose [MP4] property may be absent. *)
Record LangFiles := { MP4 : option (list PubMediaVideoFile) }.

Record PubMediaResponse := {
  pubName : jsstring;
  pm_pub : jsstring;
  pm_track : float;
  files : gmap jsstring LangFiles
}.

Inductive IdType := pub | docid.

Record ParsedVideoParams := {
  pv_id : jsstring;
  pv_track : jsstring;
  pv_language : jsstring;
  pv_type : IdType
}.

Record VideoMetadata := {
  vm_title : jsstring;
  vm_publication : jsstring;
  vm_pub : jsstring;
  vm_track : float;
  vm_language : jsstring;
  vm_duration : float;
  availableResolutions : list jsstring;
  thumbnailUrl : option jsstring
}.

Record VideoSubtitles := {
  vttUrl : jsstring;
  rawVtt : jsstring;
  plainText : jsstring
}.

Record VideoSubtitleResult := {
  metadata : VideoMetadata;
  subtitles : VideoSubtitles
}.

(** ** The network: [fetch] and its responses *)

(** A [Response] as the code uses it: the status line, and what the promises
    of [text()] and [json()] settle to.  Reading the body can fail after the
    status has arrived. *)
Record Response := {
  status : Z;
  text : Outcome jsstring;
  json : Outcome PubMediaResponse
}.

(** [response.ok] *)
Definition ok (r : Response) : bool := (200 <=? status r)%Z && (status r <=? 299)%Z.

(** One call of [fetch]: it resolves to a response, whatever its status, or
    rejects (network failure, or the abort of the per-attempt timeout). *)
Inductive FetchOutcome :=
| Responds (r : Response)
| Rejects (e : JSError).

(** What the upstream does with the [i]-th attempt (from 0) of a call for a
    URL.  The request headers do not enter the control flow and are left
    out. *)
Definition Network := jsstring -> nat -> FetchOutcome.

(** What a run of the retry loop does besides computing its result. *)
Inductive Event :=
| EvFetch (url : jsstring) (attempt : nat)
| EvWarn (attemptNumber : nat) (e : JSError)
| EvSleep (ms : Z).

(** The loop both services share:
<<
    for (let i = 0; i < retries; i++) {
      try { ... const response = await fetch(url, ...); ... return response; }
      catch (error) {
        console.warn(`Fetch attempt ${i + 1} failed:`, error);
        if (i === retries - 1) throw error;
        await new Promise((resolve) => setTimeout(resolve, 2 ** i * 1000));
      }
    }
    throw new Error("Max retries exceeded");
>>
    [todo] is [retries - i], the number of iterations the loop condition
    still allows. *)
Fixpoint retryLoop (net : Network) (url : jsstring) (retries i todo : nat)
  : list Event * Outcome Response :=
  match todo with
  | O => ([], Throws (newError "Max retries exceeded"))
  | S todo' =>
      match net url i with
      | Responds r => ([EvFetch url i], Returns r)
      | Rejects e =>
          if Nat.eqb i (retries - 1)
          then ([EvFetch url i; EvWarn (i + 1) e], Throws e)
          else
            let '(evs, out) := retryLoop net url retries (S i) todo' in
            (EvFetch url i :: EvWarn (i + 1) e :: EvSleep (2 ^ Z.of_nat i * 1000) :: evs,
             out)
      end
  end.

Definition isFetch (ev : Event) : bool :=
  match ev with EvFetch _ _ => true | _ => false end.

(** How many times [fetch] was called. *)
Definition attemptsOf (evs : list Event) : nat :=
  length (List.filter isFetch evs).

(** ** [utils.ts] *)

(** [s.replace(pattern, replacement)] for a string pattern: the first
    occurrence only, with the [$$], [$&], [$`] and [$'] forms of the
    replacement text expanded (a string pattern has no captures, so [$1] and
    the like stay as they are). *)
Fixpoint expandReplacement (rep matched before after : jsstring) : jsstring :=
  match rep with
  | [] => []
  | "$"%char :: rest =>
      match rest with
      | "$"%char :: rest' => "$"%char :: expandReplacement rest' matched before after
      | "&"%char :: rest' => matched ++ expandReplacement rest' matched before after
      | "`"%char :: rest' => before ++ expandReplacement rest' matched before after
      | "'"%char :: rest' => after ++ expandReplacement rest' matched before after
      | _ => "$"%char :: expandReplacement rest matched before after
      end
  | c :: rest => c :: expandReplacement rest matched before after
  end.

Fixpoint replaceFrom (pat rep before s : jsstring) : jsstring :=
  if JS.startsWith pat s
  then before ++ expandReplacement rep pat before (drop (length pat) s)
       ++ drop (length pat) s
  else match s with
       | [] => before
       | c :: s' => replaceFrom pat rep (before ++ [c]) s'
       end.

Definition replace (pat rep s : jsstring) : jsstring := replaceFrom pat rep [] s.

Definition SEARCH : jsstring := "https://wol.jw.org/{lang}/wol/s/{rev}/lp-{lp}".
Definition DOCUMENT : jsstring := "https://wol.jw.org/{lang}/wol/d/{rev}/lp-{lp}/{docId}".

Definition isHyphenOrUnderscore (c : ascii) : bool :=
  Ascii.eqb c "-" || Ascii.eqb c "_".

Definition normalizeIsoLanguageCode (language : option jsstring) : jsstring :=
  let input := JS.toLowerCase (JS.orDefault language "en") in
  let primary := hd [] (JS.split isHyphenOrUnderscore input) in
  JS.orDefault (Some primary) "en".

(** An entry of the routing table: its [lp] and [rsconf] strings, each
    possibly absent. *)
Record LanguageEntry := {
  lp : option jsstring;
  rsconf : option jsstring
}.

(** [wol_languages.json] is not among the sources: its [mapping] object is a
    parameter, [None] when the file has none. *)
Class WolLanguages := mapping : option (gmap jsstring LanguageEntry).

(** [mapping[norm]] on a plain object: an own property or, for the one name a
    normalised code can share with [Object.prototype], the inherited
    [constructor], which has neither [lp] nor [rsconf]. *)
Definition propertyOf (m : gmap jsstring LanguageEntry) (norm : jsstring)
  : option LanguageEntry :=
  match m !! norm with
  | Some e => Some e
  | None =>
      if bool_decide (norm = ("constructor" : jsstring))
      then Some {| lp := None; rsconf := None |}
      else None
  end.

Record WolConfig := { cfg_lp : jsstring; cfg_rev : jsstring }.

Definition resolveWolConfig `{WolLanguages} (language : option jsstring)
  : WolConfig :=
  let norm := normalizeIsoLanguageCode language in
  let entry := match mapping with
               | Some m => propertyOf m norm
               | None => None
               end in
  let lp := JS.orDefault (entry ≫= lp)
              (if bool_decide (norm = ("en" : jsstring)) then "e" else norm) in
  let rev := JS.orDefault (entry ≫= rsconf) "r1" in
  {| cfg_lp := lp; cfg_rev := rev |}.

Module URLBuilder.
Section WithPlatform.
Context `{Platform} `{WolLanguages}.

Definition buildSearchURL (query : jsstring) (options : SearchOptions) : jsstring :=
  let scope := default ("par" : jsstring) (scope options) in
  let publications := default [] (publications options) in
  let language := default ("en" : jsstring) (language options) in
  let sort := default ("occ" : jsstring) (sort options) in
  let page := default 1%Z (page options) in
  let cfg := resolveWolConfig (Some language) in
  let baseUrl :=
    replace "{lp}" (cfg_lp cfg)
      (replace "{rev}" (cfg_rev cfg) (replace "{lang}" language SEARCH)) in
  let sortParam : jsstring :=
    if bool_decide (sort = ("newest" : jsstring)) then "newest"
    else if bool_decide (sort = ("oldest" : jsstring)) then "oldest"
    else "occ" in
  let params : params :=
    [("q" : jsstring, query); ("p" : jsstring, scope);
     ("r" : jsstring, sortParam); ("st" : jsstring, "a" : jsstring)]
    ++ map (fun pub => ("fc[]" : jsstring, pub)) publications
    ++ (if (1 <? page)%Z then [("pg" : jsstring, JS.intToString page)] else []) in
  baseUrl ++ "?" ++ URLSearchParams_toString params.

Definition buildDocumentURL (documentId : jsstring) (language : option jsstring)
  : jsstring :=
  let language := default ("en" : jsstring) language in
  let cfg := resolveWolConfig (Some language) in
  replace "{docId}" documentId
    (replace "{lp}" (cfg_lp cfg)
       (replace "{rev}" (cfg_rev cfg) (replace "{lang}" language DOCUMENT))).

(** [host.endsWith("jw.org") && host.includes("wol")] *)
Definition isWolHost (hostname : jsstring) : bool :=
  let host := JS.toLowerCase hostname in
  JS.endsWith "jw.org" host && JS.includes "wol" host.

(** [/\/wol\/d\//i.test(pathname)] *)
Definition isDocumentPath (pathname : jsstring) : bool :=
  JS.includes "/wol/d/" (JS.foldCase pathname).

(** [allowed.has(k)] for [allowed = new Set(["q", "p"])] *)
Definition allowed (k : jsstring) : bool :=
  bool_decide (k = ("q" : jsstring)) || bool_decide (k = ("p" : jsstring)).

Definition cleanParams (ps : params) : params :=
  List.filter (fun kv => allowed kv.1) ps.

Definition validateAndNormalizeDocumentURL (urlString : jsstring)
  : Outcome jsstring :=
  match URL_new urlString with
  | None => Throws (newError "Invalid URL")
  | Some parsed =>
      if negb (isWolHost (URL_hostname parsed))
      then Throws (newError "URL must be a jw.org WOL document")
      else if negb (isDocumentPath (URL_pathname parsed))
      then Throws (newError "URL must point to a WOL document (contains /wol/d/)")
      else
        let clean := cleanParams (URL_searchParams parsed) in
        let search :=
          if JS.truthy (URLSearchParams_toString clean)
          then "?"%char :: URLSearchParams_toString clean
          else [] in
        Returns (URL_toString (URL_setSearch parsed search))
  end.

End WithPlatform.
End URLBuilder.

Module SearchOperatorParser.

(** The fourteen global replacements, in the order of the code: the
    percent sign is replaced after the first five operators and before the
    other eight. *)
Definition encodeOperators (query : jsstring) : jsstring :=
  JS.replaceAllChar ")" "%29"
    (JS.replaceAllChar "(" "%28"
       (JS.replaceAllChar "\" "%5C"
          (JS.replaceAllChar "#" "%23"
             (JS.replaceAllChar "?" "%3F"
                (JS.replaceAllChar "*" "%2A"
                   (JS.replaceAllChar "034" "%22"
                      (JS.replaceAllChar "!" "%21"
                         (JS.replaceAllChar "%" "%25"
                            (JS.replaceAllChar "^" "%5E"
                               (JS.replaceAllChar "/" "%2F"
                                  (JS.replaceAllChar "|" "%7C"
                                     (JS.replaceAllChar "+" "%2B"
                                        (JS.replaceAllChar "&" "%26" query))))))))))))).

(** [\p{L}] and [\p{N}] below 256. *)
Definition isLetter (c : ascii) : bool :=
  JS.isUpper c || JS.isLower c
  || (JS.code c =? 170)%N || (JS.code c =? 181)%N || (JS.code c =? 186)%N
  || JS.inRange 192 214 c || JS.inRange 216 246 c || JS.inRange 248 255 c.

Definition isNumber (c : ascii) : bool :=
  JS.isDigit c
  || (JS.code c =? 178)%N || (JS.code c =? 179)%N || (JS.code c =? 185)%N
  || JS.inRange 188 190 c.

Definition isOperatorChar (c : ascii) : bool :=
  existsb (Ascii.eqb c) ("&+|/^%!*?#\()_-" : jsstring) || (JS.code c =? 34)%N.

(** [validOperators.test(query)]: the query is not empty and holds only
    letters, numbers, white space and the operator characters (the double
    quote, code 34, among them). *)
Definition validateOperators (query : jsstring) : bool :=
  JS.truthy query
  && forallb (fun c => isLetter c || isNumber c || JS.isWhiteSpace c
                       || isOperatorChar c) query.

End SearchOperatorParser.

(** The queries [parseSearchResults] and [parseDocument] make on the HTML
    through cheerio, and the two regular-expression formatters of the
    document body.  None of the properties below looks inside them. *)
Class Scraping := {
  (** the results the two [.each] loops push: key publications, then
      document results *)
  scrapeResults : jsstring -> list SearchResult;
  (** [$("#resultsCount").first().text()] *)
  resultsCountText : jsstring -> jsstring;
  (** [$(".resultsNavigationSelected .navContent").first().text()] *)
  selectedPageText : jsstring -> jsstring;
  (** [ContentParser.parseDocument(html, documentUrl)] *)
  parseDocument : jsstring -> jsstring -> Outcome Document;
  (** the non-breaking-space normalisation and [convertToMarkdown] or
      [convertToPlainText], by the requested format *)
  formatContent : jsstring -> jsstring -> jsstring
}.

Module ContentParser.
Section WithScraping.
Context `{Scraping}.

Definition isCountChar (c : ascii) : bool :=
  JS.isDigit c || Ascii.eqb c "." || Ascii.eqb c ",".

(** The group the count pattern (a digit, then any run of digits, points and
    commas) captures in [text]: the leftmost digit and the run after it. *)
Definition matchCount (text : jsstring) : option jsstring :=
  match JS.dropWhile (fun c => negb (JS.isDigit c)) text with
  | [] => None
  | d :: rest => Some (d :: JS.takeWhile isCountChar rest)
  end.

(** [s.replace(/[.,]/g, "")] *)
Definition stripSeparators (s : jsstring) : jsstring :=
  List.filter (fun c => negb (Ascii.eqb c "." || Ascii.eqb c ",")) s.

(** [parseInt(s, 10)] as an integer; [None] is [NaN]. *)
Definition parseIntZ (s : jsstring) : option Z :=
  let '(neg, r) := Num.readSign (JS.trimStart s) in
  match JS.takeWhile JS.isDigit r with
  | [] => None
  | ds => Some (if neg then - JS.digitsValue ds else JS.digitsValue ds)%Z
  end.

(** [/\d+/.test(s)] *)
Definition hasDigit (s : jsstring) : bool := existsb JS.isDigit s.

Definition parsePagination (html : jsstring) : SearchPagination :=
  let countContainer := resultsCountText html in
  let totalResults :=
    match matchCount countContainer with
    | Some m => Num.parseInt (stripSeparators m)
    | None => 0%float
    end in
  let pageSize := 40%float in
  let totalPages :=
    if PrimFloat.ltb 0 totalResults
    then Num.ceil (totalResults / pageSize)
    else 1%float in
  let selected := selectedPageText html in
  let currentPage :=
    if JS.truthy selected && hasDigit selected then parseIntZ selected
    else Some 1%Z in
  {| totalResults := totalResults; pageSize := pageSize;
     totalPages := totalPages; currentPage := currentPage |}.

Definition parseSearchResults (html : jsstring) : SearchResponse :=
  {| results := scrapeResults html; pagination := parsePagination html |}.

End WithScraping.
(** [isDigits] of [parseDocument]: not empty, and every character between
    [0] and [9]. *)
Definition isDigits (s : jsstring) : bool := JS.truthy s && forallb JS.isDigit s.

(** The loop of [parseDocument] from the last part down to the first, on
    the parts in reverse order: the first part of digits met, or the empty
    string. *)
Fixpoint lastDigits (reversed : list jsstring) : jsstring :=
  match reversed with
  | [] => []
  | part :: rest => if isDigits part then part else lastDigits rest
  end.

(** The document id [parseDocument] reads from the path of the document
    URL: [u.pathname.split("/").filter(Boolean)], searched from the end. *)
Definition documentIdOfPath (pathname : jsstring) : jsstring :=
  let parts := List.filter JS.truthy (JS.split (Ascii.eqb "/") pathname) in
  lastDigits (rev parts).

End ContentParser.

(** ** [videoService.ts] *)

Definition LF : ascii := "010"%char.

Module VideoService.

Definition MAX_RETRIES : nat := 3.

Definition JW_PUBMEDIA_API : jsstring :=
  "https://b.jw-cdn.org/apis/pub-media/GETPUBMEDIALINKS".

(** [fetchWithRetry(url, accept)] *)
Definition fetchWithRetry (net : Network) (url : jsstring)
  : list Event * Outcome Response :=
  retryLoop net url MAX_RETRIES 0 MAX_RETRIES.

(** The two identifier patterns have one shape,
    [^prefix(idClass+)_(.+)_VIDEO$] with flag [i]: an identifier of
    characters that cannot be an underscore, so the greedy run is the one
    the match has, an underscore, and a track that is everything up to the
    closing [_VIDEO] and holds no line terminator. *)
Definition matchLank (prefix : jsstring) (idClass : ascii -> bool)
    (lank : jsstring) : option (jsstring * jsstring) :=
  if bool_decide (JS.foldCase (take (length prefix) lank) = prefix) then
    let rest := drop (length prefix) lank in
    let id := JS.takeWhile idClass rest in
    match id, drop (length id) rest with
    | _ :: _, "_"%char :: tail =>
        let n := length tail - 6 in
        let track := take n tail in
        if JS.truthy track
           && bool_decide (JS.foldCase (drop n tail) = ("_video" : jsstring))
           && forallb (fun c => negb (JS.isLineTerminator c)) track
        then Some (id, track)
        else None
    | _, _ => None
    end
  else None.

(** [[a-zA-Z0-9-]] *)
Definition isPubIdChar (c : ascii) : bool := JS.isAlnum c || Ascii.eqb c "-".

(** [lank.match(/^pub-([a-zA-Z0-9-]+)_(.+)_VIDEO$/i)] *)
Definition pubMatch : jsstring -> option (jsstring * jsstring) :=
  matchLank "pub-" isPubIdChar.

(** [lank.match(/^docid-(\d+)_(.+)_VIDEO$/i)] *)
Definition docidMatch : jsstring -> option (jsstring * jsstring) :=
  matchLank "docid-" JS.isDigit.

Definition unrecognizedMessage (lank : jsstring) : jsstring :=
  "Unrecognized video identifier format: " ++ lank
  ++ ". Expected formats like pub-{id}_{track}_VIDEO or docid-{id}_{track}_VIDEO".

Section WithPlatform.
Context `{Platform}.

Definition parseVideoUrl (url : jsstring) : Outcome ParsedVideoParams :=
  match URL_new url with
  | None => Throws (createWOLError INVALID_QUERY "Invalid URL format")
  | Some urlObj =>
      let params := URL_searchParams urlObj in
      let language :=
        JS.orElse (URLSearchParams_get params "wtlocale")
                  (URLSearchParams_get params "appLanguage") in
      match language with
      | None | Some [] =>
          Throws (createWOLError INVALID_QUERY
            "Could not determine video language from URL. Expected 'wtlocale' or 'appLanguage' parameter.")
      | Some language =>
          let lank :=
            JS.orElse (URLSearchParams_get params "lank")
                      (URLSearchParams_get params "item") in
          match lank with
          | None | Some [] =>
              Throws (createWOLError INVALID_QUERY
                "Could not find video identifier in URL. Expected 'lank' or 'item' parameter.")
          | Some lank =>
              match pubMatch lank with
              | Some (id, track) =>
                  Returns {| pv_id := id; pv_track := track;
                             pv_language := language; pv_type := pub |}
              | None =>
                  match docidMatch lank with
                  | Some (id, track) =>
                      Returns {| pv_id := id; pv_track := track;
                                 pv_language := language; pv_type := docid |}
                  | None =>
                      Throws (createWOLError INVALID_QUERY (unrecognizedMessage lank))
                  end
              end
          end
      end
  end.

Definition typeName (t : IdType) : jsstring :=
  match t with pub => "pub" | docid => "docid" end.

(** The five [searchParams.set] calls, each of which rewrites the query of
    [apiUrl] to the serialisation of the list. *)
Definition apiParams (ps : params) (id track language : jsstring) (type : IdType)
  : params :=
  URLSearchParams_set
    (URLSearchParams_set
       (URLSearchParams_set
          (URLSearchParams_set
             (URLSearchParams_set ps "output" "json")
             (typeName type) id)
          "track" track)
       "langwritten" language)
    "txtCMSLang" language.

Definition fetchVideoMetadata (net : Network) (id track language : jsstring)
    (type : IdType) : Outcome PubMediaResponse :=
  match URL_new JW_PUBMEDIA_API with
  | None => Throws (mkError "TypeError" "Invalid URL" None)
  | Some apiUrl =>
      let ps := apiParams (URL_searchParams apiUrl) id track language type in
      let apiUrl := URL_setSearch apiUrl ("?"%char :: URLSearchParams_toString ps) in
      response ← (fetchWithRetry net (URL_toString apiUrl)).2;
      if negb (ok response) then
        if (status response =? 404)%Z
        then Throws (createWOLError NOT_FOUND "Video not found")
        else Throws (createWOLError SERVICE_UNAVAILABLE
                       ("API request failed: " ++ JS.intToString (status response)))
      else json response
  end.

End WithPlatform.

Definition fetchVttContent (net : Network) (vttUrl : jsstring) : Outcome jsstring :=
  response ← (fetchWithRetry net vttUrl).2;
  if negb (ok response)
  then Throws (createWOLError NOT_FOUND "Failed to fetch subtitle file")
  else text response.

(** [/ line:\d+%/g], [/ position:\d+%/g] and [/ align:\w+/g] removed, then
    [trim]. *)
Definition cleanVtt (vttContent : jsstring) : jsstring :=
  JS.trim
    (JS.removeAll (JS.matchRun " align:" JS.isWordChar None)
       (JS.removeAll (JS.matchRun " position:" JS.isDigit (Some "%"%char))
          (JS.removeAll (JS.matchRun " line:" JS.isDigit (Some "%"%char))
             vttContent))).

Definition parseVttTimestamp (timestamp : jsstring) : float :=
  match JS.split (Ascii.eqb ":") (JS.trim timestamp) with
  | [h; m; s] =>
      let hours := Num.parseInt h in
      let minutes := Num.parseInt m in
      let seconds := Num.parseFloat s in
      (hours * 3600 + minutes * 60 + seconds)%float
  | [m; s] =>
      let minutes := Num.parseInt m in
      let seconds := Num.parseFloat s in
      (minutes * 60 + seconds)%float
  | _ => 0%float
  end.

Definition isTimeChar (c : ascii) : bool :=
  JS.isDigit c || Ascii.eqb c ":" || Ascii.eqb c ".".

(** [\d+:[\d:.]+] at the start of [s]: what it matches and what follows.
    Both runs are the greedy ones, since what must come after each is not
    in its class. *)
Definition matchTime (s : jsstring) : option (jsstring * jsstring) :=
  let ds := JS.takeWhile JS.isDigit s in
  match ds, drop (length ds) s with
  | _ :: _, ":"%char :: r =>
      match JS.takeWhile isTimeChar r with
      | [] => None
      | run => Some (ds ++ ":"%char :: run, drop (length run) r)
      end
  | _, _ => None
  end.

(** The timestamp pattern, two times around an arrow with optional white
    space, at the start of [s]: its two groups. *)
Definition matchTimestampAt (s : jsstring) : option (jsstring * jsstring) :=
  match matchTime s with
  | Some (g1, r) =>
      let r1 := JS.dropWhile JS.isWhiteSpace r in
      if JS.startsWith "-->" r1 then
        match matchTime (JS.dropWhile JS.isWhiteSpace (drop 3 r1)) with
        | Some (g2, _) => Some (g1, g2)
        | None => None
        end
      else None
  | None => None
  end.

(** [line.match(...)]: the leftmost position where the pattern matches. *)
Fixpoint timestampMatch (line : jsstring) : option (jsstring * jsstring) :=
  match matchTimestampAt line with
  | Some m => Some m
  | None =>
      match line with
      | [] => None
      | _ :: rest => timestampMatch rest
      end
  end.

Definition isArrowLine (line : jsstring) : bool := JS.includes "-->" line.

(** [while (i < lines.length && !lines[i].includes("-->")) i++] *)
Fixpoint skipHeader (lines : list jsstring) : list jsstring :=
  match lines with
  | [] => []
  | line :: rest => if isArrowLine line then lines else skipHeader rest
  end.

(** The inner loops: the lines from [i] on that are neither blank nor an
    arrow line, and the lines left from where the loop stops. *)
Fixpoint cueTextLines (lines : list jsstring) : list jsstring * list jsstring :=
  match lines with
  | [] => ([], [])
  | line :: rest =>
      if JS.truthy (JS.trim line) && negb (isArrowLine line)
      then let '(txt, rest') := cueTextLines rest in (line :: txt, rest')
      else ([], lines)
  end.

(** [cueEnd >= startTime && cueStart <= endTime] *)
Definition overlaps (startTime endTime cueStart cueEnd : float) : bool :=
  Num.geb cueEnd startTime && Num.leb cueStart endTime.

(** The main loop, on the lines from index [i] on; [fuel] bounds the
    iterations, and the number of lines left is always enough. *)
Fixpoint processCues (fuel : nat) (startTime endTime : float)
    (lines filteredLines : list jsstring) : list jsstring :=
  match fuel with
  | O => filteredLines
  | S fuel' =>
      match lines with
      | [] => filteredLines
      | line :: rest =>
          if isArrowLine line then
            match timestampMatch line with
            | Some (m1, m2) =>
                let cueStart := parseVttTimestamp m1 in
                let cueEnd := parseVttTimestamp m2 in
                let '(txt, rest') := cueTextLines rest in
                if overlaps startTime endTime cueStart cueEnd
                then processCues fuel' startTime endTime rest'
                       (filteredLines ++ line :: txt ++ [[]])
                else processCues fuel' startTime endTime rest' filteredLines
            | None => processCues fuel' startTime endTime rest filteredLines
            end
          else processCues fuel' startTime endTime rest filteredLines
      end
  end.

Definition filteredLinesOf (vttContent : jsstring) (startTime endTime : float)
  : list jsstring :=
  let lines := JS.split (Ascii.eqb LF) vttContent in
  processCues (length lines) startTime endTime (skipHeader lines)
    [("WEBVTT" : jsstring); []].

Definition filterVttByTimeRange (vttContent : jsstring)
    (startTime endTime : float) : jsstring :=
  JS.trim (JS.join [LF] (filteredLinesOf vttContent startTime endTime)).

Definition isNot (c : ascii) (x : ascii) : bool := negb (Ascii.eqb x c).

(** The six replacements of a cue line and the final [trim]. *)
Definition cleanCueText (trimmed : jsstring) : jsstring :=
  JS.trim
    (List.filter (isNot "\")
       (JS.removeAll (JS.matchRun "align:" JS.isWordChar None)
          (JS.removeAll (JS.matchRun "position:" JS.isDigit (Some "%"%char))
             (JS.removeAll (JS.matchRun "line:" JS.isDigit (Some "%"%char))
                (JS.removeAll (JS.matchRun "{" (isNot "}") (Some "}"%char))
                   (JS.removeAll (JS.matchRun "<" (isNot ">") (Some ">"%char))
                      trimmed)))))).

(** [/^\d+$/.test(s)] *)
Definition isNumericLine (s : jsstring) : bool :=
  JS.truthy s && forallb JS.isDigit s.

(** The first loop of [vttToPlainText]: the cleaned cue fragments, in
    order. *)
Fixpoint collectTextLines (inCue : bool) (lines : list jsstring)
  : list jsstring :=
  match lines with
  | [] => []
  | line :: rest =>
      let trimmed := JS.trim line in
      if bool_decide (trimmed = ("WEBVTT" : jsstring)) || negb (JS.truthy trimmed)
      then collectTextLines false rest
      else if JS.includes "-->" trimmed then collectTextLines true rest
      else if isNumericLine trimmed then collectTextLines inCue rest
      else if inCue && JS.truthy trimmed then
        let cleanText := cleanCueText trimmed in
        if JS.truthy cleanText
        then cleanText :: collectTextLines inCue rest
        else collectTextLines inCue rest
      else collectTextLines inCue rest
  end.

Definition isTerminal (c : ascii) : bool :=
  existsb (Ascii.eqb c) (".!?:;" : jsstring).

Definition isQuote (c : ascii) : bool :=
  (JS.code c =? 34)%N || Ascii.eqb c "'".

(** Whether [currentSentence] matches the sentence-end pattern: terminal
    punctuation, an optional quote, then white space up to the end. *)
Definition endsSentence (currentSentence : jsstring) : bool :=
  match JS.dropWhile JS.isWhiteSpace (rev currentSentence) with
  | c :: before =>
      isTerminal c
      || (isQuote c && match before with
                       | p :: _ => isTerminal p
                       | [] => false
                       end)
  | [] => false
  end.

(** The second loop: [result] and [currentSentence] after the fragments. *)
Fixpoint joinSentences (textLines result : list jsstring)
    (currentSentence : jsstring) : list jsstring * jsstring :=
  match textLines with
  | [] => (result, currentSentence)
  | line :: rest =>
      if JS.endsWith line currentSentence
      then joinSentences rest result currentSentence
      else if JS.truthy currentSentence && negb (endsSentence currentSentence)
      then joinSentences rest result (currentSentence ++ " " ++ line)
      else if JS.truthy currentSentence
      then joinSentences rest (result ++ [JS.trim currentSentence]) line
      else joinSentences rest result line
  end.

Definition textLinesOf (vttContent : jsstring) : list jsstring :=
  collectTextLines false (JS.split (Ascii.eqb LF) vttContent).

Definition vttToPlainText (vttContent : jsstring) : jsstring :=
  let '(result, currentSentence) := joinSentences (textLinesOf vttContent) [] [] in
  let result :=
    if JS.truthy currentSentence
    then result ++ [JS.trim currentSentence]
    else result in
  JS.join [LF] result.

Section WithPlatform.
Context `{Platform}.

Definition getVideoSubtitles (net : Network) (url format : jsstring)
    (startTime endTime : option float) : Outcome VideoSubtitleResult :=
  tryCatch
    (params ← parseVideoUrl url;
     metadata ← fetchVideoMetadata net (pv_id params) (pv_track params)
                  (pv_language params) (pv_type params);
     (* a name inherited from [Object.prototype] has no [MP4] either *)
     let langFiles := files metadata !! pv_language params in
     match langFiles ≫= MP4 with
     | None | Some [] =>
         Throws (createWOLError NOT_FOUND
                   "No video files found for the specified language")
     | Some ((firstVideo :: _) as mp4) =>
         match pm_subtitles firstVideo with
         | None =>
             Throws (createWOLError NOT_FOUND "No subtitles available for this video")
         | Some subs =>
             vttContent ← fetchVttContent net (sub_url subs);
             let vttContent :=
               match startTime, endTime with
               | None, None => vttContent
               | _, _ =>
                   filterVttByTimeRange vttContent
                     (default 0%float startTime)
                     (default (pm_duration firstVideo) endTime)
               end in
             let cleanedVtt := cleanVtt vttContent in
             let plainText := vttToPlainText vttContent in
             let videoMetadata :=
               {| vm_title := pm_title firstVideo;
                  vm_publication := pubName metadata;
                  vm_pub := pm_pub metadata;
                  vm_track := pm_track metadata;
                  vm_language := pv_language params;
                  vm_duration := pm_duration firstVideo;
                  availableResolutions := map pm_label mp4;
                  thumbnailUrl := pm_trackImage firstVideo |} in
             Returns
               {| metadata := videoMetadata;
                  subtitles :=
                    {| vttUrl := sub_url subs;
                       rawVtt :=
                         if bool_decide (format = ("text" : jsstring))
                         then [] else cleanedVtt;
                       plainText :=
                         if bool_decide (format = ("vtt" : jsstring))
                         then [] else plainText |} |}
         end
     end)
    (rethrowOrWrap "Failed to get video subtitles: ").

End WithPlatform.

End VideoService.

(** ** The first [VideoService] of [videoService.ts]

    The file holds two classes of that name.  The first differs from the
    second in [parseVideoUrl], which knows the [pub-] identifiers only and
    no hyphen in them, and in the second loop of [vttToPlainText]; its
    other methods read as those of the second. *)

Module VideoServiceV1.

Record ParsedVideoParams := {
  pv_pub : jsstring;
  pv_track : jsstring;
  pv_language : jsstring
}.

(** [lank.match(/^pub-([a-zA-Z0-9]+)_(.+)_VIDEO$/i)] *)
Definition lankMatch : jsstring -> option (jsstring * jsstring) :=
  VideoService.matchLank "pub-" JS.isAlnum.

Definition invalidMessage (lank : jsstring) : jsstring :=
  "Invalid video identifier format: " ++ lank
  ++ ". Expected format: pub-{pub}_{track}_VIDEO".

Section WithPlatform.
Context `{Platform}.

Definition parseVideoUrl (url : jsstring) : Outcome ParsedVideoParams :=
  match URL_new url with
  | None => Throws (createWOLError INVALID_QUERY "Invalid URL format")
  | Some urlObj =>
      let params := URL_searchParams urlObj in
      let language :=
        JS.orElse (URLSearchParams_get params "wtlocale")
                  (URLSearchParams_get params "appLanguage") in
      match language with
      | None | Some [] =>
          Throws (createWOLError INVALID_QUERY
            "Could not determine video language from URL. Expected 'wtlocale' or 'appLanguage' parameter.")
      | Some language =>
          let lank :=
            JS.orElse (URLSearchParams_get params "lank")
                      (URLSearchParams_get params "item") in
          match lank with
          | None | Some [] =>
              Throws (createWOLError INVALID_QUERY
                "Could not find video identifier in URL. Expected 'lank' or 'item' parameter.")
          | Some lank =>
              match lankMatch lank with
              | None => Throws (createWOLError INVALID_QUERY (invalidMessage lank))
              | Some (pubId, trackPart) =>
                  Returns {| pv_pub := pubId; pv_track := trackPart;
                             pv_language := language |}
              end
          end
      end
  end.

End WithPlatform.

(** The second loop of the first [vttToPlainText]: a fragment is pushed
    unless it equals the last one pushed. *)
Fixpoint uniqueLinesFrom (textLines uniqueLines : list jsstring)
  : list jsstring :=
  match textLines with
  | [] => uniqueLines
  | line :: rest =>
      if bool_decide (uniqueLines = [])
         || negb (bool_decide (last uniqueLines = Some line))
      then uniqueLinesFrom rest (uniqueLines ++ [line])
      else uniqueLinesFrom rest uniqueLines
  end.

Definition vttToPlainText (vttContent : jsstring) : jsstring :=
  JS.join [LF] (uniqueLinesFrom (VideoService.textLinesOf vttContent) []).

End VideoServiceV1.

(** ** [wolService.ts] *)

Module WOLService.

Definition MAX_RETRIES : nat := 3.

(** [fetchWithRetry(url, retries = this.MAX_RETRIES)] *)
Definition fetchWithRetry (net : Network) (url : jsstring) (retries : nat)
  : list Event * Outcome Response :=
  retryLoop net url retries 0 retries.

Section WithPlatform.
Context `{Platform} `{WolLanguages} `{Scraping}.

Definition isKeyPublication (r : SearchResult) : bool :=
  match sr_resultType r with Some key_publication => true | _ => false end.

Definition isDocumentResult (r : SearchResult) : bool :=
  match sr_resultType r with Some document_result => true | _ => false end.

(** [xs.slice(0, limit)] *)
Definition slice0 {A} (xs : list A) (limit : Z) : list A :=
  if (limit <? 0)%Z then take (length xs - Z.to_nat (- limit)) xs
  else take (Z.to_nat limit) xs.

Definition search (net : Network) (query : jsstring) (options : SearchOptions)
  : Outcome SearchResponse :=
  tryCatch
    (if negb (SearchOperatorParser.validateOperators query)
        && bool_decide (useOperators options = Some true)
     then Throws (createWOLError INVALID_QUERY
                    "Invalid characters or operators in query")
     else
       let searchUrl := URLBuilder.buildSearchURL query options in
       response ← (fetchWithRetry net searchUrl MAX_RETRIES).2;
       html ← text response;
       if (status response =? 404)%Z then
         Returns
           {| results := [];
              pagination :=
                {| totalResults := 0; pageSize := 40; totalPages := 1;
                   currentPage := Some (default 1%Z (page options)) |} |}
       else if (status response =? 502)%Z || (status response =? 503)%Z then
         Throws (createWOLError SERVICE_UNAVAILABLE
                   "WOL service temporarily unavailable")
       else
         let parsed := ContentParser.parseSearchResults html in
         let keyPublications := List.filter isKeyPublication (results parsed) in
         let documentResults := List.filter isDocumentResult (results parsed) in
         let limitedDocuments :=
           match limit options with
           | Some l => if (l =? 0)%Z then documentResults
                       else slice0 documentResults l
           | None => documentResults
           end in
         Returns {| results := keyPublications ++ limitedDocuments;
                    pagination := pagination parsed |})
    (rethrowOrWrap "Search failed: ").

Definition withUrl (d : Document) (url : jsstring) : Document :=
  {| doc_id := doc_id d; doc_title := doc_title d; doc_content := doc_content d;
     doc_publication := doc_publication d; doc_url := url;
     doc_language := doc_language d |}.

Definition withContent (d : Document) (content : jsstring) : Document :=
  {| doc_id := doc_id d; doc_title := doc_title d; doc_content := content;
     doc_publication := doc_publication d; doc_url := doc_url d;
     doc_language := doc_language d |}.

Definition getDocumentByUrl (net : Network) (url : jsstring) (format : jsstring)
  : Outcome Document :=
  tryCatch
    (documentUrl ← URLBuilder.validateAndNormalizeDocumentURL url;
     response ← (fetchWithRetry net documentUrl MAX_RETRIES).2;
     if (status response =? 404)%Z then
       Throws (createWOLError NOT_FOUND "Document not found")
     else if (status response =? 502)%Z || (status response =? 503)%Z then
       Throws (createWOLError SERVICE_UNAVAILABLE
                 "WOL service temporarily unavailable")
     else
       html ← text response;
       document ← parseDocument html documentUrl;
       let document := withUrl document documentUrl in
       Returns (withContent document (formatContent format (doc_content document))))
    (rethrowOrWrap "Document retrieval failed: ").

End WithPlatform.
(** [<[^>]*>] at the start of [s]: the length of the match.  The run of
    characters other than [>] is the greedy one, and what follows it, when
    there is something, is the closing [>]. *)
Definition matchTag (s : jsstring) : option nat :=
  match s with
  | "<"%char :: rest =>
      let run := JS.takeWhile (VideoService.isNot ">") rest in
      match drop (length run) rest with
      | _ :: _ => Some (S (S (length run)))
      | [] => None
      end
  | _ => None
  end.

(** The tags removed, six entities replaced, each run of white space made
    one space, then [trim]. *)
Definition convertToPlainText (html : jsstring) : jsstring :=
  JS.trim
    (JS.collapseWhiteSpace
       (JS.replaceAll "&#39;" "'"
          (JS.replaceAll "&quot;" ["034"%char]
             (JS.replaceAll "&gt;" ">"
                (JS.replaceAll "&lt;" "<"
                   (JS.replaceAll "&amp;" "&"
                      (JS.replaceAll "&nbsp;" " "
                         (JS.removeAll matchTag html)))))))).

End WOLService.

(** ** A reference platform

    An executable URL parser and [URLSearchParams] for the inputs of the
    examples: absolute [http] and [https] URLs with a plain host and no
    credentials, whose path needs no normalisation.  Anything else is
    refused.  Names and values are percent-decoded byte by byte. *)

Module Reference.

Record url := {
  scheme : jsstring;
  host : jsstring;
  port : jsstring;
  path : jsstring;
  query : option jsstring;
  fragment : option jsstring
}.

Definition hexDigit (n : N) : ascii :=
  ascii_of_N (if (n <? 10)%N then 48 + n else 55 + n).

Definition percentEncode (c : ascii) : jsstring :=
  ["%"%char; hexDigit (JS.code c / 16); hexDigit (JS.code c mod 16)].

Definition hexValue (c : ascii) : option N :=
  if JS.isDigit c then Some (JS.code c - 48)%N
  else if JS.inRange 65 70 c then Some (JS.code c - 55)%N
  else if JS.inRange 97 102 c then Some (JS.code c - 87)%N
  else None.

Fixpoint percentDecode (s : jsstring) : jsstring :=
  match s with
  | [] => []
  | c :: r =>
      if Ascii.eqb c "%" then
        match r with
        | a :: b :: r' =>
            match hexValue a, hexValue b with
            | Some x, Some y => ascii_of_N (16 * x + y) :: percentDecode r'
            | _, _ => c :: percentDecode r
            end
        | _ => c :: percentDecode r
        end
      else c :: percentDecode r
  end.

(** The serialiser of [application/x-www-form-urlencoded]. *)
Definition isFormSafe (c : ascii) : bool :=
  JS.isAlnum c || existsb (Ascii.eqb c) ("*-._" : jsstring).

Definition encodeChar (c : ascii) : jsstring :=
  if Ascii.eqb c " " then ["+"%char]
  else if isFormSafe c then [c]
  else percentEncode c.

Definition encodeComponent (s : jsstring) : jsstring := flat_map encodeChar s.

Definition pairText (kv : jsstring * jsstring) : jsstring :=
  encodeComponent kv.1 ++ "="%char :: encodeComponent kv.2.

Definition serialize (ps : params) : jsstring :=
  JS.join ["&"%char] (map pairText ps).

(** Its parser. *)
Definition plusToSpace (c : ascii) : ascii :=
  if Ascii.eqb c "+" then " "%char else c.

Definition decodeComponent (s : jsstring) : jsstring :=
  percentDecode (map plusToSpace s).

Definition parsePair (seq : jsstring) : jsstring * jsstring :=
  let name := JS.takeWhile (VideoService.isNot "=") seq in
  (decodeComponent name, decodeComponent (drop (S (length name)) seq)).

Definition parse (q : jsstring) : params :=
  map parsePair (List.filter JS.truthy (JS.split (Ascii.eqb "&") q)).

(** The query state of the URL parser: tabs and newlines go, and the code
    points of the query percent-encode set of a special scheme are
    escaped. *)
Definition isTabOrNewline (c : ascii) : bool :=
  (JS.code c =? 9)%N || (JS.code c =? 10)%N || (JS.code c =? 13)%N.

Definition inQueryEncodeSet (c : ascii) : bool :=
  (JS.code c <=? 32)%N || (127 <=? JS.code c)%N
  || existsb (fun n => (JS.code c =? n)%N) [34; 35; 39; 60; 62]%N.

Definition queryEncode (s : jsstring) : jsstring :=
  flat_map (fun c => if inQueryEncodeSet c then percentEncode c else [c])
    (List.filter (fun c => negb (isTabOrNewline c)) s).

Definition isControlOrSpace (c : ascii) : bool := (JS.code c <=? 32)%N.

Definition isHostChar (c : ascii) : bool :=
  JS.isAlnum c || Ascii.eqb c "-" || Ascii.eqb c ".".

Definition isPathChar (c : ascii) : bool :=
  JS.isAlnum c || existsb (Ascii.eqb c) ("/-._~%!$&'()*+,;=:@" : jsstring).

Definition isDotSegment (seg : jsstring) : bool :=
  bool_decide (seg = ("." : jsstring)) || bool_decide (seg = (".." : jsstring)).

Definition isDelimiter (c : ascii) : bool :=
  Ascii.eqb c "?" || Ascii.eqb c "#".

Definition newURL (input : jsstring) : option url :=
  let s := List.filter (fun c => negb (isTabOrNewline c))
             (rev (JS.dropWhile isControlOrSpace
                     (rev (JS.dropWhile isControlOrSpace input)))) in
  let sch := JS.foldCase (JS.takeWhile (VideoService.isNot ":") s) in
  let afterScheme := drop (length sch) s in
  if negb (bool_decide (sch = ("http" : jsstring))
           || bool_decide (sch = ("https" : jsstring)))
  then None
  else if negb (JS.startsWith "://" afterScheme) then None
  else
    let r := drop 3 afterScheme in
    let h := JS.takeWhile isHostChar r in
    let r1 := drop (length h) r in
    let '(p, r2) :=
      match r1 with
      | ":"%char :: r' =>
          let p := JS.takeWhile JS.isDigit r' in (p, drop (length p) r')
      | _ => ([], r1)
      end in
    let pth := JS.takeWhile (fun c => negb (isDelimiter c)) r2 in
    let r3 := drop (length pth) r2 in
    let '(q, r4) :=
      match r3 with
      | "?"%char :: r' =>
          let q := JS.takeWhile (VideoService.isNot "#") r' in
          (Some (queryEncode q), drop (length q) r')
      | _ => (None, r3)
      end in
    let f := match r4 with
             | "#"%char :: r' => Some r'
             | _ => None
             end in
    if negb (JS.truthy h) then None
    else if JS.truthy pth
            && negb (JS.startsWith "/" pth && forallb isPathChar pth
                     && negb (existsb isDotSegment (JS.split (Ascii.eqb "/") pth)))
    then None
    else
      let defaultPort : jsstring :=
        if bool_decide (sch = ("http" : jsstring)) then "80" else "443" in
      Some {| scheme := sch;
              host := JS.foldCase h;
              port := if bool_decide (p = defaultPort) then [] else p;
              path := if JS.truthy pth then pth else "/";
              query := q;
              fragment := f |}.

Definition searchParams (u : url) : params :=
  match query u with
  | Some q => parse q
  | None => []
  end.

Definition setSearch (u : url) (value : jsstring) : url :=
  {| scheme := scheme u; host := host u; port := port u; path := path u;
     query := match value with
              | [] => None
              | "?"%char :: input => Some (queryEncode input)
              | input => Some (queryEncode input)
              end;
     fragment := fragment u |}.

Definition toString (u : url) : jsstring :=
  scheme u ++ "://" ++ host u
  ++ (if JS.truthy (port u) then ":"%char :: port u else [])
  ++ path u
  ++ match query u with Some q => "?"%char :: q | None => [] end
  ++ match fragment u with Some f => "#"%char :: f | None => [] end.

End Reference.

(** * Properties *)

(** ** Outcomes *)

Lemma bind_Returns {A B} (m : Outcome A) (k : A -> Outcome B) (b : B) :
  m ≫= k = Returns b -> exists a, m = Returns a /\ k a = Returns b.
Proof. destruct m as [a|e]; [eauto|done]. Qed.

Lemma tryCatch_Returns {A} (body : Outcome A) (prefix : jsstring) (a : A) :
  tryCatch body (rethrowOrWrap prefix) = Returns a -> body = Returns a.
Proof.
  destruct body as [a'|e]; simpl; [done|].
  unfold rethrowOrWrap. by destruct (code e).
Qed.

(** ** The string primitives on small inputs *)

Example trim_example : JS.trim "  a b  " = ("a b" : jsstring).
Proof. reflexivity. Qed.

Example split_example :
  JS.split (Ascii.eqb ":") "00:01:02.5"
  = [("00" : jsstring); ("01" : jsstring); ("02.5" : jsstring)].
Proof. reflexivity. Qed.

Example split_empty : JS.split (Ascii.eqb ":") [] = [[]].
Proof. reflexivity. Qed.

Example remove_tags :
  JS.removeAll (JS.matchRun "<" (VideoService.isNot ">") (Some ">"%char))
    "a<b>c<>d<e" = ("ac<>d<e" : jsstring).
Proof. reflexivity. Qed.

Example intToString_example : JS.intToString 1205 = ("1205" : jsstring).
Proof. reflexivity. Qed.

Example replace_first :
  replace "{lang}" "pt" SEARCH = ("https://wol.jw.org/pt/wol/s/{rev}/lp-{lp}" : jsstring).
Proof. reflexivity. Qed.

Example parseFloat_examples :
  Num.parseFloat "15.000" = 15%float /\ Num.parseFloat ".5" = 0.5%float
  /\ Num.parseFloat "2.25.3" = 2.25%float /\ Num.parseInt "007" = 7%float.
Proof. repeat split; reflexivity. Qed.

(** ** Lemmas on strings and lists *)

Ltac ascii_cases c := destruct c as [[] [] [] [] [] [] [] []].

Lemma digit_is_plain c :
  JS.isDigit c = true ->
  JS.isWhiteSpace c = false /\ Ascii.eqb c "-" = false /\ Ascii.eqb c "+" = false
  /\ Ascii.eqb c "." = false /\ Ascii.eqb c "," = false
  /\ (0 <= JS.digitValue c <= 9)%Z.
Proof.
  ascii_cases c; intros Hd; vm_compute in Hd; try discriminate Hd;
    vm_compute; repeat split; congruence.
Qed.

Lemma dropWhile_head p s c r : JS.dropWhile p s = c :: r -> p c = false.
Proof.
  induction s as [|a s IH]; simpl; [done|].
  destruct (p a) eqn:Hp; [done|]. intros [= <- _]. done.
Qed.

Lemma takeWhile_Forall p s : Forall (fun c => p c = true) (JS.takeWhile p s).
Proof.
  induction s as [|a s IH]; simpl; [constructor|].
  destruct (p a) eqn:Hp; constructor; done.
Qed.

Lemma digitsValue_nonneg ds :
  Forall (fun c => JS.isDigit c = true) ds -> (0 <= JS.digitsValue ds)%Z.
Proof.
  unfold JS.digitsValue.
  assert (forall acc, (0 <= acc)%Z ->
            Forall (fun c => JS.isDigit c = true) ds ->
            (0 <= fold_left (fun a c => 10 * a + JS.digitValue c) ds acc)%Z) as Hgen.
  { induction ds as [|d ds IH]; simpl; intros acc Hacc Hds; [done|].
    inversion Hds as [|? ? Hd Hrest]; subst.
    apply IH; [|done]. pose proof (digit_is_plain d Hd). lia. }
  apply Hgen. lia.
Qed.

Lemma startsWith_spec p s :
  JS.startsWith p s = true <-> exists r, s = p ++ r.
Proof.
  revert s. induction p as [|a p IH]; intros s; simpl.
  - split; eauto.
  - destruct s as [|b s]; [split; [done|intros [r Hr]; done]|].
    rewrite andb_true_iff, Ascii.eqb_eq, IH. split.
    + intros [-> [r ->]]. eauto.
    + intros [r [= -> ->]]. eauto.
Qed.

Lemma endsWith_spec p s :
  JS.endsWith p s = true <-> exists pre, s = pre ++ p.
Proof.
  unfold JS.endsWith. rewrite startsWith_spec. split.
  - intros [r Hr]. exists (rev r).
    rewrite <- (rev_involutive s), Hr, rev_app_distr, rev_involutive. done.
  - intros [pre ->]. exists (rev pre). by rewrite rev_app_distr.
Qed.

Lemma includes_spec needle s :
  JS.includes needle s = true <-> exists pre post, s = pre ++ needle ++ post.
Proof.
  induction s as [|a s IH].
  - simpl. rewrite orb_false_r, startsWith_spec. split.
    + intros [r Hr]. exists [], r. done.
    + intros (pre & post & Hs). symmetry in Hs.
      apply app_eq_nil in Hs as [-> Hs]. exists post. done.
  - change (JS.includes needle (a :: s))
      with (JS.startsWith needle (a :: s) || JS.includes needle s).
    rewrite orb_true_iff, startsWith_spec, IH. split.
    + intros [[r Hr]|(pre & post & ->)].
      * exists [], r. done.
      * exists (a :: pre), post. done.
    + intros (pre & post & Hs). destruct pre as [|b pre].
      * left. exists post. done.
      * right. injection Hs as -> ->. eauto.
Qed.

Lemma includes_In needle s c :
  JS.includes needle s = true -> In c needle -> In c s.
Proof.
  induction s as [|a s IH].
  - simpl. rewrite orb_false_r. intros [r Hr]%startsWith_spec Hc.
    symmetry in Hr. apply app_eq_nil in Hr as [-> _]. done.
  - change (JS.includes needle (a :: s))
      with (JS.startsWith needle (a :: s) || JS.includes needle s).
    intros [[r Hr]%startsWith_spec|Hinc]%orb_true_iff Hc.
    + rewrite Hr. apply in_app_iff. by left.
    + right. by apply IH.
Qed.

Lemma map_app_inv {A B} (f : A -> B) l k1 k2 :
  map f l = k1 ++ k2 ->
  exists l1 l2, l = l1 ++ l2 /\ map f l1 = k1 /\ map f l2 = k2.
Proof.
  revert l. induction k1 as [|b k1 IH]; intros l Hl.
  - exists [], l. done.
  - destruct l as [|a l]; [done|]. injection Hl as <- Hl.
    destruct (IH _ Hl) as (l1 & l2 & -> & <- & <-).
    exists (a :: l1), l2. done.
Qed.

Lemma takeWhile_drop p s :
  JS.takeWhile p s ++ drop (length (JS.takeWhile p s)) s = s.
Proof.
  induction s as [|c s IH]; simpl; [done|].
  destruct (p c); simpl; [by rewrite IH|done].
Qed.

Lemma takeWhile_app_stop p xs c r :
  Forall (fun x => p x = true) xs -> p c = false ->
  JS.takeWhile p (xs ++ c :: r) = xs.
Proof.
  intros Hxs Hc. induction Hxs as [|x xs Hx _ IH]; simpl.
  - by rewrite Hc.
  - by rewrite Hx, IH.
Qed.

Lemma takeWhile_forallb p xs c r :
  forallb p xs = true -> p c = false -> JS.takeWhile p (xs ++ c :: r) = xs.
Proof.
  intros Hxs Hc. apply takeWhile_app_stop; [|done].
  apply Forall_forall. intros x Hx%list_elem_of_In.
  rewrite forallb_forall in Hxs. auto.
Qed.

Lemma takeWhile_In p c s : In c (JS.takeWhile p s) -> p c = true.
Proof.
  induction s as [|a s IH]; simpl; [done|].
  destruct (p a) eqn:Hp; [|done]. intros [<-|Hc]; auto.
Qed.

Lemma forallb_weaken (p q : ascii -> bool) s :
  (forall c, p c = true -> q c = true) -> forallb p s = true -> forallb q s = true.
Proof.
  intros Hpq. rewrite !forallb_forall. auto.
Qed.

Lemma forallb_cons (p : ascii -> bool) c s :
  forallb p (c :: s) = p c && forallb p s.
Proof. reflexivity. Qed.

Lemma foldCase_length s : length (JS.foldCase s) = length s.
Proof. apply length_map. Qed.

Lemma hd_split sep s :
  hd [] (JS.split sep s) = JS.takeWhile (fun c => negb (sep c)) s.
Proof.
  induction s as [|c s IH]; simpl; [done|].
  destruct (sep c); simpl; [done|].
  destruct (JS.split sep s); simpl in *; by rewrite <- IH.
Qed.

Lemma split_cons sep s : exists part parts, JS.split sep s = part :: parts.
Proof.
  induction s as [|c s (part & parts & IH)]; simpl; [eauto|].
  destruct (sep c); [eauto|]. rewrite IH. eauto.
Qed.

Lemma split_app_part sep x s :
  forallb (fun c => negb (sep c)) x = true ->
  JS.split sep (x ++ s)
  = match JS.split sep s with
    | part :: parts => (x ++ part) :: parts
    | [] => [x]
    end.
Proof.
  induction x as [|c x IH]; simpl; intros Hx.
  - by destruct (split_cons sep s) as (part & parts & ->).
  - apply andb_true_iff in Hx as [Hc Hx]. apply negb_true_iff in Hc.
    rewrite Hc, IH by done. destruct (split_cons sep s) as (part & parts & ->).
    done.
Qed.

Lemma split_join sepChar parts :
  parts <> [] ->
  Forall (fun x => forallb (fun c => negb (Ascii.eqb sepChar c)) x = true) parts ->
  JS.split (Ascii.eqb sepChar) (JS.join [sepChar] parts) = parts.
Proof.
  intros Hne Hparts. induction Hparts as [|x parts Hx Hparts IH]; [done|].
  destruct parts as [|y parts].
  - simpl. rewrite <- (app_nil_r x) at 1. rewrite split_app_part by done.
    simpl. by rewrite app_nil_r.
  - change (JS.join [sepChar] (x :: y :: parts))
      with (x ++ sepChar :: JS.join [sepChar] (y :: parts)).
    rewrite split_app_part by done.
    specialize (IH ltac:(done)).
    set (rest := JS.join [sepChar] (y :: parts)) in *.
    simpl. rewrite Ascii.eqb_refl, IH. by rewrite app_nil_r.
Qed.

Lemma In_dropWhile p c s : In c (JS.dropWhile p s) -> In c s.
Proof.
  induction s as [|a s IH]; simpl; [done|].
  destruct (p a); [auto|done].
Qed.

Lemma In_trim c s : In c (JS.trim s) -> In c s.
Proof.
  unfold JS.trim, JS.trimEnd, JS.trimStart.
  intros Hc%in_rev%In_dropWhile%in_rev%In_dropWhile. done.
Qed.

Lemma dropWhile_app_stop p a c b :
  p c = false -> JS.dropWhile p (a ++ c :: b) = JS.dropWhile p a ++ c :: b.
Proof.
  intros Hc. induction a as [|x a IH]; simpl; [by rewrite Hc|].
  by destruct (p x).
Qed.

Lemma dropWhile_suffix p s : exists w, s = w ++ JS.dropWhile p s.
Proof.
  induction s as [|c s [w IH]]; simpl; [by exists []|].
  destruct (p c); [|by exists []]. exists (c :: w). simpl. by rewrite <- IH.
Qed.

Lemma trim_infix s : exists w1 w2, s = w1 ++ JS.trim s ++ w2.
Proof.
  unfold JS.trim, JS.trimEnd, JS.trimStart.
  destruct (dropWhile_suffix JS.isWhiteSpace s) as [w1 H1].
  destruct (dropWhile_suffix JS.isWhiteSpace (rev (JS.dropWhile JS.isWhiteSpace s)))
    as [w2 H2].
  exists w1, (rev w2). rewrite H1 at 1. f_equal.
  rewrite <- (rev_involutive (JS.dropWhile JS.isWhiteSpace s)) at 1.
  rewrite H2 at 1. by rewrite rev_app_distr.
Qed.


(** ** The reference platform satisfies the laws *)

Definition isQuerySafe (c : ascii) : bool :=
  negb (Reference.isTabOrNewline c) && negb (Reference.inQueryEncodeSet c).

Definition isEncoded (c : ascii) : bool :=
  isQuerySafe c && negb (Ascii.eqb "&" c) && VideoService.isNot "=" c.

Lemma encodeChar_encoded c : forallb isEncoded (Reference.encodeChar c) = true.
Proof. ascii_cases c; vm_compute; reflexivity. Qed.

Lemma decode_encodeChar c r :
  Reference.percentDecode (map Reference.plusToSpace (Reference.encodeChar c) ++ r)
  = c :: Reference.percentDecode r.
Proof. ascii_cases c; reflexivity. Qed.

Lemma encodeComponent_encoded s :
  forallb isEncoded (Reference.encodeComponent s) = true.
Proof.
  induction s as [|c s IH]; simpl; [done|].
  by rewrite forallb_app, encodeChar_encoded, IH.
Qed.

Lemma decode_encodeComponent s :
  Reference.decodeComponent (Reference.encodeComponent s) = s.
Proof.
  unfold Reference.decodeComponent.
  induction s as [|c s IH]; simpl; [done|].
  by rewrite map_app, decode_encodeChar, IH.
Qed.

Lemma parsePair_pairText kv : Reference.parsePair (Reference.pairText kv) = kv.
Proof.
  destruct kv as [k v]. unfold Reference.parsePair, Reference.pairText. simpl.
  rewrite takeWhile_forallb; [|
    apply (forallb_weaken isEncoded); [|apply encodeComponent_encoded];
    by intros c [_ ?]%andb_true_iff | done].
  replace (S (length (Reference.encodeComponent k)))
    with (length (Reference.encodeComponent k ++ ["="%char]))
    by (rewrite length_app; simpl; lia).
  replace (Reference.encodeComponent k ++ "="%char :: Reference.encodeComponent v)
    with ((Reference.encodeComponent k ++ ["="%char]) ++ Reference.encodeComponent v)
    by (by rewrite <- app_assoc).
  rewrite drop_app_length. by rewrite !decode_encodeComponent.
Qed.

Lemma encoded_querySafe c : isEncoded c = true -> isQuerySafe c = true.
Proof. by intros [[? _]%andb_true_iff _]%andb_true_iff. Qed.

Lemma encoded_not_amp c : isEncoded c = true -> negb (Ascii.eqb "&" c) = true.
Proof. by intros [[_ ?]%andb_true_iff _]%andb_true_iff. Qed.

Lemma pairText_encoded kv :
  forallb isQuerySafe (Reference.pairText kv) = true
  /\ forallb (fun c => negb (Ascii.eqb "&" c)) (Reference.pairText kv) = true
  /\ JS.truthy (Reference.pairText kv) = true.
Proof.
  unfold Reference.pairText. rewrite !forallb_app, !forallb_cons.
  pose proof (encodeComponent_encoded kv.1) as H1.
  pose proof (encodeComponent_encoded kv.2) as H2.
  split; [|split].
  - by rewrite (forallb_weaken _ _ _ encoded_querySafe H1),
      (forallb_weaken _ _ _ encoded_querySafe H2).
  - by rewrite (forallb_weaken _ _ _ encoded_not_amp H1),
      (forallb_weaken _ _ _ encoded_not_amp H2).
  - by destruct (Reference.encodeComponent kv.1).
Qed.

Lemma parse_serialize ps : Reference.parse (Reference.serialize ps) = ps.
Proof.
  unfold Reference.parse, Reference.serialize.
  destruct ps as [|kv ps]; [done|].
  rewrite split_join; [| done |].
  - assert (forall qs, List.filter JS.truthy (map Reference.pairText qs)
                       = map Reference.pairText qs) as ->.
    { induction qs as [|q qs IH]; simpl; [done|].
      destruct (pairText_encoded q) as (_ & _ & ->). by rewrite IH. }
    rewrite map_map. rewrite <- (map_id (kv :: ps)) at 2.
    apply map_ext. intros a. apply parsePair_pairText.
  - apply Forall_forall. intros x (q & -> & _)%list_elem_of_fmap.
    apply pairText_encoded.
Qed.

Lemma serialize_nil ps : Reference.serialize ps = [] <-> ps = [].
Proof.
  split; [|by intros ->]. destruct ps as [|kv ps]; [done|].
  unfold Reference.serialize. simpl map.
  destruct (pairText_encoded kv) as (_ & _ & Hkv).
  destruct (Reference.pairText kv) as [|c t] eqn:E; [done|].
  destruct (map Reference.pairText ps); simpl; done.
Qed.

Lemma serialize_querySafe ps :
  forallb isQuerySafe (Reference.serialize ps) = true.
Proof.
  unfold Reference.serialize. induction ps as [|kv ps IH]; [done|].
  destruct (pairText_encoded kv) as (Hkv & _ & _).
  simpl map. destruct (map Reference.pairText ps) as [|y ys] eqn:E.
  - done.
  - change (JS.join ["&"%char] (Reference.pairText kv :: y :: ys))
      with (Reference.pairText kv ++ "&"%char :: JS.join ["&"%char] (y :: ys)).
    rewrite forallb_app, Hkv. simpl. exact IH.
Qed.

Lemma queryEncode_safe s :
  forallb isQuerySafe s = true -> Reference.queryEncode s = s.
Proof.
  unfold Reference.queryEncode, isQuerySafe.
  induction s as [|c s IH]; simpl; [done|].
  intros [[Htab Hset]%andb_true_iff Hs]%andb_true_iff.
  rewrite Htab. simpl. apply negb_true_iff in Hset. rewrite Hset. simpl.
  by rewrite IH.
Qed.

Definition referencePlatform : Platform.
Proof.
  refine {| URL := Reference.url;
            URL_new := Reference.newURL;
            URL_hostname := Reference.host;
            URL_pathname := Reference.path;
            URL_searchParams := Reference.searchParams;
            URL_setSearch := Reference.setSearch;
            URL_toString := Reference.toString;
            URLSearchParams_toString := Reference.serialize |}.
  - exact serialize_nil.
  - intros u ps _. unfold Reference.searchParams. simpl.
    rewrite queryEncode_safe by apply serialize_querySafe.
    apply parse_serialize.
  - reflexivity.
  - reflexivity.
  - reflexivity.
Defined.

(** ** Sample upstreams, tables and pages *)

(** A table with one entry, for Portuguese. *)
Definition sampleLanguages : WolLanguages :=
  Some {[ ("pt" : jsstring) := {| lp := Some ("t" : jsstring);
                                  rsconf := Some ("r5" : jsstring) |} ]}.

(** A network whose first two attempts fail and whose third answers 503. *)
Definition fetchFailed : JSError := mkError "TypeError" "fetch failed" None.

Definition unavailable : Response :=
  {| status := 503; text := Returns []; json := Throws fetchFailed |}.

Definition flakyNetwork : Network :=
  fun _ i => if i <? 2 then Rejects fetchFailed else Responds unavailable.

(** A page scraper that finds nothing, for the examples. *)
Definition noScraping : Scraping :=
  {| scrapeResults := fun _ => [];
     resultsCountText := fun _ => [];
     selectedPageText := fun _ => [];
     parseDocument := fun _ _ => Throws (newError "Failed to parse document: no content");
     formatContent := fun _ content => content |}.

Definition somePage : SearchOptions :=
  {| useOperators := Some true; scope := None; publications := None;
     language := Some ("pt" : jsstring); limit := Some 10%Z; sort := None;
     page := Some 3%Z |}.

Definition noOptions : SearchOptions :=
  {| useOperators := None; scope := None; publications := None;
     language := None; limit := None; sort := None; page := None |}.

Definition notFound : Response :=
  {| status := 404; text := Returns ("Not found" : jsstring);
     json := Throws fetchFailed |}.

Definition notFoundNetwork : Network := fun _ _ => Responds notFound.

(** ** Search on a 404 *)

(** The invocation gets as far as the upstream: the operator check does not
    reject the query. *)
Definition reachesUpstream (query : jsstring) (options : SearchOptions) : bool :=
  negb (negb (SearchOperatorParser.validateOperators query)
        && bool_decide (useOperators options = Some true)).

Definition emptyPage (options : SearchOptions) : SearchResponse :=
  {| results := [];
     pagination := {| totalResults := 0; pageSize := 40; totalPages := 1;
                      currentPage := Some (default 1%Z (page options)) |} |}.

(** C1, amended.  When a search reaches the upstream, the response
    [fetchWithRetry] returns has status 404 and its body is read without
    error, [search] returns, without throwing, no results and the
    pagination [{totalResults: 0, pageSize: 40, totalPages: 1,
    currentPage: the requested page, 1 when none was given}]. *)
Theorem search_404_empty `{Platform} `{WolLanguages} `{Scraping}
    (net : Network) (query : jsstring) (options : SearchOptions)
    (response : Response) (html : jsstring) :
  reachesUpstream query options = true ->
  (WOLService.fetchWithRetry net (URLBuilder.buildSearchURL query options)
     WOLService.MAX_RETRIES).2 = Returns response ->
  status response = 404%Z ->
  text response = Returns html ->
  WOLService.search net query options = Returns (emptyPage options).
Proof.
  unfold reachesUpstream, WOLService.search. intros Hreach Hfetch Hstatus Htext.
  apply negb_true_iff in Hreach. rewrite Hreach, Hfetch. simpl.
  rewrite Htext. simpl. by rewrite Hstatus.
Qed.

Example buildSearchURL_example :
  @URLBuilder.buildSearchURL referencePlatform sampleLanguages "prayer" somePage
  = ("https://wol.jw.org/pt/wol/s/r5/lp-t?q=prayer&p=par&r=occ&st=a&pg=3" : jsstring).
Proof. vm_compute. reflexivity. Qed.

Lemma search_404_empty_witness :
  @WOLService.search referencePlatform sampleLanguages noScraping
    notFoundNetwork "prayer" somePage
  = Returns {| results := [];
               pagination := {| totalResults := 0; pageSize := 40;
                                totalPages := 1; currentPage := Some 3%Z |} |}.
Proof.
  exact (@search_404_empty referencePlatform sampleLanguages noScraping
           notFoundNetwork "prayer" somePage notFound "Not found"
           eq_refl eq_refl eq_refl eq_refl).
Defined.

(** A 404 whose body cannot be read: the connection drops after the status
    line. *)
Definition bodyLost : JSError := mkError "TypeError" "terminated" None.

Definition notFoundNoBody : Response :=
  {| status := 404; text := Throws bodyLost; json := Throws bodyLost |}.

Definition droppingNetwork : Network := fun _ _ => Responds notFoundNoBody.

(** C1 as stated fails: [search] awaits the body before it looks at the
    status, so a 404 whose body cannot be read makes it throw. *)
Lemma search_404_unreadable_body_counterexample :
  reachesUpstream "prayer" somePage = true
  /\ (WOLService.fetchWithRetry droppingNetwork
        (@URLBuilder.buildSearchURL referencePlatform sampleLanguages "prayer" somePage)
        WOLService.MAX_RETRIES).2 = Returns notFoundNoBody
  /\ status notFoundNoBody = 404%Z
  /\ @WOLService.search referencePlatform sampleLanguages noScraping
       droppingNetwork "prayer" somePage
     = Throws (createWOLError NETWORK_ERROR "Search failed: TypeError: terminated").
Proof. repeat split; vm_compute; reflexivity. Qed.

(** ** Resilient fetch *)

Section Retry.
Variables (net : Network) (url : jsstring).

(** The events of attempt [j] when it rejects and is not the last one. *)
Definition failedAttempt (j : nat) : list Event :=
  match net url j with
  | Rejects e => [EvFetch url j; EvWarn (j + 1) e; EvSleep (2 ^ Z.of_nat j * 1000)]
  | Responds _ => []
  end.

(** The events of the attempts [i], ..., [i + n - 1], all rejected. *)
Definition failedAttempts (i n : nat) : list Event :=
  flat_map failedAttempt (seq i n).

Definition rejectsFrom (i k : nat) : Prop :=
  forall j, i <= j < k -> exists e, net url j = Rejects e.

Lemma retryLoop_attempts retries todo i :
  attemptsOf (retryLoop net url retries i todo).1 <= todo.
Proof.
  unfold attemptsOf. revert i.
  induction todo as [|todo IH]; intros i; simpl; [lia|].
  destruct (net url i) as [r|e]; simpl; [lia|].
  destruct (Nat.eqb i (retries - 1)); simpl; [lia|].
  specialize (IH (S i)).
  destruct (retryLoop net url retries (S i) todo) as [evs out]. simpl in *. lia.
Qed.

Lemma retryLoop_responds retries todo i k r :
  i + todo = retries -> i <= k < retries ->
  rejectsFrom i k -> net url k = Responds r ->
  retryLoop net url retries i todo
  = (failedAttempts i (k - i) ++ [EvFetch url k], Returns r).
Proof.
  revert i. induction todo as [|todo IH]; intros i Hsum Hk Hrej Hk_resp; [lia|].
  simpl. destruct (decide (i = k)) as [->|Hne].
  - rewrite Hk_resp. replace (k - k) with 0 by lia. reflexivity.
  - destruct (Hrej i) as [e He]; [lia|]. rewrite He.
    destruct (Nat.eqb_spec i (retries - 1)) as [Heq|_]; [lia|].
    rewrite (IH (S i)); [|lia|lia| |done].
    + replace (k - i) with (S (k - S i)) by lia.
      unfold failedAttempts. simpl. unfold failedAttempt at 2. rewrite He.
      reflexivity.
    + intros j Hj. apply Hrej. lia.
Qed.

Lemma retryLoop_exhausted retries todo i e :
  i + todo = retries -> i < retries ->
  rejectsFrom i (retries - 1) -> net url (retries - 1) = Rejects e ->
  retryLoop net url retries i todo
  = (failedAttempts i (retries - 1 - i)
       ++ [EvFetch url (retries - 1); EvWarn retries e], Throws e).
Proof.
  revert i. induction todo as [|todo IH]; intros i Hsum Hi Hrej Hlast; [lia|].
  simpl. destruct (Nat.eqb_spec i (retries - 1)) as [Heq|Hne].
  - rewrite <- Heq in Hlast |- *. rewrite Hlast.
    replace (i - i) with 0 by lia. replace (i + 1) with retries by lia.
    reflexivity.
  - destruct (Hrej i) as [e' He']; [lia|]. rewrite He'.
    rewrite (IH (S i)); [|lia|lia| |done].
    + replace (retries - 1 - i) with (S (retries - 1 - S i)) by lia.
      unfold failedAttempts. simpl. unfold failedAttempt at 2. rewrite He'.
      reflexivity.
    + intros j Hj. apply Hrej. lia.
Qed.

End Retry.

(** C2.  Whatever the upstream does at each attempt, [fetchWithRetry] (the
    same loop in both services, with [retries = MAX_RETRIES = 3]) calls
    [fetch] at most three times.  The first attempt that resolves to a
    response, of any status, ends the loop with that response and nothing
    is fetched after it.  Every rejected attempt [j] before the last is
    followed by a warning and a pause of [2^j * 1000] milliseconds, then by
    attempt [j + 1].  When the three attempts reject, the error of the
    third is thrown as it is, with no pause after it. *)
Theorem fetchWithRetry_bounded_backoff (net : Network) (url : jsstring) :
  VideoService.fetchWithRetry net url
  = WOLService.fetchWithRetry net url WOLService.MAX_RETRIES
  /\ attemptsOf (WOLService.fetchWithRetry net url WOLService.MAX_RETRIES).1 <= 3
  /\ (forall k r,
        k < 3 -> rejectsFrom net url 0 k -> net url k = Responds r ->
        WOLService.fetchWithRetry net url WOLService.MAX_RETRIES
        = (failedAttempts net url 0 k ++ [EvFetch url k], Returns r))
  /\ (forall e0 e1 e2,
        net url 0 = Rejects e0 -> net url 1 = Rejects e1 ->
        net url 2 = Rejects e2 ->
        WOLService.fetchWithRetry net url WOLService.MAX_RETRIES
        = ([EvFetch url 0; EvWarn 1 e0; EvSleep 1000;
            EvFetch url 1; EvWarn 2 e1; EvSleep 2000;
            EvFetch url 2; EvWarn 3 e2], Throws e2)).
Proof.
  split; [reflexivity|]. split; [apply retryLoop_attempts|]. split.
  - intros k r Hk Hrej Hresp. unfold WOLService.fetchWithRetry.
    rewrite (retryLoop_responds net url _ _ 0 k r); try done.
    + by rewrite Nat.sub_0_r.
    + unfold WOLService.MAX_RETRIES. lia.
  - intros e0 e1 e2 H0 H1 H2. unfold WOLService.fetchWithRetry.
    rewrite (retryLoop_exhausted net url _ _ 0 e2); try done.
    + unfold failedAttempts, failedAttempt. simpl. rewrite H0, H1. reflexivity.
    + unfold WOLService.MAX_RETRIES. lia.
    + intros j Hj. unfold WOLService.MAX_RETRIES in Hj.
      assert (j = 0 \/ j = 1) as [-> | ->] by lia; eauto.
Qed.

Lemma fetchWithRetry_bounded_backoff_witness :
  WOLService.fetchWithRetry flakyNetwork "https://wol.jw.org/" WOLService.MAX_RETRIES
  = ([EvFetch "https://wol.jw.org/" 0; EvWarn 1 fetchFailed; EvSleep 1000;
      EvFetch "https://wol.jw.org/" 1; EvWarn 2 fetchFailed; EvSleep 2000;
      EvFetch "https://wol.jw.org/" 2], Returns unavailable).
Proof.
  refine (proj1 (proj2 (proj2
    (fetchWithRetry_bounded_backoff flakyNetwork "https://wol.jw.org/")))
    2 unavailable _ _ _).
  - lia.
  - intros j Hj. exists fetchFailed.
    assert (j = 0 \/ j = 1) as [-> | ->] by lia; reflexivity.
  - reflexivity.
Defined.

(** ** Invalid document URLs *)

(** The input is not a URL, or its host is not a library host, or its path
    is not a document path. *)
Definition rejectedInput `{Platform} (urlString : jsstring) : Prop :=
  match URL_new urlString with
  | None => True
  | Some parsed =>
      URLBuilder.isWolHost (URL_hostname parsed) = false
      \/ URLBuilder.isDocumentPath (URL_pathname parsed) = false
  end.

(** C3 on the code.  For an input that is rejected,
    [validateAndNormalizeDocumentURL] throws a plain [Error], without a
    code, and [getDocumentByUrl] wraps it: what the caller sees is
    [NETWORK_ERROR], never [INVALID_QUERY]. *)
Theorem invalid_document_url_error `{Platform} `{Scraping}
    (net : Network) (urlString format : jsstring) :
  rejectedInput urlString ->
  exists e,
    URLBuilder.validateAndNormalizeDocumentURL urlString = Throws e
    /\ code e = None
    /\ WOLService.getDocumentByUrl net urlString format
       = Throws (createWOLError NETWORK_ERROR
                   ("Document retrieval failed: " ++ errorToString e)).
Proof.
  unfold rejectedInput, WOLService.getDocumentByUrl,
    URLBuilder.validateAndNormalizeDocumentURL.
  destruct (URL_new urlString) as [parsed|].
  - intros [Hhost|Hpath].
    + rewrite Hhost. eexists. by repeat split.
    + destruct (URLBuilder.isWolHost _); rewrite ?Hpath; eexists; by repeat split.
  - intros _. eexists. by repeat split.
Qed.

Lemma invalid_document_url_error_witness :
  exists e,
    @URLBuilder.validateAndNormalizeDocumentURL referencePlatform "not a url"
    = Throws e
    /\ code e = None
    /\ @WOLService.getDocumentByUrl referencePlatform noScraping
         notFoundNetwork "not a url" "markdown"
       = Throws (createWOLError NETWORK_ERROR
                   ("Document retrieval failed: " ++ errorToString e)).
Proof.
  exact (@invalid_document_url_error referencePlatform noScraping
           notFoundNetwork "not a url" "markdown" I).
Defined.

Example getDocumentByUrl_not_a_url :
  @WOLService.getDocumentByUrl referencePlatform noScraping
    notFoundNetwork "not a url" "markdown"
  = Throws (createWOLError NETWORK_ERROR
              "Document retrieval failed: Error: Invalid URL")
  /\ @WOLService.getDocumentByUrl referencePlatform noScraping
       notFoundNetwork "https://example.com/en/wol/d/r1/lp-e/1" "markdown"
     = Throws (createWOLError NETWORK_ERROR
                 "Document retrieval failed: Error: URL must be a jw.org WOL document")
  /\ @WOLService.getDocumentByUrl referencePlatform noScraping
       notFoundNetwork "https://wol.jw.org/en/wol/s/r1/lp-e?q=x" "markdown"
     = Throws (createWOLError NETWORK_ERROR
                 "Document retrieval failed: Error: URL must point to a WOL document (contains /wol/d/)").
Proof. repeat split; vm_compute; reflexivity. Qed.

(** ** Time filtering of WebVTT *)

(** A cue: its timing line, the two times read from it, and its text
    lines. *)
Record Cue := {
  timing : jsstring;
  cueStart : float;
  cueEnd : float;
  payload : list jsstring
}.

Definition addLine (c : Cue) (line : jsstring) : Cue :=
  {| timing := timing c; cueStart := cueStart c; cueEnd := cueEnd c;
     payload := payload c ++ [line] |}.

Definition addLines (c : Cue) (lines : list jsstring) : Cue :=
  {| timing := timing c; cueStart := cueStart c; cueEnd := cueEnd c;
     payload := payload c ++ lines |}.

(** The cues of a subtitle text, read in one pass over its lines.  A line
    with an arrow whose times can be read opens a cue; the lines after it
    are its text up to the next blank line or arrow line; text outside a
    cue (the header, identifiers, notes) belongs to none. *)
Fixpoint cuesFrom (open : option Cue) (lines : list jsstring) : list Cue :=
  match lines with
  | [] => option_list open
  | line :: rest =>
      if VideoService.isArrowLine line then
        option_list open ++
        match VideoService.timestampMatch line with
        | Some (t1, t2) =>
            cuesFrom (Some {| timing := line;
                              cueStart := VideoService.parseVttTimestamp t1;
                              cueEnd := VideoService.parseVttTimestamp t2;
                              payload := [] |}) rest
        | None => cuesFrom None rest
        end
      else if JS.truthy (JS.trim line) then
        match open with
        | Some c => cuesFrom (Some (addLine c line)) rest
        | None => cuesFrom None rest
        end
      else option_list open ++ cuesFrom None rest
  end.

Definition cuesOf (vttContent : jsstring) : list Cue :=
  cuesFrom None (JS.split (Ascii.eqb LF) vttContent).

(** A cue is retained when its interval meets the window. *)
Definition retained (startTime endTime : float) (c : Cue) : bool :=
  Num.geb (cueEnd c) startTime && Num.leb (cueStart c) endTime.

(** The lines a retained cue contributes. *)
Definition render (c : Cue) : list jsstring := timing c :: payload c ++ [[]].

Lemma cueTextLines_length lines :
  length (VideoService.cueTextLines lines).2 <= length lines.
Proof.
  induction lines as [|line rest IH]; simpl; [done|].
  destruct (JS.truthy (JS.trim line) && negb (VideoService.isArrowLine line));
    [|simpl; lia].
  destruct (VideoService.cueTextLines rest) as [txt rest']. simpl in *. lia.
Qed.

Lemma cuesFrom_open c lines :
  cuesFrom (Some c) lines
  = addLines c (VideoService.cueTextLines lines).1
    :: cuesFrom None (VideoService.cueTextLines lines).2.
Proof.
  revert c. induction lines as [|line rest IH]; intros c; simpl.
  - destruct c. unfold addLines. simpl. by rewrite app_nil_r.
  - destruct (VideoService.isArrowLine line) eqn:Harrow.
    + rewrite andb_false_r. simpl. rewrite Harrow.
      destruct c. unfold addLines. simpl. by rewrite app_nil_r.
    + destruct (JS.truthy (JS.trim line)) eqn:Htext; simpl.
      * rewrite IH.
        destruct (VideoService.cueTextLines rest) as [txt rest']. simpl.
        destruct c. unfold addLines, addLine. simpl. by rewrite <- app_assoc.
      * rewrite Harrow, Htext. destruct c. unfold addLines. simpl.
        by rewrite app_nil_r.
Qed.

Lemma cuesFrom_skipHeader lines :
  cuesFrom None (VideoService.skipHeader lines) = cuesFrom None lines.
Proof.
  induction lines as [|line rest IH]; simpl; [done|].
  destruct (VideoService.isArrowLine line) eqn:Harrow.
  - simpl. by rewrite Harrow.
  - rewrite IH. by destruct (JS.truthy (JS.trim line)).
Qed.

Lemma skipHeader_length lines :
  length (VideoService.skipHeader lines) <= length lines.
Proof.
  induction lines as [|line rest IH]; simpl; [done|].
  destruct (VideoService.isArrowLine line); simpl; lia.
Qed.

(** The loop of the code emits the retained cues of the one-pass reading,
    and the fuel it is given is enough. *)
Lemma processCues_cues fuel startTime endTime lines filteredLines :
  length lines <= fuel ->
  VideoService.processCues fuel startTime endTime lines filteredLines
  = filteredLines
    ++ flat_map render (List.filter (retained startTime endTime) (cuesFrom None lines)).
Proof.
  revert lines filteredLines.
  induction fuel as [|fuel IH]; intros lines acc Hfuel.
  - destruct lines; [|simpl in Hfuel; lia]. simpl. by rewrite app_nil_r.
  - destruct lines as [|line rest]; simpl; [by rewrite app_nil_r|].
    simpl in Hfuel.
    destruct (VideoService.isArrowLine line) eqn:Harrow.
    + destruct (VideoService.timestampMatch line) as [[t1 t2]|];
        [|apply IH; lia].
      rewrite cuesFrom_open.
      pose proof (cueTextLines_length rest) as Hlen.
      destruct (VideoService.cueTextLines rest) as [txt rest']. simpl in *.
      unfold retained at 1, VideoService.overlaps. simpl.
      destruct (Num.geb _ startTime && Num.leb _ endTime).
      * rewrite IH by lia. unfold render. simpl.
        rewrite <- !app_assoc. simpl. by rewrite <- app_assoc.
      * apply IH. lia.
    + destruct (JS.truthy (JS.trim line)); apply IH; lia.
Qed.

(** The times of a cue are those read from its timing line. *)
Definition timedByItsLine (c : Cue) : Prop :=
  exists t1 t2,
    VideoService.timestampMatch (timing c) = Some (t1, t2)
    /\ cueStart c = VideoService.parseVttTimestamp t1
    /\ cueEnd c = VideoService.parseVttTimestamp t2.

Lemma cuesFrom_timed open lines c :
  (forall o, open = Some o -> timedByItsLine o) ->
  In c (cuesFrom open lines) -> timedByItsLine c.
Proof.
  revert open. induction lines as [|line rest IH]; intros open Hopen; simpl.
  - destruct open as [o|]; simpl; [|done].
    intros [Heq|[]]. subst c. exact (Hopen o eq_refl).
  - assert (In c (option_list open) -> timedByItsLine c) as Hflush.
    { destruct open as [o|]; simpl; [|done].
      intros [Heq|[]]. subst c. exact (Hopen o eq_refl). }
    destruct (VideoService.isArrowLine line).
    + rewrite in_app_iff. intros [Hc|Hc]; [by apply Hflush|].
      destruct (VideoService.timestampMatch line) as [[t1 t2]|] eqn:Hmatch.
      * refine (IH _ _ Hc). intros o Ho. injection Ho as <-.
        by exists t1, t2.
      * by apply (IH None).
    + destruct (JS.truthy (JS.trim line)).
      * destruct open as [o|]; [|by apply (IH None)].
        apply IH. intros o' Ho'. injection Ho' as <-.
        destruct (Hopen o eq_refl) as (t1 & t2 & ?). by exists t1, t2.
      * rewrite in_app_iff. intros [Hc|Hc]; [by apply Hflush|].
        by apply (IH None).
Qed.

(** One cue from second 10 to second 15, after a header and an identifier. *)
Definition sampleVtt : jsstring :=
  JS.join [LF]
    [("WEBVTT" : jsstring); [];
     ("1" : jsstring);
     ("00:00:10.000 --> 00:00:15.000 line:90%" : jsstring);
     ("Hello" : jsstring); ("world" : jsstring); [];
     ("2" : jsstring);
     ("00:20.000 --> 00:25.500" : jsstring);
     ("Bye" : jsstring)].

Definition firstCue : jsstring :=
  JS.join [LF]
    [("WEBVTT" : jsstring); [];
     ("00:00:10.000 --> 00:00:15.000 line:90%" : jsstring);
     ("Hello" : jsstring); ("world" : jsstring)].

(** C4.  For every subtitle text and every window, the text
    [filterVttByTimeRange] returns is the header followed by the cues of the
    input, in order, that satisfy [cueEnd >= startTime && cueStart <=
    endTime], and by no other cue.  The times of a cue are read from its
    timing line: hours, minutes and seconds ([HH:MM:SS.mmm]) give
    [hours * 3600 + minutes * 60 + seconds], minutes and seconds
    ([MM:SS.mmm]) give [minutes * 60 + seconds].  A cue from 10 to 15 is
    retained for the windows [5,12], [12,20] and [0,100] and dropped for
    [0,5] and [16,20]. *)
Theorem filterVttByTimeRange_retains_overlapping :
  (forall vttContent startTime endTime,
     VideoService.filterVttByTimeRange vttContent startTime endTime
     = JS.trim (JS.join [LF]
         ([("WEBVTT" : jsstring); []]
          ++ flat_map render
               (List.filter (retained startTime endTime) (cuesOf vttContent)))))
  /\ (forall vttContent startTime endTime c,
        In c (List.filter (retained startTime endTime) (cuesOf vttContent))
        <-> In c (cuesOf vttContent)
            /\ PrimFloat.leb startTime (cueEnd c) = true
            /\ PrimFloat.leb (cueStart c) endTime = true)
  /\ (forall vttContent c, In c (cuesOf vttContent) -> timedByItsLine c)
  /\ (forall t h m s,
        JS.split (Ascii.eqb ":") (JS.trim t) = [h; m; s] ->
        VideoService.parseVttTimestamp t
        = (Num.parseInt h * 3600 + Num.parseInt m * 60 + Num.parseFloat s)%float)
  /\ (forall t m s,
        JS.split (Ascii.eqb ":") (JS.trim t) = [m; s] ->
        VideoService.parseVttTimestamp t
        = (Num.parseInt m * 60 + Num.parseFloat s)%float)
  /\ VideoService.parseVttTimestamp "01:02:03.500" = 3723.5%float
  /\ VideoService.parseVttTimestamp "02:03.500" = 123.5%float
  /\ (forall c,
        cueStart c = 10%float -> cueEnd c = 15%float ->
        retained 5 12 c = true /\ retained 12 20 c = true
        /\ retained 0 100 c = true
        /\ retained 0 5 c = false /\ retained 16 20 c = false)
  /\ VideoService.filterVttByTimeRange sampleVtt 5 12 = firstCue
  /\ VideoService.filterVttByTimeRange sampleVtt 12 19 = firstCue
  /\ VideoService.filterVttByTimeRange sampleVtt 0 5 = ("WEBVTT" : jsstring)
  /\ VideoService.filterVttByTimeRange sampleVtt 16 19 = ("WEBVTT" : jsstring).
Proof.
  split; [|split; [|split; [|split; [|split; [|split; [|split; [|split]]]]]]].
  - intros vtt s e.
    unfold VideoService.filterVttByTimeRange, VideoService.filteredLinesOf, cuesOf.
    rewrite processCues_cues, cuesFrom_skipHeader; [done|].
    apply skipHeader_length.
  - intros vtt s e c. rewrite filter_In. unfold retained, Num.geb, Num.leb.
    by rewrite andb_true_iff.
  - intros vtt c. by apply cuesFrom_timed.
  - intros t h m s Hsplit. unfold VideoService.parseVttTimestamp.
    by rewrite Hsplit.
  - intros t m s Hsplit. unfold VideoService.parseVttTimestamp.
    by rewrite Hsplit.
  - vm_compute. reflexivity.
  - vm_compute. reflexivity.
  - intros c Hstart Hend. unfold retained. rewrite Hstart, Hend.
    repeat split; vm_compute; reflexivity.
  - repeat split; vm_compute; reflexivity.
Qed.

(** The first cue of the sample. *)
Definition helloCue : Cue :=
  {| timing := "00:00:10.000 --> 00:00:15.000 line:90%";
     cueStart := 10%float; cueEnd := 15%float;
     payload := [("Hello" : jsstring); ("world" : jsstring)] |}.

Example cuesOf_sampleVtt :
  cuesOf sampleVtt
  = [helloCue;
     {| timing := "00:20.000 --> 00:25.500";
        cueStart := 20%float; cueEnd := 25.5%float;
        payload := [("Bye" : jsstring)] |}].
Proof. vm_compute. reflexivity. Qed.

Lemma filterVttByTimeRange_retains_overlapping_witness :
  retained 5 12 helloCue = true /\ retained 12 20 helloCue = true
  /\ retained 0 100 helloCue = true
  /\ retained 0 5 helloCue = false /\ retained 16 20 helloCue = false.
Proof.
  exact (proj1 (proj2 (proj2 (proj2 (proj2 (proj2 (proj2 (proj2
           filterVttByTimeRange_retains_overlapping)))))))
           helloCue eq_refl eq_refl).
Defined.

(** ** Video identifiers *)

(** An identifier of the shape [prefix{id}_{track}_VIDEO], the fixed parts
    in any letter case: the identifier proper is a non-empty run of
    [idClass], the track is non-empty and holds no line terminator. *)
Definition lankShape (prefix : jsstring) (idClass : ascii -> bool)
    (lank id track : jsstring) : Prop :=
  exists pre suf,
    lank = pre ++ id ++ "_"%char :: track ++ suf
    /\ JS.foldCase pre = prefix
    /\ JS.foldCase suf = ("_video" : jsstring)
    /\ id <> [] /\ Forall (fun c => idClass c = true) id
    /\ track <> [] /\ Forall (fun c => JS.isLineTerminator c = false) track.

Lemma matchLank_spec prefix idClass lank id track :
  idClass "_"%char = false ->
  VideoService.matchLank prefix idClass lank = Some (id, track)
  <-> lankShape prefix idClass lank id track.
Proof.
  intros Hus. unfold VideoService.matchLank, lankShape. split.
  - case_bool_decide as Hpre; [|done].
    pose proof (takeWhile_drop idClass (drop (length prefix) lank)) as Hsplit.
    pose proof (takeWhile_Forall idClass (drop (length prefix) lank)) as Hid.
    destruct (JS.takeWhile idClass (drop (length prefix) lank)) as [|i0 id0];
      [done|].
    destruct (drop (length (i0 :: id0)) (drop (length prefix) lank))
      as [|u tail]; [done|].
    destruct (Ascii.eqb_spec u "_"%char) as [->|Hne].
    2:{ ascii_cases u; try done; exfalso; by apply Hne. }
    destruct (JS.truthy (take (length tail - 6) tail)) eqn:Htrack; [|done].
    case_bool_decide as Hsuf; [|done]. simpl.
    destruct (forallb _ _) eqn:Hlt; [|done].
    intros [= <- <-].
    exists (take (length prefix) lank), (drop (length tail - 6) tail).
    split; [|split; [done|split; [done|split; [done|split; [done|split]]]]].
    + rewrite <- (take_drop (length prefix) lank) at 1. f_equal.
      by rewrite <- Hsplit, take_drop.
    + by destruct (take (length tail - 6) tail).
    + apply Forall_forall. intros c Hc%list_elem_of_In.
      rewrite forallb_forall in Hlt. apply negb_true_iff, Hlt. done.
  - intros (pre & suf & -> & Hpre & Hsuf & Hid & Hcls & Htrack & Hlt).
    assert (length pre = length prefix) as Hlen
      by (by rewrite <- Hpre, foldCase_length).
    assert (length suf = 6) as Hlen6
      by (by rewrite <- (foldCase_length suf), Hsuf).
    rewrite <- Hlen, take_app_length, drop_app_length.
    rewrite bool_decide_true by done.
    rewrite (takeWhile_app_stop idClass id "_"%char (track ++ suf)) by done.
    destruct id as [|i0 id0]; [done|].
    rewrite drop_app_length.
    replace (length (track ++ suf) - 6) with (length track)
      by (rewrite length_app; lia).
    rewrite take_app_length, drop_app_length.
    rewrite bool_decide_true by done.
    assert (forallb (fun c => negb (JS.isLineTerminator c)) track = true) as ->.
    { apply forallb_forall. intros c Hc%list_elem_of_In.
      rewrite Forall_forall in Hlt. by rewrite Hlt. }
    by destruct track.
Qed.

(** ** [parseVideoUrl] *)

Lemma isPubIdChar_underscore : VideoService.isPubIdChar "_"%char = false.
Proof. reflexivity. Qed.

Lemma isDigit_underscore : JS.isDigit "_"%char = false.
Proof. reflexivity. Qed.

Lemma docid_not_pub lank id track :
  lankShape "docid-" JS.isDigit lank id track ->
  VideoService.pubMatch lank = None.
Proof.
  intros (pre & suf & -> & Hpre & _).
  unfold VideoService.pubMatch, VideoService.matchLank.
  rewrite bool_decide_false; [done|].
  destruct pre as [|a [|b [|c [|d [|e [|f [|g pre]]]]]]]; try done.
  injection Hpre as Ha Hb Hc Hd _ _. intros Hpub.
  change (take (length ("pub-" : jsstring)) _) with [a; b; c; d] in Hpub.
  injection Hpub as Hpa _ _ _. congruence.
Qed.

(** The URL carries the language [language] and the identifier [lank]: what
    [parseVideoUrl] reads from [wtlocale] or [appLanguage], and from [lank]
    or [item]. *)
Definition carries `{Platform} (urlObj : URL) (language lank : jsstring) : Prop :=
  JS.orElse (URLSearchParams_get (URL_searchParams urlObj) "wtlocale")
            (URLSearchParams_get (URL_searchParams urlObj) "appLanguage")
  = Some language
  /\ language <> []
  /\ JS.orElse (URLSearchParams_get (URL_searchParams urlObj) "lank")
               (URLSearchParams_get (URL_searchParams urlObj) "item")
     = Some lank
  /\ lank <> [].

Lemma parseVideoUrl_carries `{Platform} url urlObj language lank :
  URL_new url = Some urlObj -> carries urlObj language lank ->
  VideoService.parseVideoUrl url
  = match VideoService.pubMatch lank with
    | Some (id, track) =>
        Returns {| pv_id := id; pv_track := track;
                   pv_language := language; pv_type := pub |}
    | None =>
        match VideoService.docidMatch lank with
        | Some (id, track) =>
            Returns {| pv_id := id; pv_track := track;
                       pv_language := language; pv_type := docid |}
        | None =>
            Throws (createWOLError INVALID_QUERY
                      (VideoService.unrecognizedMessage lank))
        end
    end.
Proof.
  intros Hnew (Hlang & Hl & Hlank & Hk). unfold VideoService.parseVideoUrl.
  rewrite Hnew, Hlang. destruct language; [done|].
  rewrite Hlank. destruct lank; done.
Qed.

Lemma parseVideoUrl_throws_INVALID_QUERY `{Platform} url e :
  VideoService.parseVideoUrl url = Throws e -> code e = Some INVALID_QUERY.
Proof.
  unfold VideoService.parseVideoUrl.
  destruct (URL_new url) as [urlObj|]; [|by intros [= <-]].
  destruct (JS.orElse _ _) as [[|? ?]|]; try by intros [= <-].
  destruct (JS.orElse _ _) as [[|? ?]|]; try by intros [= <-].
  destruct (VideoService.pubMatch _) as [[? ?]|]; [done|].
  destruct (VideoService.docidMatch _) as [[? ?]|]; [done|].
  by intros [= <-].
Qed.

(** C5, amended.  [parseVideoUrl] recognises exactly two identifier shapes,
    their fixed parts read without regard to letter case and their track
    not empty and without line break: [pub-{id}_{track}_VIDEO], with an id
    of letters, digits and hyphens, gives type [pub];
    [docid-{id}_{track}_VIDEO], with an id of digits, gives type [docid].
    The language is read first: for a URL that carries a language (a
    [wtlocale] or [appLanguage] that is not empty) and an identifier of
    neither shape it throws [INVALID_QUERY] with a message that contains
    the identifier; whatever it throws is [INVALID_QUERY].  A URL with
    [lank=pub-jwbvod25_41_VIDEO] and [wtlocale=E] gives id "jwbvod25",
    track "41", language "E", type [pub]. *)
Theorem parseVideoUrl_identifier_shapes `{Platform} :
  (forall lank id track,
     VideoService.pubMatch lank = Some (id, track)
     <-> lankShape "pub-" VideoService.isPubIdChar lank id track)
  /\ (forall lank id track,
        VideoService.docidMatch lank = Some (id, track)
        <-> lankShape "docid-" JS.isDigit lank id track)
  /\ (forall url urlObj language lank,
        URL_new url = Some urlObj -> carries urlObj language lank ->
        (forall id track,
           lankShape "pub-" VideoService.isPubIdChar lank id track ->
           VideoService.parseVideoUrl url
           = Returns {| pv_id := id; pv_track := track;
                        pv_language := language; pv_type := pub |})
        /\ (forall id track,
              lankShape "docid-" JS.isDigit lank id track ->
              VideoService.parseVideoUrl url
              = Returns {| pv_id := id; pv_track := track;
                           pv_language := language; pv_type := docid |})
        /\ ((forall id track,
               ~ lankShape "pub-" VideoService.isPubIdChar lank id track
               /\ ~ lankShape "docid-" JS.isDigit lank id track) ->
            exists e,
              VideoService.parseVideoUrl url = Throws e
              /\ code e = Some INVALID_QUERY
              /\ exists before after, message e = before ++ lank ++ after))
  /\ (forall url e,
        VideoService.parseVideoUrl url = Throws e -> code e = Some INVALID_QUERY)
  /\ (forall url urlObj,
        URL_new url = Some urlObj ->
        URLSearchParams_get (URL_searchParams urlObj) "lank"
        = Some ("pub-jwbvod25_41_VIDEO" : jsstring) ->
        URLSearchParams_get (URL_searchParams urlObj) "wtlocale"
        = Some ("E" : jsstring) ->
        VideoService.parseVideoUrl url
        = Returns {| pv_id := "jwbvod25"; pv_track := "41";
                     pv_language := "E"; pv_type := pub |}).
Proof.
  split; [|split; [|split; [|split]]].
  - intros. apply matchLank_spec, isPubIdChar_underscore.
  - intros. apply matchLank_spec, isDigit_underscore.
  - intros url urlObj language lank Hnew Hcarries.
    rewrite (parseVideoUrl_carries _ _ _ _ Hnew Hcarries). split; [|split].
    + intros id track Hshape.
      apply (matchLank_spec _ _ _ _ _ isPubIdChar_underscore) in Hshape.
      unfold VideoService.pubMatch. by rewrite Hshape.
    + intros id track Hshape. rewrite (docid_not_pub _ _ _ Hshape).
      apply (matchLank_spec _ _ _ _ _ isDigit_underscore) in Hshape.
      unfold VideoService.docidMatch. by rewrite Hshape.
    + intros Hneither.
      destruct (VideoService.pubMatch lank) as [[id track]|] eqn:Hpub.
      { apply (matchLank_spec _ _ _ _ _ isPubIdChar_underscore) in Hpub.
        by destruct (Hneither id track). }
      destruct (VideoService.docidMatch lank) as [[id track]|] eqn:Hdoc.
      { apply (matchLank_spec _ _ _ _ _ isDigit_underscore) in Hdoc.
        by destruct (Hneither id track). }
      eexists. split; [reflexivity|]. split; [reflexivity|].
      eexists _, _. reflexivity.
  - apply @parseVideoUrl_throws_INVALID_QUERY.
  - intros url urlObj Hnew Hlank Hlocale.
    unfold VideoService.parseVideoUrl. rewrite Hnew, Hlank, Hlocale.
    reflexivity.
Qed.

(** What the reference platform makes of the finder URL of the claim. *)
Definition finderUrl : Reference.url :=
  {| Reference.scheme := "https"; Reference.host := "www.jw.org";
     Reference.port := []; Reference.path := "/finder";
     Reference.query := Some ("lank=pub-jwbvod25_41_VIDEO&wtlocale=E" : jsstring);
     Reference.fragment := None |}.

Lemma parseVideoUrl_identifier_shapes_witness :
  @VideoService.parseVideoUrl referencePlatform
    "https://www.jw.org/finder?lank=pub-jwbvod25_41_VIDEO&wtlocale=E"
  = Returns {| pv_id := "jwbvod25"; pv_track := "41";
               pv_language := "E"; pv_type := pub |}.
Proof.
  exact (proj2 (proj2 (proj2 (proj2
    (@parseVideoUrl_identifier_shapes referencePlatform))))
    "https://www.jw.org/finder?lank=pub-jwbvod25_41_VIDEO&wtlocale=E"
    finderUrl eq_refl eq_refl eq_refl).
Defined.

(** The two shapes as the claim writes them, letter for letter. *)
Definition literalShape (prefix : jsstring) (idClass : ascii -> bool)
    (lank id track : jsstring) : Prop :=
  lank = prefix ++ id ++ "_"%char :: track ++ "_VIDEO"
  /\ id <> [] /\ Forall (fun c => idClass c = true) id /\ track <> [].

(** An identifier of the first shape as written, with a line break in its
    track. *)
Definition brokenTrack : jsstring := "pub-x_4" ++ LF :: ("1_VIDEO" : jsstring).

(** C5 as stated fails in three ways.  An identifier in capitals is of
    neither shape as written, and is recognised all the same.  An identifier
    of the first shape as written whose track holds a line break is not
    recognised.  And a URL without language is refused before its identifier
    is read: the identifier [xyz] is of neither shape, and the message does
    not name it. *)
Lemma parseVideoUrl_written_shapes_counterexample :
  ((forall id track,
      ~ literalShape "pub-" VideoService.isPubIdChar "PUB-jwbvod25_41_video" id track
      /\ ~ literalShape "docid-" JS.isDigit "PUB-jwbvod25_41_video" id track)
   /\ @VideoService.parseVideoUrl referencePlatform
        "https://www.jw.org/finder?wtlocale=E&lank=PUB-jwbvod25_41_video"
      = Returns {| pv_id := "jwbvod25"; pv_track := "41";
                   pv_language := "E"; pv_type := pub |})
  /\ (literalShape "pub-" VideoService.isPubIdChar brokenTrack "x"
        (("4" : jsstring) ++ LF :: ("1" : jsstring))
      /\ @VideoService.parseVideoUrl referencePlatform
           "https://www.jw.org/finder?wtlocale=E&lank=pub-x_4%0A1_VIDEO"
         = Throws (createWOLError INVALID_QUERY
                     (VideoService.unrecognizedMessage brokenTrack)))
  /\ ((forall id track,
         ~ literalShape "pub-" VideoService.isPubIdChar "xyz" id track
         /\ ~ literalShape "docid-" JS.isDigit "xyz" id track)
      /\ exists e,
           @VideoService.parseVideoUrl referencePlatform
             "https://www.jw.org/finder?lank=xyz" = Throws e
           /\ ~ exists before after,
                  message e = before ++ ("xyz" : jsstring) ++ after).
Proof.
  split; [|split].
  - split; [|reflexivity].
    intros id track. split; intros [Heq _]; vm_compute in Heq; discriminate Heq.
  - split; [|vm_compute; reflexivity].
    repeat split; try done. repeat constructor.
  - split.
    + intros id track. split; intros [Heq _]; vm_compute in Heq; discriminate Heq.
    + eexists. split; [vm_compute; reflexivity|].
      intros Hnamed%includes_spec. vm_compute in Hnamed. discriminate Hnamed.
Qed.

(** ** Language routing *)

(** The specification's words for the normalised code: lower-case the
    language ("en" when there is none), keep what comes before the first
    hyphen or underscore, and fall back to "en" when nothing is left. *)
Definition normalizedCode (language : option jsstring) : jsstring :=
  let lowered :=
    JS.toLowerCase (match language with
                    | Some (c :: s) => c :: s
                    | _ => "en"
                    end) in
  match JS.takeWhile (fun c => negb (isHyphenOrUnderscore c)) lowered with
  | [] => "en"
  | segment => segment
  end.

Lemma normalizeIsoLanguageCode_spec language :
  normalizeIsoLanguageCode language = normalizedCode language.
Proof.
  unfold normalizeIsoLanguageCode, normalizedCode. rewrite hd_split.
  unfold JS.orDefault at 2.
  destruct (JS.takeWhile _ _); reflexivity.
Qed.

(** Whether the routing table has an entry of its own for a code. *)
Definition inRoutingTable `{WolLanguages} (norm : jsstring) : Prop :=
  match mapping with
  | Some m => is_Some (m !! norm)
  | None => False
  end.

(** C6.  For a language whose normalised code (lower-cased, cut at the first
    hyphen or underscore, "en" when nothing is given or left) has no entry
    in the routing table, [resolveWolConfig] yields [lp] equal to that code,
    or "e" when the code is "en", and [rev] equal to "r1"; the search and
    document URLs are built from exactly these. *)
Theorem resolveWolConfig_fallback `{WolLanguages} (lang : option jsstring) :
  ~ inRoutingTable (normalizeIsoLanguageCode lang) ->
  let code := normalizedCode lang in
  let expected :=
    if bool_decide (code = ("en" : jsstring)) then ("e" : jsstring) else code in
  normalizeIsoLanguageCode lang = code
  /\ resolveWolConfig lang = {| cfg_lp := expected; cfg_rev := "r1" |}
  /\ (forall (platform : Platform) (documentId : jsstring),
        URLBuilder.buildDocumentURL documentId lang
        = replace "{docId}" documentId
            (replace "{lp}" expected
               (replace "{rev}" "r1"
                  (replace "{lang}" (default ("en" : jsstring) lang) DOCUMENT))))
  /\ (forall (platform : Platform) (query : jsstring) (options : SearchOptions),
        language options = lang ->
        exists parameters,
          URLBuilder.buildSearchURL query options
          = replace "{lp}" expected
              (replace "{rev}" "r1"
                 (replace "{lang}" (default ("en" : jsstring) lang) SEARCH))
            ++ "?" ++ URLSearchParams_toString parameters).
Proof.
  intros Habsent code expected.
  assert (forall l, normalizedCode l = code ->
          resolveWolConfig l = {| cfg_lp := expected; cfg_rev := "r1" |}) as Hcfg.
  { intros l Hl. unfold resolveWolConfig, inRoutingTable in *.
    rewrite normalizeIsoLanguageCode_spec in *. rewrite Hl. fold code in Habsent.
    assert (code <> []) as Hcode.
    { unfold code, normalizedCode. by destruct (JS.takeWhile _ _). }
    assert ((match mapping with Some m => propertyOf m code | None => None end
             ≫= lp) = None
            /\ (match mapping with Some m => propertyOf m code | None => None end
                ≫= rsconf) = None) as [-> ->].
    { destruct mapping as [m|]; [|done]. unfold propertyOf.
      destruct (m !! code) eqn:Hm; [exfalso; apply Habsent; eauto|].
      by case_bool_decide. }
    simpl. unfold expected. case_bool_decide; [reflexivity|].
    destruct code; [done|reflexivity]. }
  assert (normalizedCode (Some (default ("en" : jsstring) lang)) = code)
    as Hdefault by (by destruct lang).
  split; [apply normalizeIsoLanguageCode_spec|]. split; [by apply Hcfg|]. split.
  - intros P documentId. unfold URLBuilder.buildDocumentURL.
    by rewrite (Hcfg _ Hdefault).
  - intros P query options Hlang. unfold URLBuilder.buildSearchURL.
    rewrite Hlang, (Hcfg _ Hdefault). eexists. reflexivity.
Qed.

Lemma resolveWolConfig_fallback_witness :
  @resolveWolConfig sampleLanguages (Some ("fr-CA" : jsstring))
  = {| cfg_lp := "fr"; cfg_rev := "r1" |}.
Proof.
  refine (proj1 (proj2
    (@resolveWolConfig_fallback sampleLanguages (Some ("fr-CA" : jsstring)) _))).
  unfold inRoutingTable. vm_compute. intros [x Hx]. discriminate Hx.
Defined.

Example resolveWolConfig_listed :
  @resolveWolConfig sampleLanguages (Some ("pt_BR" : jsstring))
  = {| cfg_lp := "t"; cfg_rev := "r5" |}.
Proof. vm_compute. reflexivity. Qed.

Example resolveWolConfig_english :
  @resolveWolConfig sampleLanguages None = {| cfg_lp := "e"; cfg_rev := "r1" |}.
Proof. vm_compute. reflexivity. Qed.

(** ** Pagination *)

(** *** The Numbers of the page count

    The counts are binary64 floats: [parseInt] gives the Number nearest to
    the integer written, the division by 40 is rounded to nearest, and
    [Math.ceil] is taken of the rounded quotient.  The lemmas below follow
    the three steps on the mantissas. *)

Section Binary64.
Local Open Scope Z_scope.

Definition forty : spec_float := S754_finite false 5629499534213120 (-47).

Lemma forty_spec : Prim2SF 40%float = forty.
Proof. reflexivity. Qed.

Lemma digits_bounds p :
  2 ^ (Zpos (digits2_pos p) - 1) <= Zpos p < 2 ^ Zpos (digits2_pos p).
Proof.
  induction p as [p IH|p IH|]; cbn [digits2_pos].
  - rewrite Pos2Z.inj_succ. rewrite Z.pow_succ_r by lia.
    replace (Z.succ (Zpos (digits2_pos p)) - 1) with (Z.succ (Zpos (digits2_pos p) - 1)) by lia.
    rewrite Z.pow_succ_r by lia. lia.
  - rewrite Pos2Z.inj_succ. rewrite Z.pow_succ_r by lia.
    replace (Z.succ (Zpos (digits2_pos p)) - 1) with (Z.succ (Zpos (digits2_pos p) - 1)) by lia.
    rewrite Z.pow_succ_r by lia. lia.
  - simpl. lia.
Qed.

Lemma digits_unique p d :
  2 ^ (d - 1) <= Zpos p < 2 ^ d -> Zpos (digits2_pos p) = d.
Proof.
  intros [Hlo Hhi]. pose proof (digits_bounds p) as [Hlo' Hhi'].
  assert (0 <= d).
  { destruct (Z.ltb_spec d 0); [|done]. rewrite Z.pow_neg_r in Hhi by lia. lia. }
  assert (d - 1 < Zpos (digits2_pos p)).
  { apply (Z.pow_lt_mono_r_iff 2); lia. }
  assert (Zpos (digits2_pos p) - 1 < d).
  { apply (Z.pow_lt_mono_r_iff 2); lia. }
  lia.
Qed.

Lemma div_eucl_eq a b : Z.div_eucl a b = (a / b, a mod b).
Proof. unfold Z.div, Z.modulo. by destruct (Z.div_eucl a b). Qed.

Definition two52 : Z := 4503599627370496.
Definition two53 : Z := 9007199254740992.

Lemma fexp_normal e : -1074 <= e -> fexp prec emax (53 + e) - e = 0.
Proof. unfold fexp, emin, prec, emax. lia. Qed.

(** What [binary_round_aux] does after its first shift, on a mantissa of 53
    digits: it rounds, and shifts once more when the rounding carries. *)
Definition finish (m1 e0 : Z) : spec_float :=
  let '(mrs, e) := shr_fexp prec emax m1 e0 loc_Exact in
  match shr_m mrs with
  | Z0 => S754_zero false
  | Zpos m => if (e <=? emax - prec)%Z then S754_finite false m e else S754_infinity false
  | Zneg _ => S754_nan
  end.

Lemma finish_spec m1 e0 :
  two52 <= m1 <= two53 -> -1074 <= e0 ->
  finish m1 e0
  = if (m1 <? two53)%Z
    then if (e0 <=? 971)%Z then S754_finite false (Z.to_pos m1) e0
         else S754_infinity false
    else if (e0 + 1 <=? 971)%Z then S754_finite false (Z.to_pos two52) (e0 + 1)
         else S754_infinity false.
Proof.
  intros Hm He. unfold finish, shr_fexp.
  destruct (Z.ltb_spec m1 two53) as [Hlt|Hge].
  - destruct m1 as [|p|p]; try (unfold two52 in Hm; lia).
    cbn [Zdigits2].
    rewrite (digits_unique p 53) by (unfold two52, two53 in *; simpl; lia).
    rewrite fexp_normal by done. simpl. reflexivity.
  - assert (m1 = two53) as -> by lia.
    change (Zdigits2 two53) with 54.
    replace (fexp prec emax (54 + e0) - e0) with 1
      by (unfold fexp, emin, prec, emax; lia).
    reflexivity.
Qed.

Lemma loc_of_shr_record_of_loc m l :
  loc_of_shr_record (shr_record_of_loc m l) = l.
Proof. by destruct l as [|[]]. Qed.

Lemma shr_m_of_loc m l : shr_m (shr_record_of_loc m l) = m.
Proof. by destruct l as [|[]]. Qed.

Lemma binary_round_aux_finish m e l :
  binary_round_aux prec emax false m e l
  = let '(mrs, e') := shr_fexp prec emax m e l in
    finish (round_nearest_even (shr_m mrs) (loc_of_shr_record mrs)) e'.
Proof.
  unfold binary_round_aux, finish.
  destruct (shr_fexp prec emax m e l) as [mrs e'].
  destruct (shr_fexp prec emax _ e' loc_Exact) as [mrs' e''].
  by destruct (shr_m mrs').
Qed.

(** No shift: the mantissa has 53 digits. *)
Lemma shr_fexp_53 p e l :
  Zpos (digits2_pos p) = 53 -> -1074 <= e ->
  shr_fexp prec emax (Zpos p) e l = (shr_record_of_loc (Zpos p) l, e).
Proof.
  intros Hd He. unfold shr_fexp. cbn [Zdigits2]. rewrite Hd, fexp_normal by done.
  reflexivity.
Qed.

(** One shift: the mantissa has 54 digits. *)
Lemma shr_fexp_54 p e l :
  Zpos (digits2_pos p) = 54 -> -1075 <= e ->
  shr_fexp prec emax (Zpos p) e l = (shr_1 (shr_record_of_loc (Zpos p) l), e + 1).
Proof.
  intros Hd He. unfold shr_fexp. cbn [Zdigits2]. rewrite Hd.
  replace (fexp prec emax (54 + e) - e) with 1
    by (unfold fexp, emin, prec, emax; lia).
  reflexivity.
Qed.

(** The mantissa [Zr] is the quotient [q], with remainder [rho], rounded: the
    quotient itself when the division is exact, the quotient or the next
    integer otherwise. *)
Definition roundedTo (q rho Zr : Z) : Prop :=
  (rho = 0 -> Zr = q) /\ (rho <> 0 -> q <= Zr <= q + 1).

Lemma div40 mx ex :
  Zpos (digits2_pos mx) = 53 -> -52 <= ex <= 971 ->
  exists mz ez,
    SFdiv prec emax (S754_finite false mx ex) forty = S754_finite false mz ez
    /\ Zpos (digits2_pos mz) = 53
    /\ ((ez = ex - 6 /\ roundedTo (8 * Zpos mx / 5) ((8 * Zpos mx) mod 5) (Zpos mz))
        \/ (ez = ex - 5 /\ roundedTo (8 * Zpos mx / 5) ((8 * Zpos mx) mod 5) (2 * Zpos mz))).
Proof.
  intros Hd Hex. unfold SFdiv, forty, SFdiv_core_binary.
  cbn [Zdigits2 xorb]. rewrite Hd.
  change (Zpos (digits2_pos 5629499534213120)) with 53.
  replace (Z.min (fexp prec emax (53 + ex - (53 + -47))) (ex - -47)) with (ex - 6).
  2:{ unfold fexp, emin, prec, emax. lia. }
  replace (ex - -47 - (ex - 6)) with 53 by lia.
  pose proof (digits_bounds mx) as Hmx. rewrite Hd in Hmx.
  change (2 ^ (53 - 1)) with 4503599627370496 in Hmx.
  change (2 ^ 53) with 9007199254740992 in Hmx.
  rewrite div_eucl_eq.
  rewrite Z.shiftl_mul_pow2 by lia.
  change (2 ^ 53) with (8 * 1125899906842624).
  change 5629499534213120 with (5 * 1125899906842624).
  rewrite Z.mul_assoc.
  rewrite Z.div_mul_cancel_r by lia.
  rewrite Z.mul_mod_distr_r by lia.
  rewrite (Z.mul_comm (Z.pos mx) 8).
  set (q := 8 * Z.pos mx / 5). set (rho := (8 * Z.pos mx) mod 5).
  assert (8 * Z.pos mx = 5 * q + rho /\ 0 <= rho < 5) as [Hq Hrho].
  { unfold q, rho. pose proof (Z.div_mod (8 * Z.pos mx) 5).
    pose proof (Z.mod_pos_bound (8 * Z.pos mx) 5). lia. }
  clearbody q rho. rewrite binary_round_aux_finish.
  destruct q as [|qp|qp]; try lia.
  assert (Zpos (digits2_pos qp) = 53 \/ Zpos (digits2_pos qp) = 54) as [Hdq|Hdq].
  { destruct (Z.ltb_spec (Zpos qp) two53); [left|right];
      apply digits_unique; unfold two53 in *; simpl; lia. }
  - (* the quotient has 53 digits *)
    pose proof (digits_bounds qp) as Hqp. rewrite Hdq in Hqp.
    change (2 ^ (53 - 1)) with two52 in Hqp. change (2 ^ 53) with two53 in Hqp.
    rewrite shr_fexp_53 by (done || lia).
    rewrite shr_m_of_loc, loc_of_shr_record_of_loc.
    assert (rho = 0 \/ rho = 1 \/ rho = 2 \/ rho = 3 \/ rho = 4)
      as [->|[->|[->|[->| ->]]]] by lia;
      match goal with
      | |- context [new_location ?a ?b] =>
          let l := eval vm_compute in (new_location a b) in
          change (new_location a b) with l
      end; cbn [round_nearest_even];
      rewrite finish_spec by (unfold two52, two53 in *; lia).
    all: rewrite (proj2 (Z.ltb_lt _ _)) by (unfold two53 in *; lia).
    all: rewrite (proj2 (Z.leb_le _ _)) by lia.
    all: eexists _, _; split; [reflexivity|]; split;
      [apply digits_unique; rewrite Z2Pos.id by lia;
       unfold two52, two53 in *; simpl; lia|].
    all: left; split; [done|]; rewrite Z2Pos.id by lia; unfold roundedTo; lia.
  - (* the quotient has 54 digits *)
    pose proof (digits_bounds qp) as Hqp. rewrite Hdq in Hqp.
    change (2 ^ (54 - 1)) with two53 in Hqp.
    change (2 ^ 54) with (2 * two53) in Hqp.
    rewrite shr_fexp_54 by (done || lia).
    assert (rho = 0 \/ rho = 1 \/ rho = 2 \/ rho = 3 \/ rho = 4)
      as [->|[->|[->|[->| ->]]]] by lia;
      match goal with
      | |- context [new_location ?a ?b] =>
          let l := eval vm_compute in (new_location a b) in
          change (new_location a b) with l
      end;
      (destruct qp as [h|h|]; [| |unfold two53 in Hqp; lia]);
      try (exfalso; lia);
      cbn [shr_record_of_loc shr_1 shr_m loc_of_shr_record round_nearest_even orb];
      rewrite finish_spec by (unfold two52, two53 in *; lia).
    all: rewrite (proj2 (Z.ltb_lt _ _)) by (unfold two53 in *; lia).
    all: rewrite (proj2 (Z.leb_le _ _)) by lia.
    all: eexists _, _; split; [reflexivity|]; split;
      [apply digits_unique; rewrite Z2Pos.id by lia;
       unfold two52, two53 in *; simpl; lia|].
    all: right; split; [lia|]; rewrite Z2Pos.id by lia; unfold roundedTo; lia.
Qed.

Lemma iter_xO_value p k : Zpos (Pos.iter xO p k) = Zpos p * 2 ^ Zpos k.
Proof.
  induction k as [|k IH] using Pos.peano_ind.
  - simpl. lia.
  - rewrite Pos.iter_succ, Pos2Z.inj_xO, IH, Pos2Z.inj_succ.
    rewrite Z.pow_succ_r by lia. lia.
Qed.

Lemma pow2_pos n : 0 <= n -> 0 < 2 ^ n.
Proof. intros. by apply Z.pow_pos_nonneg. Qed.

(** A count below 2^53 is a Number as it stands: the mantissa is the count
    shifted to 53 digits. *)
Lemma normalize_small p :
  Zpos p < two53 ->
  exists m e,
    binary_normalize prec emax (Zpos p) 0 false = S754_finite false m e
    /\ Zpos (digits2_pos m) = 53 /\ -52 <= e <= 0
    /\ Zpos m = Zpos p * 2 ^ (- e).
Proof.
  intros Hp. unfold binary_normalize, binary_round.
  pose proof (digits_bounds p) as Hd.
  set (d := Zpos (digits2_pos p)) in *.
  assert (1 <= d <= 53) as Hd53.
  { split; [unfold d; lia|].
    destruct (Z.leb_spec d 53) as [|Hgt]; [done|]. exfalso.
    assert (two53 <= 2 ^ (d - 1)); [|lia].
    change two53 with (2 ^ 53). apply Z.pow_le_mono_r; lia. }
  replace (fexp prec emax (d + 0)) with (d - 53)
    by (unfold fexp, emin, prec, emax; lia).
  unfold shl_align.
  destruct (d - 53 - 0) as [|k|k] eqn:Hk; [|lia|].
  - (* the count has 53 digits already *)
    rewrite binary_round_aux_finish, shr_fexp_53 by (unfold d in *; lia).
    rewrite shr_m_of_loc, loc_of_shr_record_of_loc. cbn [round_nearest_even].
    assert (d = 53) as Hd' by lia. rewrite Hd' in Hd.
    change (2 ^ (53 - 1)) with two52 in Hd.
    rewrite finish_spec by (unfold two52, two53 in *; lia).
    rewrite (proj2 (Z.ltb_lt _ _)) by done. simpl.
    exists p, 0. repeat split; lia.
  - (* shifted to the left by [53 - d] *)
    assert (Zpos k = 53 - d) as Hk' by lia.
    pose proof (iter_xO_value p k) as Hval.
    assert (two52 <= Zpos (Pos.iter xO p k) < two53) as Hrange.
    { rewrite Hval, Hk'. destruct Hd as [Hlo Hhi].
      pose proof (pow2_pos (53 - d)) as Hpos.
      assert (two52 = 2 ^ (d - 1) * 2 ^ (53 - d)) as ->.
      { change two52 with (2 ^ 52). rewrite <- Z.pow_add_r by lia. f_equal. lia. }
      assert (two53 = 2 ^ d * 2 ^ (53 - d)) as ->.
      { change two53 with (2 ^ 53). rewrite <- Z.pow_add_r by lia. f_equal. lia. }
      split.
      - apply Z.mul_le_mono_nonneg_r; lia.
      - apply Z.mul_lt_mono_pos_r; lia. }
    assert (Zpos (digits2_pos (Pos.iter xO p k)) = 53) as Hdigits.
    { apply digits_unique. exact Hrange. }
    rewrite binary_round_aux_finish, shr_fexp_53 by (done || lia).
    rewrite shr_m_of_loc, loc_of_shr_record_of_loc. cbn [round_nearest_even].
    rewrite finish_spec by (unfold two52, two53 in *; lia).
    rewrite (proj2 (Z.ltb_lt _ _)) by lia.
    rewrite (proj2 (Z.leb_le _ _)) by lia.
    exists (Pos.iter xO p k), (d - 53). rewrite Pos2Z.id.
    repeat split; try lia. rewrite Hval. f_equal. f_equal. lia.
Qed.

Lemma shr_1_m mrs : 0 <= shr_m mrs -> shr_m (shr_1 mrs) = shr_m mrs / 2.
Proof.
  destruct mrs as [m r s]. cbn [shr_m shr_1]. intros Hm.
  destruct m as [|[p|p|]|]; try lia; cbn [shr_m].
  - reflexivity.
  - apply (Z.div_unique _ _ _ 1); lia.
  - apply (Z.div_unique _ _ _ 0); lia.
  - reflexivity.
Qed.

Lemma shr_1_nonneg mrs : 0 <= shr_m mrs -> 0 <= shr_m (shr_1 mrs).
Proof. intros Hm. rewrite shr_1_m by done. apply Z.div_pos; lia. Qed.

Lemma shr_iter_m k mrs :
  0 <= shr_m mrs ->
  0 <= shr_m (SpecFloat.iter_pos shr_1 k mrs)
  /\ shr_m (SpecFloat.iter_pos shr_1 k mrs) = shr_m mrs / 2 ^ Zpos k.
Proof.
  revert mrs. induction k as [k IH|k IH|]; intros mrs Hm; cbn [SpecFloat.iter_pos].
  - pose proof (shr_1_nonneg _ Hm) as H1.
    destruct (IH _ H1) as [H2 E2]. destruct (IH _ H2) as [H3 E3].
    split; [done|]. rewrite E3, E2, shr_1_m by done.
    rewrite !Z.div_div by (try apply pow2_pos; lia).
    f_equal. rewrite <- !Z.pow_add_r by lia. change 2 with (2 ^ 1) at 1.
    rewrite <- Z.pow_add_r by lia. f_equal. lia.
  - destruct (IH _ Hm) as [H2 E2]. destruct (IH _ H2) as [H3 E3].
    split; [done|]. rewrite E3, E2.
    rewrite !Z.div_div by (try apply pow2_pos; lia).
    f_equal. rewrite <- Z.pow_add_r by lia. f_equal. lia.
  - split; [by apply shr_1_nonneg|]. by rewrite shr_1_m.
Qed.

Lemma round_nearest_even_step m l :
  round_nearest_even m l = m \/ round_nearest_even m l = m + 1.
Proof. destruct l as [|[]]; simpl; try tauto. destruct (Z.even m); tauto. Qed.

(** A count from 2^53 on is rounded to 53 digits, or is too large for a
    Number. *)
Lemma normalize_big p :
  two53 <= Zpos p ->
  binary_normalize prec emax (Zpos p) 0 false = S754_infinity false
  \/ exists m e,
       binary_normalize prec emax (Zpos p) 0 false = S754_finite false m e
       /\ Zpos (digits2_pos m) = 53 /\ 1 <= e <= 971.
Proof.
  intros Hp. unfold binary_normalize, binary_round.
  pose proof (digits_bounds p) as Hd.
  set (d := Zpos (digits2_pos p)) in *.
  assert (54 <= d) as Hd54.
  { destruct (Z.leb_spec 54 d) as [|Hlt]; [done|]. exfalso.
    assert (2 ^ d <= two53); [|lia].
    change two53 with (2 ^ 53). apply Z.pow_le_mono_r; lia. }
  replace (fexp prec emax (d + 0)) with (d - 53)
    by (unfold fexp, emin, prec, emax; lia).
  unfold shl_align.
  destruct (d - 53 - 0) as [|k|k] eqn:Hk; [lia| |lia].
  rewrite binary_round_aux_finish. unfold shr_fexp. cbn [Zdigits2]. fold d.
  replace (fexp prec emax (d + 0) - 0) with (Zpos k)
    by (unfold fexp, emin, prec, emax; lia).
  cbn [shr shr_record_of_loc].
  set (mrs := SpecFloat.iter_pos shr_1 k _).
  destruct (shr_iter_m k {| shr_m := Zpos p; shr_r := false; shr_s := false |})
    as [_ Hm]; [simpl; lia|]. fold mrs in Hm. simpl in Hm.
  assert (two52 <= shr_m mrs < two53) as Hrange.
  { rewrite Hm. assert (Zpos k = d - 53) as -> by lia.
    pose proof (pow2_pos (d - 53)). destruct Hd as [Hlo Hhi].
    assert (2 ^ (d - 1) = two52 * 2 ^ (d - 53)) as Hlo'.
    { change two52 with (2 ^ 52). rewrite <- Z.pow_add_r by lia. f_equal. lia. }
    assert (2 ^ d = two53 * 2 ^ (d - 53)) as Hhi'.
    { change two53 with (2 ^ 53). rewrite <- Z.pow_add_r by lia. f_equal. lia. }
    split.
    - apply Z.div_le_lower_bound; lia.
    - apply Z.div_lt_upper_bound; lia. }
  rewrite finish_spec.
  2:{ destruct (round_nearest_even_step (shr_m mrs) (loc_of_shr_record mrs))
        as [-> | ->]; lia. }
  2:{ lia. }
  assert (1 <= 0 + Zpos k) by lia.
  destruct (Z.ltb_spec (round_nearest_even (shr_m mrs) (loc_of_shr_record mrs)) two53)
    as [Hlt|Hge].
  - destruct (Z.leb_spec (0 + Zpos k) 971); [|by left]. right.
    eexists _, _. split; [reflexivity|]. split; [|lia].
    apply digits_unique. rewrite Z2Pos.id.
    + change (2 ^ (53 - 1)) with two52. change (2 ^ 53) with two53.
      destruct (round_nearest_even_step (shr_m mrs) (loc_of_shr_record mrs))
        as [Heq | Heq]; rewrite Heq in *; lia.
    + destruct (round_nearest_even_step (shr_m mrs) (loc_of_shr_record mrs))
        as [-> | ->]; unfold two52 in *; lia.
  - destruct (Z.leb_spec (0 + Zpos k + 1) 971); [|by left]. right.
    eexists _, _. split; [reflexivity|]. split; [reflexivity|lia].
Qed.

Example ceil_examples :
  Num.ceil 0.5 = 1%float /\ Num.ceil 1.5 = 2%float /\ Num.ceil 2 = 2%float
  /\ Num.ceil (-1.5) = (-1)%float /\ Num.ceil (-0.5) = neg_zero
  /\ Num.ceil 30.75 = 31%float /\ Num.ceil infinity = infinity
  /\ Num.ceil 0 = 0%float.
Proof. repeat split; vm_compute; reflexivity. Qed.

(** [totalResults > 0 ? Math.ceil(totalResults / 40) : 1] *)
Definition pagesOf (totalResults : float) : float :=
  if PrimFloat.ltb 0 totalResults then Num.ceil (totalResults / 40) else 1%float.

(** The ceiling of the quotient of two integers. *)
Definition ceiling (a b : Z) : Z := - (- a / b).

Lemma ceiling_unique a b c : 0 < b -> b * (c - 1) < a <= b * c -> ceiling a b = c.
Proof.
  intros Hb Ha. unfold ceiling.
  assert (- a / b = - c); [|lia].
  symmetry. apply (Z.div_unique _ _ _ (b * c - a)); lia.
Qed.

Lemma ceiling_bounds a b : 0 < b -> b * (ceiling a b - 1) < a <= b * ceiling a b.
Proof.
  intros Hb. unfold ceiling.
  pose proof (Z.div_mod (- a) b ltac:(lia)).
  pose proof (Z.mod_pos_bound (- a) b Hb). nia.
Qed.

Lemma valid_53 s m e :
  Zpos (digits2_pos m) = 53 -> -1074 <= e <= 971 ->
  valid_binary (S754_finite s m e) = true.
Proof.
  intros Hd He. unfold FloatAxioms.valid_binary, SpecFloat.valid_binary, bounded, canonical_mantissa.
  rewrite Hd. apply andb_true_iff. split.
  - apply Z.eqb_eq. unfold fexp, emin, prec, emax. lia.
  - apply Z.leb_le. unfold prec, emax. lia.
Qed.

(** What [ofZ] is of a positive count below 2^53. *)
Lemma ofZ_small n :
  0 < n < two53 ->
  exists m e,
    Prim2SF (Num.ofZ n) = S754_finite false m e
    /\ Zpos (digits2_pos m) = 53 /\ -52 <= e <= 0
    /\ Zpos m = n * 2 ^ (- e).
Proof.
  intros [Hpos Hlt]. destruct n as [|p|p]; try lia.
  destruct (normalize_small p Hlt) as (m & e & Heq & Hd & He & Hval).
  exists m, e. unfold Num.ofZ. rewrite Heq.
  rewrite Prim2SF_SF2Prim by (apply valid_53; [done|lia]). done.
Qed.

Lemma ofZ_big n :
  two53 <= n ->
  Prim2SF (Num.ofZ n) = S754_infinity false
  \/ exists m e,
       Prim2SF (Num.ofZ n) = S754_finite false m e
       /\ Zpos (digits2_pos m) = 53 /\ 1 <= e <= 971.
Proof.
  intros Hn. destruct n as [|p|p]; try (unfold two53 in Hn; lia).
  unfold Num.ofZ.
  destruct (normalize_big p Hn) as [-> | (m & e & -> & Hd & He)].
  - left. by rewrite Prim2SF_SF2Prim.
  - right. exists m, e. rewrite Prim2SF_SF2Prim by (apply valid_53; [done|lia]).
    done.
Qed.

Lemma leb_one_finite m e :
  Zpos (digits2_pos m) = 53 -> -52 <= e ->
  SFleb (Prim2SF 1) (S754_finite false m e) = true.
Proof.
  intros Hd He. change (Prim2SF 1) with (S754_finite false 4503599627370496 (-52)).
  unfold SFleb, SFcompare.
  destruct (Z.compare_spec (-52) e) as [Heq|Hlt|Hgt]; [|done|lia].
  pose proof (digits_bounds m) as [Hlo _]. rewrite Hd in Hlo.
  change (2 ^ (53 - 1)) with (Zpos 4503599627370496) in Hlo.
  rewrite Pos.compare_cont_spec. simpl.
  destruct (Pos.compare_spec 4503599627370496 m) as [Hm|Hm|Hm]; try reflexivity.
  apply Pos2Z.pos_lt_pos in Hm. lia.
Qed.

Lemma leb_one_ofZ c : 1 <= c < two53 -> PrimFloat.leb 1 (Num.ofZ c) = true.
Proof.
  intros Hc. destruct (ofZ_small c ltac:(lia)) as (m & e & Heq & Hd & He & _).
  rewrite FloatAxioms.leb_spec, Heq. apply leb_one_finite; [done|lia].
Qed.

Lemma ltb_zero_finite m e : SFltb (Prim2SF 0) (S754_finite false m e) = true.
Proof. reflexivity. Qed.

Lemma ceil_finite x m e :
  Prim2SF x = S754_finite false m e -> e < 0 ->
  Num.ceil x = Num.ofZ (ceiling (Zpos m) (2 ^ (- e)))
  /\ 1 <= ceiling (Zpos m) (2 ^ (- e)) <= Zpos m.
Proof.
  intros Hx He. destruct e as [|k|k]; try lia.
  change (- Zneg k) with (Zpos k).
  pose proof (pow2_pos (Zpos k) ltac:(lia)) as Hpow.
  pose proof (ceiling_bounds (Zpos m) (2 ^ Zpos k) Hpow) as Hc.
  assert (1 <= ceiling (Zpos m) (2 ^ Zpos k) <= Zpos m) as Hrange.
  { split; [nia|].
    destruct (Z.leb_spec (ceiling (Zpos m) (2 ^ Zpos k)) (Zpos m)); [done|]. nia. }
  split; [|done]. unfold Num.ceil. rewrite Hx. cbv zeta.
  fold (ceiling (Zpos m) (2 ^ Zpos k)).
  destruct (Z.eqb_spec (ceiling (Zpos m) (2 ^ Zpos k)) 0); [lia|done].
Qed.

Lemma ceil_integral x s m e :
  Prim2SF x = S754_finite s m e -> 0 <= e -> Num.ceil x = x.
Proof. intros Hx He. unfold Num.ceil. rewrite Hx. by destruct e. Qed.

(** Below 2^53 the division and the ceiling of the code give the ceiling of
    the exact quotient. *)
Lemma pagesOf_exact n :
  0 <= n < two53 -> pagesOf (Num.ofZ n) = Num.ofZ (Z.max 1 (ceiling n 40)).
Proof.
  intros [Hn Hlt]. destruct (Z.eq_dec n 0) as [->|Hne]; [by vm_compute|].
  destruct (ofZ_small n ltac:(lia)) as (mx & ex & Hx & Hdx & Hex & Hval).
  unfold pagesOf. rewrite FloatAxioms.ltb_spec, Hx, ltb_zero_finite.
  destruct (div40 mx ex Hdx ltac:(lia)) as (mz & ez & Hdiv & Hdz & Hz).
  assert (Prim2SF (Num.ofZ n / 40) = S754_finite false mz ez) as Hquot.
  { rewrite FloatAxioms.div_spec, Hx. exact Hdiv. }
  destruct (ceil_finite _ _ _ Hquot ltac:(lia)) as [-> _]. f_equal.
  pose proof (ceiling_bounds n 40 ltac:(lia)) as Hc.
  set (c := ceiling n 40) in *.
  assert (1 <= c) by lia. rewrite Z.max_r by lia.
  set (J := 2 ^ (- ex)) in *.
  assert (0 < J) as HJ by (apply pow2_pos; lia).
  pose proof (Z.div_mod (8 * Zpos mx) 5 ltac:(lia)) as Hq.
  pose proof (Z.mod_pos_bound (8 * Zpos mx) 5 ltac:(lia)) as Hrho.
  set (q := 8 * Zpos mx / 5) in *. set (rho := (8 * Zpos mx) mod 5) in *.
  assert (40 * (c * J) - 40 * J < n * J) as Hlo by nia.
  assert (n * J <= 40 * (c * J)) as Hhi by nia.
  apply ceiling_unique; [apply pow2_pos; lia|].
  destruct Hz as [[-> [Hzero Hsome]]|[-> [Hzero Hsome]]].
  - replace (2 ^ (- (ex - 6))) with (64 * J).
    2:{ unfold J. replace (- (ex - 6)) with (6 + - ex) by lia.
        rewrite Z.pow_add_r by lia. done. }
    destruct (Z.eq_dec rho 0) as [H0|H0];
      [rewrite (Hzero H0)|pose proof (Hsome H0)]; nia.
  - replace (2 ^ (- (ex - 5))) with (32 * J).
    2:{ unfold J. replace (- (ex - 5)) with (5 + - ex) by lia.
        rewrite Z.pow_add_r by lia. done. }
    destruct (Z.eq_dec rho 0) as [H0|H0];
      [pose proof (Hzero H0)|pose proof (Hsome H0)]; nia.
Qed.

(** Whatever the count is, the number of pages is at least one. *)
Lemma pagesOf_ge_1 n : 0 <= n -> PrimFloat.leb 1 (pagesOf (Num.ofZ n)) = true.
Proof.
  intros Hn. destruct (Z.ltb_spec n two53) as [Hlt|Hge].
  { rewrite pagesOf_exact by done. apply leb_one_ofZ.
    pose proof (ceiling_bounds n 40 ltac:(lia)). unfold two53 in *. lia. }
  unfold pagesOf. rewrite FloatAxioms.ltb_spec.
  destruct (ofZ_big n Hge) as [Hx | (mx & ex & Hx & Hdx & Hex)]; rewrite Hx.
  - change (SFltb (Prim2SF 0) (S754_infinity false)) with true. cbv iota.
    assert (Prim2SF (Num.ofZ n / 40) = S754_infinity false) as Hquot.
    { by rewrite FloatAxioms.div_spec, Hx. }
    unfold Num.ceil. rewrite Hquot.
    by rewrite FloatAxioms.leb_spec, Hquot.
  - rewrite ltb_zero_finite.
    destruct (div40 mx ex Hdx ltac:(lia)) as (mz & ez & Hdiv & Hdz & Hz).
    assert (Prim2SF (Num.ofZ n / 40) = S754_finite false mz ez) as Hquot.
    { rewrite FloatAxioms.div_spec, Hx. exact Hdiv. }
    assert (ex - 6 <= ez) as Hez by (destruct Hz as [[-> _]|[-> _]]; lia).
    destruct (Z.ltb_spec ez 0) as [Hneg|Hpos].
    + destruct (ceil_finite _ _ _ Hquot Hneg) as [-> Hc].
      apply leb_one_ofZ. pose proof (digits_bounds mz) as [_ Hhi].
      rewrite Hdz in Hhi. change (2 ^ 53) with two53 in Hhi. lia.
    + rewrite (ceil_integral _ _ _ _ Hquot Hpos).
      rewrite FloatAxioms.leb_spec, Hquot. apply leb_one_finite; [done|lia].
Qed.
End Binary64.

(** The ceiling of the exact quotient [a / b]. *)
Definition ceilDiv (a b : Z) : Z :=
  Qround.Qceiling (QArith_base.Qdiv (QArith_base.inject_Z a) (QArith_base.inject_Z b)).

Lemma ceilDiv_40 (a : Z) : ceilDiv a 40 = ceiling a 40.
Proof.
  unfold ceilDiv, ceiling, Qround.Qceiling, Qround.Qfloor. simpl.
  by rewrite Z.mul_1_r.
Qed.

(** The count the pattern captures is read as the Number of a non-negative
    integer. *)
Lemma parseInt_matchCount text m :
  ContentParser.matchCount text = Some m ->
  exists n, Num.parseInt (ContentParser.stripSeparators m) = Num.ofZ n
            /\ (0 <= n)%Z.
Proof.
  unfold ContentParser.matchCount.
  destruct (JS.dropWhile _ text) as [|d rest] eqn:Hdrop; [done|].
  intros [= <-]. apply dropWhile_head in Hdrop.
  apply negb_false_iff in Hdrop.
  destruct (digit_is_plain d Hdrop) as (Hws & Hminus & Hplus & Hdot & Hcomma & _).
  unfold ContentParser.stripSeparators, Num.parseInt. simpl.
  rewrite Hdot, Hcomma. simpl. unfold JS.trimStart. simpl. rewrite Hws.
  assert (Num.readSign (d :: List.filter
            (fun c => negb (Ascii.eqb c "." || Ascii.eqb c ","))
            (JS.takeWhile ContentParser.isCountChar rest))
          = (false, d :: List.filter
            (fun c => negb (Ascii.eqb c "." || Ascii.eqb c ","))
            (JS.takeWhile ContentParser.isCountChar rest))) as ->.
  { unfold Num.readSign.
    ascii_cases d; vm_compute in Hminus, Hplus; try discriminate; reflexivity. }
  simpl. rewrite Hdrop. eexists. split; [reflexivity|].
  apply digitsValue_nonneg. constructor; [done|]. apply takeWhile_Forall.
Qed.

(** What a pagination must satisfy: the page size is 40, the total is the
    Number of a non-negative integer, there is at least one page, and for a
    total below 2^53 the pages are the ceiling of the quotient, one at
    least. *)
Definition paginated (p : SearchPagination) : Prop :=
  pageSize p = 40%float
  /\ (exists n, (0 <= n)%Z /\ totalResults p = Num.ofZ n)
  /\ PrimFloat.leb 1 (totalPages p) = true
  /\ forall n,
       (0 <= n < 2 ^ 53)%Z -> totalResults p = Num.ofZ n ->
       totalPages p = Num.ofZ (Z.max 1 (ceilDiv n 40)).

Lemma paginated_pagesOf n :
  (0 <= n)%Z ->
  paginated {| totalResults := Num.ofZ n; pageSize := 40;
               totalPages := pagesOf (Num.ofZ n); currentPage := None |}.
Proof.
  intros Hn. split; [done|]. split; [by exists n|]. split.
  - by apply pagesOf_ge_1.
  - simpl. intros n' Hn' ->. rewrite ceilDiv_40. by apply pagesOf_exact.
Qed.

(** C7, amended.  On every search-results page, the pagination
    [parseSearchResults] returns has [pageSize = 40], a [totalResults] that
    is the Number of a non-negative integer, and [totalPages >= 1]; for
    every total below 2^53, the integers a Number holds exactly,
    [totalPages = max(1, ceil(totalResults / 40))].  [search] hands that
    pagination on unchanged, and its 404 answer satisfies the same. *)
Theorem pagination_totalPages `{Platform} `{WolLanguages} `{Scraping} :
  (forall html,
     let p := pagination (ContentParser.parseSearchResults html) in
     pageSize p = 40%float
     /\ (exists n, (0 <= n)%Z /\ totalResults p = Num.ofZ n)
     /\ PrimFloat.leb 1 (totalPages p) = true
     /\ forall n,
          (0 <= n < 2 ^ 53)%Z -> totalResults p = Num.ofZ n ->
          totalPages p = Num.ofZ (Z.max 1 (ceilDiv n 40)))
  /\ (forall net query options response,
        WOLService.search net query options = Returns response ->
        pageSize (pagination response) = 40%float
        /\ (exists n, (0 <= n)%Z /\ totalResults (pagination response) = Num.ofZ n)
        /\ PrimFloat.leb 1 (totalPages (pagination response)) = true
        /\ forall n,
             (0 <= n < 2 ^ 53)%Z ->
             totalResults (pagination response) = Num.ofZ n ->
             totalPages (pagination response)
             = Num.ofZ (Z.max 1 (ceilDiv n 40))).
Proof.
  assert (forall html,
            paginated (pagination (ContentParser.parseSearchResults html)))
    as Hparse.
  { intros html. cbn [pagination ContentParser.parseSearchResults].
    unfold ContentParser.parsePagination.
    destruct (ContentParser.matchCount (resultsCountText html)) as [m|] eqn:Hm.
    - destruct (parseInt_matchCount _ _ Hm) as (n & -> & Hn).
      destruct (paginated_pagesOf n Hn) as (Hsize & Hint & Hge & Hexact).
      by repeat split.
    - destruct (paginated_pagesOf 0 ltac:(lia)) as (Hsize & Hint & Hge & Hexact).
      by repeat split. }
  split; [exact Hparse|].
  intros net query options response Hsearch.
  apply tryCatch_Returns in Hsearch.
  destruct (negb _ && _); [done|].
  apply bind_Returns in Hsearch as (r & _ & Hsearch).
  apply bind_Returns in Hsearch as (html & _ & Hsearch).
  destruct (status r =? 404)%Z.
  { injection Hsearch as <-. cbn [pagination].
    destruct (paginated_pagesOf 0 ltac:(lia)) as (Hsize & Hint & Hge & Hexact).
    by repeat split. }
  destruct (_ || _); [done|].
  injection Hsearch as <-. cbn [pagination]. exact (Hparse html).
Qed.

(** A scraper for pages that are nothing but their count badge. *)
Definition badgeScraping : Scraping :=
  {| scrapeResults := fun _ => [];
     resultsCountText := fun html => html;
     selectedPageText := fun _ => "2";
     parseDocument := fun _ _ => Throws (newError "Failed to parse document: no content");
     formatContent := fun _ content => content |}.

Definition badgePage : Response :=
  {| status := 200; text := Returns ("1,234 results" : jsstring);
     json := Throws (newError "Unexpected token") |}.

Definition badgeNetwork : Network := fun _ _ => Responds badgePage.

Definition badgeResponse : SearchResponse :=
  {| results := [];
     pagination := {| totalResults := 1234; pageSize := 40; totalPages := 31;
                      currentPage := Some 2%Z |} |}.

Example search_badge :
  @WOLService.search referencePlatform sampleLanguages badgeScraping
    badgeNetwork "faith" noOptions
  = Returns badgeResponse.
Proof. vm_compute. reflexivity. Qed.

Lemma pagination_totalPages_witness :
  pageSize (pagination badgeResponse) = 40%float
  /\ PrimFloat.leb 1 (totalPages (pagination badgeResponse)) = true
  /\ totalPages (pagination badgeResponse) = Num.ofZ (Z.max 1 (ceilDiv 1234 40)).
Proof.
  destruct (proj2 (@pagination_totalPages referencePlatform sampleLanguages badgeScraping)
              badgeNetwork "faith" noOptions badgeResponse search_badge)
    as (Hsize & _ & Hge & Hexact).
  split; [exact Hsize|]. split; [exact Hge|].
  apply (Hexact 1234%Z); [lia|]. vm_compute. reflexivity.
Defined.

(** C7 as stated fails from 2^53 on, where the quotient is rounded before
    the ceiling is taken.  The total 90071992547409968 is a Number as it
    stands, the quotient by 40 is rounded down to an integer, and the pages
    are one fewer than the ceiling of the exact quotient. *)
Lemma pagination_totalPages_counterexample :
  totalResults (@ContentParser.parsePagination badgeScraping "90071992547409968 results")
  = Num.ofZ 90071992547409968
  /\ Prim2SF (Num.ofZ 90071992547409968)
     = S754_finite false 5629499534213123 4
  /\ (5629499534213123 * 2 ^ 4 = 90071992547409968)%Z
  /\ Z.max 1 (ceilDiv 90071992547409968 40) = 2251799813685250%Z
  /\ totalPages (@ContentParser.parsePagination badgeScraping "90071992547409968 results")
     = Num.ofZ 2251799813685249
  /\ totalPages (@ContentParser.parsePagination badgeScraping "90071992547409968 results")
     <> Num.ofZ (Z.max 1 (ceilDiv 90071992547409968 40)).
Proof.
  split; [by vm_compute|]. split; [by vm_compute|]. split; [done|].
  split; [by vm_compute|]. split; [by vm_compute|].
  intros Heq. apply (f_equal Prim2SF) in Heq. vm_compute in Heq. discriminate Heq.
Qed.

(** ** Document URLs *)

(** [s] contains [needle], read without regard to letter case. *)
Definition containsAnyCase (needle s : jsstring) : Prop :=
  exists pre mid post, s = pre ++ mid ++ post /\ JS.foldCase mid = needle.

Lemma isDocumentPath_spec pathname :
  URLBuilder.isDocumentPath pathname = true
  <-> containsAnyCase "/wol/d/" pathname.
Proof.
  unfold URLBuilder.isDocumentPath, containsAnyCase, JS.foldCase.
  rewrite includes_spec. split.
  - intros (pre & post & Hmap).
    apply map_app_inv in Hmap as (l1 & l23 & -> & _ & Hmap).
    apply map_app_inv in Hmap as (l2 & l3 & -> & Hmid & _). eauto.
  - intros (pre & mid & post & -> & <-).
    exists (map JS.foldChar pre), (map JS.foldChar post).
    by rewrite !map_app.
Qed.

(** A library host: a name inside the [jw.org] domain, that is one that
    ends with [.jw.org], which contains [wol]; letter case does not
    count. *)
Definition libraryHost (hostname : jsstring) : Prop :=
  (exists pre, JS.toLowerCase hostname = pre ++ ".jw.org")
  /\ exists pre post, JS.toLowerCase hostname = pre ++ "wol" ++ post.

(** What the code asks of a host: lower-cased, it ends with [jw.org], with
    or without a dot before it, and contains [wol]. *)
Lemma isWolHost_spec hostname :
  URLBuilder.isWolHost hostname = true
  <-> (exists pre, JS.toLowerCase hostname = pre ++ "jw.org")
      /\ exists pre post, JS.toLowerCase hostname = pre ++ "wol" ++ post.
Proof.
  unfold URLBuilder.isWolHost.
  by rewrite andb_true_iff, endsWith_spec, includes_spec.
Qed.

Lemma libraryHost_isWolHost hostname :
  libraryHost hostname -> URLBuilder.isWolHost hostname = true.
Proof.
  intros [[pre Hpre] Hwol]. apply isWolHost_spec. split; [|done].
  exists (pre ++ "."). by rewrite <- app_assoc.
Qed.

(** What an accepted input is turned into. *)
Lemma validateAndNormalizeDocumentURL_accepted `{Platform} urlString parsed :
  URL_new urlString = Some parsed ->
  URLBuilder.isWolHost (URL_hostname parsed) = true ->
  URLBuilder.isDocumentPath (URL_pathname parsed) = true ->
  exists canonical,
    URLBuilder.validateAndNormalizeDocumentURL urlString
    = Returns (URL_toString canonical)
    /\ URL_searchParams canonical
       = List.filter (fun kv => bool_decide (kv.1 = ("q" : jsstring)
                                             \/ kv.1 = ("p" : jsstring)))
           (URL_searchParams parsed)
    /\ URL_hostname canonical = URL_hostname parsed
    /\ URL_pathname canonical = URL_pathname parsed.
Proof.
  intros Hnew Hhost Hpath.
  unfold URLBuilder.validateAndNormalizeDocumentURL.
  rewrite Hnew, Hhost, Hpath. simpl.
  set (clean := URLBuilder.cleanParams (URL_searchParams parsed)).
  assert (clean = List.filter
            (fun kv => bool_decide (kv.1 = ("q" : jsstring)
                                    \/ kv.1 = ("p" : jsstring)))
            (URL_searchParams parsed)) as Hclean.
  { unfold clean, URLBuilder.cleanParams. apply filter_ext. intros [k v].
    unfold URLBuilder.allowed. simpl.
    repeat case_bool_decide; simpl; tauto. }
  eexists. split; [reflexivity|].
  assert (URL_searchParams
            (URL_setSearch parsed
               (if JS.truthy (URLSearchParams_toString clean)
                then "?"%char :: URLSearchParams_toString clean else []))
          = clean) as Hparams.
  { destruct (URLSearchParams_toString clean) as [|c s] eqn:Hser.
    - apply URLSearchParams_toString_nil in Hser. rewrite Hser.
      apply URL_searchParams_clearSearch.
    - simpl. rewrite <- Hser. apply URL_searchParams_setSearch.
      intros Hnil%URLSearchParams_toString_nil. congruence. }
  rewrite Hparams. split; [exact Hclean|].
  split; [apply URL_hostname_setSearch | apply URL_pathname_setSearch].
Qed.

(** C8, amended.  Whatever input is accepted parses as a URL, and the
    result is the serialisation of a URL with the same host and path whose
    query parameters are exactly those of the input named [q] or [p], in
    the input's order and with their values.  A URL with a library host
    and a path that contains [/wol/d/] in any letter case is accepted.  An
    input that does not parse as a URL is rejected, and so is a URL whose
    host does not end with [jw.org] or does not contain [wol], or whose path
    does not contain [/wol/d/] in any letter case.  Nothing is said of the
    hosts that end with [jw.org] outside the domain. *)
Theorem validateAndNormalizeDocumentURL_canonical `{Platform} (urlString : jsstring) :
  (forall result,
     URLBuilder.validateAndNormalizeDocumentURL urlString = Returns result ->
     exists parsed canonical,
       URL_new urlString = Some parsed
       /\ result = URL_toString canonical
       /\ URL_searchParams canonical
          = List.filter (fun kv => bool_decide (kv.1 = ("q" : jsstring)
                                                \/ kv.1 = ("p" : jsstring)))
              (URL_searchParams parsed)
       /\ (forall k v,
             In (k, v) (URL_searchParams canonical)
             <-> In (k, v) (URL_searchParams parsed)
                 /\ (k = ("q" : jsstring) \/ k = ("p" : jsstring)))
       /\ URL_hostname canonical = URL_hostname parsed
       /\ URL_pathname canonical = URL_pathname parsed)
  /\ (forall parsed,
        URL_new urlString = Some parsed ->
        libraryHost (URL_hostname parsed) ->
        containsAnyCase "/wol/d/" (URL_pathname parsed) ->
        exists result,
          URLBuilder.validateAndNormalizeDocumentURL urlString = Returns result)
  /\ (URL_new urlString = None ->
      exists e, URLBuilder.validateAndNormalizeDocumentURL urlString = Throws e)
  /\ (forall parsed,
        URL_new urlString = Some parsed ->
        ~ (exists pre, JS.toLowerCase (URL_hostname parsed) = pre ++ "jw.org")
        \/ ~ (exists pre post,
                JS.toLowerCase (URL_hostname parsed) = pre ++ "wol" ++ post)
        \/ ~ containsAnyCase "/wol/d/" (URL_pathname parsed) ->
        exists e, URLBuilder.validateAndNormalizeDocumentURL urlString = Throws e).
Proof.
  split; [|split; [|split]].
  - intros result Hresult.
    destruct (URL_new urlString) as [parsed|] eqn:Hnew.
    2:{ unfold URLBuilder.validateAndNormalizeDocumentURL in Hresult.
        by rewrite Hnew in Hresult. }
    destruct (URLBuilder.isWolHost (URL_hostname parsed)) eqn:Hhost.
    2:{ unfold URLBuilder.validateAndNormalizeDocumentURL in Hresult.
        by rewrite Hnew, Hhost in Hresult. }
    destruct (URLBuilder.isDocumentPath (URL_pathname parsed)) eqn:Hpath.
    2:{ unfold URLBuilder.validateAndNormalizeDocumentURL in Hresult.
        by rewrite Hnew, Hhost, Hpath in Hresult. }
    destruct (validateAndNormalizeDocumentURL_accepted _ _ Hnew Hhost Hpath)
      as (canonical & Heq & Hparams & Hh & Hp).
    rewrite Heq in Hresult. injection Hresult as <-.
    exists parsed, canonical.
    split; [done|]. split; [done|]. split; [done|]. split; [|done].
    intros k v. rewrite Hparams, filter_In. simpl.
    by rewrite bool_decide_eq_true.
  - intros parsed Hnew Hhost%libraryHost_isWolHost Hpath%isDocumentPath_spec.
    destruct (validateAndNormalizeDocumentURL_accepted _ _ Hnew Hhost Hpath)
      as (canonical & Heq & _). eauto.
  - intros Hnew. unfold URLBuilder.validateAndNormalizeDocumentURL.
    rewrite Hnew. eauto.
  - intros parsed Hnew Hbad. unfold URLBuilder.validateAndNormalizeDocumentURL.
    rewrite Hnew.
    destruct (URLBuilder.isWolHost _) eqn:Hhost; simpl; [|eauto].
    destruct (URLBuilder.isDocumentPath _) eqn:Hpath; simpl; [|eauto].
    apply isWolHost_spec in Hhost as [Hends Hwol].
    apply isDocumentPath_spec in Hpath. tauto.
Qed.

Definition documentUrl : Reference.url :=
  {| Reference.scheme := "https"; Reference.host := "wol.jw.org";
     Reference.port := []; Reference.path := "/en/wol/d/r1/lp-e/1102008070";
     Reference.query := Some ("q=faith&utm=x&p=par" : jsstring);
     Reference.fragment := Some ("h=3" : jsstring) |}.

Example validateAndNormalizeDocumentURL_example :
  @URLBuilder.validateAndNormalizeDocumentURL referencePlatform
    "https://wol.jw.org/en/wol/d/r1/lp-e/1102008070?q=faith&utm=x&p=par#h=3"
  = Returns ("https://wol.jw.org/en/wol/d/r1/lp-e/1102008070?q=faith&p=par#h=3" : jsstring)
  /\ @URLBuilder.validateAndNormalizeDocumentURL referencePlatform
       "https://wol.jw.org/en/wol/d/r1/lp-e/1102008070?utm=x"
     = Returns ("https://wol.jw.org/en/wol/d/r1/lp-e/1102008070" : jsstring).
Proof. split; vm_compute; reflexivity. Qed.

Lemma documentUrl_libraryHost : libraryHost (Reference.host documentUrl).
Proof.
  split; [by exists ("wol" : jsstring) | by exists [], (".jw.org" : jsstring)].
Qed.

Lemma documentUrl_documentPath :
  containsAnyCase "/wol/d/" (Reference.path documentUrl).
Proof.
  by exists ("/en" : jsstring), ("/wol/d/" : jsstring), ("r1/lp-e/1102008070" : jsstring).
Qed.

Lemma validateAndNormalizeDocumentURL_canonical_witness :
  (exists result,
     @URLBuilder.validateAndNormalizeDocumentURL referencePlatform
       "https://wol.jw.org/en/wol/d/r1/lp-e/1102008070?q=faith&utm=x&p=par#h=3"
     = Returns result)
  /\ exists parsed canonical,
       @URL_new referencePlatform
         "https://wol.jw.org/en/wol/d/r1/lp-e/1102008070?q=faith&utm=x&p=par#h=3"
       = Some parsed
       /\ ("https://wol.jw.org/en/wol/d/r1/lp-e/1102008070?q=faith&p=par#h=3" : jsstring)
          = @URL_toString referencePlatform canonical
       /\ @URL_searchParams referencePlatform canonical
          = List.filter (fun kv => bool_decide (kv.1 = ("q" : jsstring)
                                                \/ kv.1 = ("p" : jsstring)))
              (@URL_searchParams referencePlatform parsed)
       /\ (forall k v,
             In (k, v) (@URL_searchParams referencePlatform canonical)
             <-> In (k, v) (@URL_searchParams referencePlatform parsed)
                 /\ (k = ("q" : jsstring) \/ k = ("p" : jsstring)))
       /\ @URL_hostname referencePlatform canonical = @URL_hostname referencePlatform parsed
       /\ @URL_pathname referencePlatform canonical = @URL_pathname referencePlatform parsed.
Proof.
  split.
  - exact (proj1 (proj2 (@validateAndNormalizeDocumentURL_canonical referencePlatform
             "https://wol.jw.org/en/wol/d/r1/lp-e/1102008070?q=faith&utm=x&p=par#h=3"))
             documentUrl eq_refl documentUrl_libraryHost documentUrl_documentPath).
  - apply (proj1 (@validateAndNormalizeDocumentURL_canonical referencePlatform
             "https://wol.jw.org/en/wol/d/r1/lp-e/1102008070?q=faith&utm=x&p=par#h=3")).
    exact (proj1 validateAndNormalizeDocumentURL_example).
Defined.

(** C8 as stated fails in two ways.  A path without [/wol/d/] as written,
    but with it in capitals, is accepted.  And a host outside the [jw.org]
    domain whose name ends with [jw.org] and contains [wol] is no library
    host, and is accepted. *)
Lemma validateAndNormalizeDocumentURL_counterexample :
  (exists parsed,
     Reference.newURL "https://wol.jw.org/en/WOL/D/r1/lp-e/1102008070?q=faith&utm=x"
     = Some parsed
     /\ JS.includes "/wol/d/" (Reference.path parsed) = false
     /\ @URLBuilder.validateAndNormalizeDocumentURL referencePlatform
          "https://wol.jw.org/en/WOL/D/r1/lp-e/1102008070?q=faith&utm=x"
        = Returns ("https://wol.jw.org/en/WOL/D/r1/lp-e/1102008070?q=faith" : jsstring))
  /\ (exists parsed,
        Reference.newURL "https://evilwoljw.org/en/wol/d/r1/lp-e/1102008070"
        = Some parsed
        /\ Reference.host parsed = ("evilwoljw.org" : jsstring)
        /\ ~ libraryHost (Reference.host parsed)
        /\ @URLBuilder.validateAndNormalizeDocumentURL referencePlatform
             "https://evilwoljw.org/en/wol/d/r1/lp-e/1102008070"
           = Returns ("https://evilwoljw.org/en/wol/d/r1/lp-e/1102008070" : jsstring)).
Proof.
  split.
  - eexists. repeat split; vm_compute; reflexivity.
  - eexists. split; [vm_compute; reflexivity|]. split; [reflexivity|].
    split; [|vm_compute; reflexivity].
    intros [Hdomain%endsWith_spec _]. vm_compute in Hdomain. discriminate Hdomain.
Qed.

(** ** Format masking *)

(** A string with a character that is not white space. *)
Definition solid (s : jsstring) : bool :=
  existsb (fun c => negb (JS.isWhiteSpace c)) s.


Lemma solid_app_r s t : solid t = true -> solid (s ++ t) = true.
Proof. unfold solid. rewrite existsb_app. intros ->. apply orb_true_r. Qed.

Lemma solid_rev s : solid (rev s) = solid s.
Proof.
  unfold solid. apply eq_true_iff_eq. rewrite !existsb_exists.
  split; intros (c & Hc & Hws); exists c; split; try done;
    by apply in_rev in Hc || (apply in_rev; rewrite ?rev_involutive).
Qed.

Lemma dropWhile_solid s :
  solid s = true -> solid (JS.dropWhile JS.isWhiteSpace s) = true.
Proof.
  induction s as [|c s IH]; simpl; [done|].
  destruct (JS.isWhiteSpace c) eqn:Hws; simpl; [done|].
  by rewrite Hws.
Qed.

Lemma solid_trim s : solid s = true -> solid (JS.trim s) = true.
Proof.
  intros Hs. unfold JS.trim, JS.trimEnd, JS.trimStart.
  rewrite solid_rev. apply dropWhile_solid. rewrite solid_rev.
  by apply dropWhile_solid.
Qed.

Lemma trim_truthy_solid s : JS.truthy (JS.trim s) = true -> solid (JS.trim s) = true.
Proof.
  unfold JS.trim, JS.trimEnd. rewrite solid_rev.
  destruct (JS.trimStart (rev (JS.trimStart s))) as [|c r] eqn:Hdrop; [done|].
  intros _. apply dropWhile_head in Hdrop. simpl. by rewrite Hdrop.
Qed.


Lemma collectTextLines_solid inCue lines :
  Forall (fun l => solid l = true) (VideoService.collectTextLines inCue lines).
Proof.
  revert inCue. induction lines as [|line rest IH]; intros inCue; simpl;
    [constructor|].
  repeat (case_match; try apply IH).
  constructor; [|apply IH]. by apply trim_truthy_solid.
Qed.

Lemma joinSentences_solid lines result cs :
  Forall (fun l => solid l = true) lines ->
  solid cs = true \/ (cs = [] /\ lines <> []) ->
  solid (VideoService.joinSentences lines result cs).2 = true.
Proof.
  intros Hlines. revert result cs.
  induction Hlines as [|line rest Hline Hrest IH]; intros result cs Hcs; simpl.
  - by destruct Hcs as [?|[_ ?]].
  - destruct (JS.endsWith line cs) eqn:Hends.
    + apply IH. left. destruct Hcs as [?|[-> _]]; [done|].
      apply endsWith_spec in Hends as [pre Hpre].
      symmetry in Hpre. apply app_eq_nil in Hpre as [_ ->]. done.
    + destruct (JS.truthy cs && negb (VideoService.endsSentence cs)).
      * apply IH. left. apply solid_app_r.
        exact (solid_app_r [" "%char] line Hline).
      * destruct (JS.truthy cs); apply IH; by left.
Qed.





(** A character of plain words: a letter, a digit, a space, or one of the
    marks [. , ! ? ' -]. *)
Definition isWordsChar (c : ascii) : bool :=
  JS.isAlnum c || existsb (Ascii.eqb c) (" .,!?'-" : jsstring).

(** A line of plain words: characters of plain words only, a small letter
    among them. *)
Definition plainWords (line : jsstring) : bool :=
  forallb isWordsChar line && existsb JS.isLower line.

(** A cue that says something: one of its lines is a line of plain words,
    and no line before it in the cue reads [WEBVTT]. *)
Definition speaks (c : Cue) : Prop :=
  exists earlier line later,
    payload c = earlier ++ line :: later
    /\ plainWords line = true
    /\ Forall (fun l => JS.trim l <> ("WEBVTT" : jsstring)) earlier.






Lemma plainWords_solid line : plainWords line = true -> solid line = true.
Proof.
  intros [_ (c & Hin & Hc)%existsb_exists]%andb_true_iff.
  apply existsb_exists. exists c. split; [done|].
  revert Hc. clear. ascii_cases c; by vm_compute.
Qed.



















(** An upstream that serves one video with the sample subtitles. *)
Definition sampleSubtitles : Subtitles :=
  {| sub_url := "https://cdn.example/jwbvod25_E_41.vtt";
     modifiedDatetime := "2025-01-01"; checksum := "0" |}.

Definition sampleFile : PubMediaVideoFile :=
  {| pm_title := "Sample"; pm_label := "720p"; pm_duration := 30%float;
     pm_subtitles := Some sampleSubtitles; pm_trackImage := None |}.

Definition sampleMedia : PubMediaResponse :=
  {| pubName := "JW Broadcasting"; pm_pub := "jwbvod25"; pm_track := 41%float;
     files := {[ ("E" : jsstring) := {| MP4 := Some [sampleFile] |} ]} |}.

Definition mediaNetwork : Network :=
  fun url _ =>
    if JS.startsWith VideoService.JW_PUBMEDIA_API url
    then Responds {| status := 200; text := Returns [];
                     json := Returns sampleMedia |}
    else Responds {| status := 200; text := Returns sampleVtt;
                     json := Throws fetchFailed |}.




(** The first cue of the sample says something. *)
Example helloCue_speaks : In helloCue (cuesOf sampleVtt) /\ speaks helloCue.
Proof.
  split; [rewrite cuesOf_sampleVtt; by left|].
  exists [], ("Hello" : jsstring), [("world" : jsstring)]. by repeat split.
Qed.




Example getVideoSubtitles_masks :
  (exists r,
     @VideoService.getVideoSubtitles referencePlatform mediaNetwork
       "https://www.jw.org/finder?lank=pub-jwbvod25_41_VIDEO&wtlocale=E"
       "vtt" None None = Returns r
     /\ plainText (subtitles r) = []
     /\ rawVtt (subtitles r) = VideoService.cleanVtt sampleVtt)
  /\ (exists r,
        @VideoService.getVideoSubtitles referencePlatform mediaNetwork
          "https://www.jw.org/finder?lank=pub-jwbvod25_41_VIDEO&wtlocale=E"
          "text" (Some 16%float) None = Returns r
        /\ rawVtt (subtitles r) = []
        /\ plainText (subtitles r) = ("Bye" : jsstring)).
Proof. split; eexists; vm_compute; repeat split; reflexivity. Qed.

(** ** Plain-text conversion *)

(** Two cues; the second fragment ends the first. *)
Definition suffixVtt : jsstring :=
  JS.join [LF]
    [("WEBVTT" : jsstring); [];
     ("00:01.000 --> 00:02.000" : jsstring); ("I said no" : jsstring); [];
     ("00:02.000 --> 00:03.000" : jsstring); ("no" : jsstring); []].

(** The same cues with a second fragment that is not a suffix. *)
Definition controlVtt : jsstring :=
  JS.join [LF]
    [("WEBVTT" : jsstring); [];
     ("00:01.000 --> 00:02.000" : jsstring); ("I said yes" : jsstring); [];
     ("00:02.000 --> 00:03.000" : jsstring); ("no" : jsstring); []].

(** C10.  In the joining loop of [vttToPlainText] a fragment is skipped
    exactly when the sentence accumulated so far ends with it, whatever the
    previous fragment was.  So a fragment that differs from the one before
    it but is a suffix of the accumulated sentence is left out of the text:
    the cues "I said no" and "no" give "I said no", while "I said yes" and
    "no" give "I said yes no". *)
Theorem vttToPlainText_drops_suffix_fragment :
  (forall line rest result currentSentence,
     (exists before, currentSentence = before ++ line) ->
     VideoService.joinSentences (line :: rest) result currentSentence
     = VideoService.joinSentences rest result currentSentence)
  /\ (forall line rest result currentSentence,
        ~ (exists before, currentSentence = before ++ line) ->
        exists result' currentSentence',
          VideoService.joinSentences (line :: rest) result currentSentence
          = VideoService.joinSentences rest result' currentSentence'
          /\ exists before, currentSentence' = before ++ line)
  /\ VideoService.textLinesOf suffixVtt
     = [("I said no" : jsstring); ("no" : jsstring)]
  /\ VideoService.vttToPlainText suffixVtt = ("I said no" : jsstring)
  /\ VideoService.vttToPlainText controlVtt = ("I said yes no" : jsstring).
Proof.
  split; [|split; [|repeat split; vm_compute; reflexivity]].
  - intros line rest result cs Hsuffix. apply endsWith_spec in Hsuffix.
    simpl. by rewrite Hsuffix.
  - intros line rest result cs Hsuffix.
    assert (JS.endsWith line cs = false) as Hends.
    { destruct (JS.endsWith line cs) eqn:E; [|done].
      apply endsWith_spec in E. done. }
    simpl. rewrite Hends.
    destruct (JS.truthy cs && negb (VideoService.endsSentence cs)).
    + eexists _, _. split; [reflexivity|].
      exists (cs ++ " "). by rewrite <- app_assoc.
    + destruct (JS.truthy cs); eexists _, _; (split; [reflexivity|]);
        by exists [].
Qed.

Lemma vttToPlainText_drops_suffix_fragment_witness :
  VideoService.joinSentences [("no" : jsstring)] [] "I said no"
  = VideoService.joinSentences [] [] "I said no".
Proof.
  exact (proj1 vttToPlainText_drops_suffix_fragment
           "no" [] [] "I said no" (ex_intro _ ("I said " : jsstring) eq_refl)).
Defined.

(** * Further properties of the code *)

(** ** The encoding of the operators *)

Definition encodedOperator (c : ascii) : jsstring :=
  match c with
  | "&"%char => "%2526"
  | "+"%char => "%252B"
  | "|"%char => "%257C"
  | "/"%char => "%252F"
  | "^"%char => "%255E"
  | "%"%char => "%25"
  | "!"%char => "%21"
  | "034"%char => "%22"
  | "*"%char => "%2A"
  | "?"%char => "%3F"
  | "#"%char => "%23"
  | "\"%char => "%5C"
  | "("%char => "%28"
  | ")"%char => "%29"
  | _ => [c]
  end.

Lemma replaceAllChar_app c rep s t :
  JS.replaceAllChar c rep (s ++ t)
  = JS.replaceAllChar c rep s ++ JS.replaceAllChar c rep t.
Proof. apply flat_map_app. Qed.

Lemma encodeOperators_app s t :
  SearchOperatorParser.encodeOperators (s ++ t) = SearchOperatorParser.encodeOperators s ++ SearchOperatorParser.encodeOperators t.
Proof. unfold SearchOperatorParser.encodeOperators. by rewrite !replaceAllChar_app. Qed.

Lemma encodeOperators_single c : SearchOperatorParser.encodeOperators [c] = encodedOperator c.
Proof. ascii_cases c; vm_compute; reflexivity. Qed.

Lemma encodeOperators_cons c s :
  SearchOperatorParser.encodeOperators (c :: s) = encodedOperator c ++ SearchOperatorParser.encodeOperators s.
Proof.
  change (c :: s) with ([c] ++ s).
  by rewrite encodeOperators_app, encodeOperators_single.
Qed.

Definition isOperator (c : ascii) : bool :=
  existsb (Ascii.eqb c) ("&+|/^!*?#\()" : jsstring) || Ascii.eqb c "034".

(** X1.  [encodeOperators] works character by character, by the table
    [encodedOperator]: the ampersand, the plus sign, the bar, the slash and
    the caret come out encoded twice ([%2526], [%252B], [%257C], [%252F],
    [%255E]), since the percent sign of their own replacement is replaced
    after them; the percent sign and the eight operators replaced after it
    come out encoded once; every other character is kept.  The result holds
    no operator character other than the percent sign. *)
Theorem encodeOperators_table (query : jsstring) :
  SearchOperatorParser.encodeOperators query = flat_map encodedOperator query
  /\ forallb (fun c => negb (isOperator c)) (SearchOperatorParser.encodeOperators query) = true.
Proof.
  split.
  - induction query as [|c s IH]; [reflexivity|].
    rewrite encodeOperators_cons, IH. reflexivity.
  - induction query as [|c s IH]; [reflexivity|].
    rewrite encodeOperators_cons, forallb_app, IH, andb_true_r.
    ascii_cases c; vm_compute; reflexivity.
Qed.

(** X2.  [encodeOperators] does not tell one of the five operators replaced
    before the percent sign from its percent-encoding written out in the
    query: the two queries are encoded to the same text. *)
Theorem encodeOperators_conflates (before after : jsstring) :
  SearchOperatorParser.encodeOperators (before ++ "&" ++ after) = SearchOperatorParser.encodeOperators (before ++ "%26" ++ after)
  /\ SearchOperatorParser.encodeOperators (before ++ "+" ++ after) = SearchOperatorParser.encodeOperators (before ++ "%2B" ++ after)
  /\ SearchOperatorParser.encodeOperators (before ++ "|" ++ after) = SearchOperatorParser.encodeOperators (before ++ "%7C" ++ after)
  /\ SearchOperatorParser.encodeOperators (before ++ "/" ++ after) = SearchOperatorParser.encodeOperators (before ++ "%2F" ++ after)
  /\ SearchOperatorParser.encodeOperators (before ++ "^" ++ after) = SearchOperatorParser.encodeOperators (before ++ "%5E" ++ after).
Proof.
  repeat split; rewrite !encodeOperators_app; do 2 f_equal.
Qed.

(** ** Query validation in [search] *)

Definition unlisted : jsstring := ".,:;'<>=@[]{}~$`".

Lemma forallb_false_In {A} (p : A -> bool) x xs :
  In x xs -> p x = false -> forallb p xs = false.
Proof.
  intros Hin Hp. destruct (forallb p xs) eqn:Hall; [|done].
  rewrite forallb_forall in Hall. rewrite (Hall _ Hin) in Hp. done.
Qed.

Lemma validateOperators_unlisted query c :
  In c query -> In c unlisted -> SearchOperatorParser.validateOperators query = false.
Proof.
  intros Hin Hc. unfold SearchOperatorParser.validateOperators.
  apply andb_false_iff. right. apply (forallb_false_In _ c); [done|].
  unfold unlisted in Hc. simpl in Hc.
  repeat (destruct Hc as [<-|Hc]; [vm_compute; reflexivity|]). done.
Qed.

(** X3.  With [useOperators] set, [search] throws [INVALID_QUERY] for the empty
    query and for every query that holds one of the characters of
    [unlisted] (the full stop, the comma, the colon and the like), whatever
    the network, the page scraper and the other options are. *)
Theorem search_rejects_unlisted_character `{Platform} `{WolLanguages} `{Scraping}
    (net : Network) (query : jsstring) (options : SearchOptions) :
  useOperators options = Some true ->
  query = [] \/ (exists c, In c query /\ In c unlisted) ->
  WOLService.search net query options
  = Throws (createWOLError INVALID_QUERY "Invalid characters or operators in query").
Proof.
  intros Huse Hquery. unfold WOLService.search.
  assert (SearchOperatorParser.validateOperators query = false) as ->.
  { destruct Hquery as [->|(c & Hin & Hc)]; [reflexivity|].
    by apply (validateOperators_unlisted _ c). }
  rewrite Huse. reflexivity.
Qed.

Lemma search_rejects_unlisted_character_witness :
  @WOLService.search referencePlatform sampleLanguages noScraping
    notFoundNetwork "1 John 4:8" somePage
  = Throws (createWOLError INVALID_QUERY "Invalid characters or operators in query").
Proof.
  apply (@search_rejects_unlisted_character referencePlatform sampleLanguages
           noScraping notFoundNetwork "1 John 4:8" somePage eq_refl).
  right. exists ":"%char. split; vm_compute; tauto.
Defined.

Definition withUseOperators (o : SearchOptions) (u : option bool) : SearchOptions :=
  {| useOperators := u; scope := scope o; publications := publications o;
     language := language o; limit := limit o; sort := sort o; page := page o |}.

(** X4.  The option [useOperators] takes part in the validation and in nothing
    else: for a query that [validateOperators] accepts, and for any query
    when the option is not [true] on either side, [search] gives the same
    outcome whatever the option is set to. *)
Theorem search_useOperators_only_validates `{Platform} `{WolLanguages} `{Scraping}
    (net : Network) (query : jsstring) (options : SearchOptions) (u : option bool) :
  SearchOperatorParser.validateOperators query = true
  \/ (useOperators options <> Some true /\ u <> Some true) ->
  WOLService.search net query (withUseOperators options u)
  = WOLService.search net query options.
Proof.
  intros Hvalid. unfold WOLService.search.
  assert (URLBuilder.buildSearchURL query (withUseOperators options u)
          = URLBuilder.buildSearchURL query options) as -> by reflexivity.
  assert (negb (SearchOperatorParser.validateOperators query)
            && bool_decide (useOperators (withUseOperators options u) = Some true)
          = false) as ->.
  { destruct Hvalid as [->|[_ Hu]]; [reflexivity|].
    simpl. rewrite bool_decide_false by done. apply andb_false_r. }
  assert (negb (SearchOperatorParser.validateOperators query)
            && bool_decide (useOperators options = Some true)
          = false) as ->.
  { destruct Hvalid as [->|[Hu _]]; [reflexivity|].
    rewrite bool_decide_false by done. apply andb_false_r. }
  reflexivity.
Qed.

Lemma search_useOperators_only_validates_witness :
  @WOLService.search referencePlatform sampleLanguages badgeScraping
    badgeNetwork "faith" (withUseOperators noOptions (Some true))
  = @WOLService.search referencePlatform sampleLanguages badgeScraping
      badgeNetwork "faith" noOptions.
Proof.
  apply (@search_useOperators_only_validates referencePlatform sampleLanguages
           badgeScraping badgeNetwork "faith" noOptions (Some true)).
  left. vm_compute. reflexivity.
Defined.

(** ** The results [search] returns *)

Lemma filter_filter_disjoint {A} (p q : A -> bool) xs :
  (forall x, q x = true -> p x = false) ->
  List.filter p (List.filter q xs) = [].
Proof.
  intros Hpq. induction xs as [|x xs IH]; simpl; [done|].
  destruct (q x) eqn:Hq; [|done]. simpl. by rewrite (Hpq _ Hq).
Qed.

Lemma filter_idem {A} (p : A -> bool) xs :
  List.filter p (List.filter p xs) = List.filter p xs.
Proof.
  induction xs as [|x xs IH]; simpl; [done|].
  destruct (p x) eqn:Hp; [|done]. simpl. by rewrite Hp, IH.
Qed.

Lemma filter_all {A} (p : A -> bool) xs :
  Forall (fun x => p x = true) xs -> List.filter p xs = xs.
Proof. induction 1 as [|x xs Hx _ IH]; simpl; [done|]. by rewrite Hx, IH. Qed.

Lemma filter_none {A} (p : A -> bool) xs :
  Forall (fun x => p x = false) xs -> List.filter p xs = [].
Proof. induction 1 as [|x xs Hx _ IH]; simpl; [done|]. by rewrite Hx. Qed.

Lemma Forall_filter_true {A} (p : A -> bool) xs :
  Forall (fun x => p x = true) (List.filter p xs).
Proof.
  induction xs as [|x xs IH]; simpl; [constructor|].
  destruct (p x) eqn:Hp; [by constructor|done].
Qed.

Lemma In_take {A} (x : A) n xs : In x (take n xs) -> In x xs.
Proof.
  revert n. induction xs as [|y xs IH]; intros [|n]; simpl; try tauto.
  intros [->|Hx]; [by left|right; by eapply IH].
Qed.

(** The documents kept under [options.limit]. *)
Definition limited (limit : option Z) (documents : list SearchResult)
  : list SearchResult :=
  match limit with
  | None => documents
  | Some l =>
      if (l =? 0)%Z then documents
      else if (0 <? l)%Z then take (Z.to_nat l) documents
      else take (length documents - Z.to_nat (- l)) documents
  end.

Lemma key_not_document r :
  WOLService.isDocumentResult r = true -> WOLService.isKeyPublication r = false.
Proof.
  unfold WOLService.isDocumentResult, WOLService.isKeyPublication.
  by destruct (sr_resultType r) as [[]|].
Qed.

Lemma document_not_key r :
  WOLService.isKeyPublication r = true -> WOLService.isDocumentResult r = false.
Proof.
  unfold WOLService.isDocumentResult, WOLService.isKeyPublication.
  by destruct (sr_resultType r) as [[]|].
Qed.

Definition isResultPage (response : Response) : Prop :=
  status response <> 404%Z /\ status response <> 502%Z /\ status response <> 503%Z.

(** X6.  When the query is not rejected and the page obtained has a status other
    than 404, 502 and 503 and a body that can be read, [search] returns the
    pagination read from the page and, as results, all the key publications
    of the page followed by its document results cut by [limit]: the
    results of another type or of none are dropped, the order of the page is
    kept inside each group, and a positive limit bounds the document results
    only. *)
Theorem search_results_selected `{Platform} `{WolLanguages} `{Scraping}
    (net : Network) (query : jsstring) (options : SearchOptions)
    (response : Response) (html : jsstring) :
  reachesUpstream query options = true ->
  (WOLService.fetchWithRetry net (URLBuilder.buildSearchURL query options)
     WOLService.MAX_RETRIES).2 = Returns response ->
  text response = Returns html ->
  isResultPage response ->
  let keys := List.filter WOLService.isKeyPublication (scrapeResults html) in
  let documents := List.filter WOLService.isDocumentResult (scrapeResults html) in
  exists found,
    WOLService.search net query options = Returns found
    /\ pagination found = ContentParser.parsePagination html
    /\ results found = keys ++ limited (limit options) documents
    /\ List.filter WOLService.isKeyPublication (results found) = keys
    /\ List.filter WOLService.isDocumentResult (results found)
       = limited (limit options) documents
    /\ (forall r, In r (results found) ->
          In r (scrapeResults html)
          /\ (sr_resultType r = Some key_publication
              \/ sr_resultType r = Some document_result))
    /\ (forall l, limit options = Some l -> (0 < l)%Z ->
          length (limited (limit options) documents)
          = Nat.min (Z.to_nat l) (length documents)).
Proof.
  intros Hreach Hfetch Htext (H404 & H502 & H503) keys documents.
  unfold reachesUpstream in Hreach.
  apply negb_true_iff in Hreach.
  assert (Forall (fun r => WOLService.isDocumentResult r = true)
            (limited (limit options) documents)) as Hdocs.
  { unfold limited.
    repeat case_match; try apply Forall_take; apply Forall_filter_true. }
  eexists. split.
  { unfold WOLService.search. rewrite Hreach, Hfetch. simpl. rewrite Htext. simpl.
    rewrite (proj2 (Z.eqb_neq _ _) H404), (proj2 (Z.eqb_neq _ _) H502),
      (proj2 (Z.eqb_neq _ _) H503). simpl.
    fold keys documents.
    instantiate (1 := {| results := keys ++ limited (limit options) documents;
                         pagination := ContentParser.parsePagination html |}).
    do 2 f_equal. unfold limited, WOLService.slice0.
    destruct (limit options) as [l|]; [|done].
    destruct (l =? 0)%Z eqn:Hzero; [done|].
    destruct (0 <? l)%Z eqn:Hpos.
    - assert ((l <? 0)%Z = false) as -> by lia. done.
    - assert ((l <? 0)%Z = true) as -> by lia. done. }
  simpl. split; [done|]. split; [done|]. split; [|split; [|split]].
  - rewrite List.filter_app. unfold keys at 1. rewrite filter_idem.
    rewrite (filter_none WOLService.isKeyPublication (limited _ _)).
    + apply app_nil_r.
    + eapply Forall_impl; [exact Hdocs|]. apply key_not_document.
  - rewrite List.filter_app. unfold keys.
    rewrite filter_filter_disjoint by apply document_not_key.
    simpl. by apply filter_all.
  - intros r [Hr|Hr]%in_app_iff.
    + apply filter_In in Hr as [Hin Hkey]. split; [done|]. left.
      unfold WOLService.isKeyPublication in Hkey.
      by destruct (sr_resultType r) as [[]|].
    + assert (In r documents) as Hdoc.
      { revert Hr. unfold limited.
        repeat case_match; try done; apply In_take. }
      apply filter_In in Hdoc as [Hin Hdoc]. split; [done|]. right.
      unfold WOLService.isDocumentResult in Hdoc.
      by destruct (sr_resultType r) as [[]|].
  - intros l -> Hl. unfold limited.
    assert ((l =? 0)%Z = false) as -> by lia.
    assert ((0 <? l)%Z = true) as -> by lia.
    apply length_take.
Qed.

(** A page with one key publication and three documents. *)
Definition hit (title : jsstring) (type : ResultType) : SearchResult :=
  {| sr_title := title; sr_url := "https://wol.jw.org/en/wol/d/r1/lp-e/1";
     sr_snippet := []; sr_publication := "w"; sr_occurrences := None;
     sr_documentId := None; sr_resultType := Some type; sr_subheadings := None;
     sr_contextSnippets := None |}.

Definition listingScraping : Scraping :=
  {| scrapeResults := fun _ =>
       [hit "Faith" key_publication; hit "w23" document_result;
        hit "w22" document_result; hit "w21" document_result];
     resultsCountText := fun html => html;
     selectedPageText := fun _ => [];
     parseDocument := fun _ _ => Throws (newError "Failed to parse document: no content");
     formatContent := fun _ content => content |}.

Definition twoDocuments : SearchOptions :=
  {| useOperators := None; scope := None; publications := None;
     language := None; limit := Some 2%Z; sort := None; page := None |}.

Lemma search_results_selected_witness :
  exists found,
    @WOLService.search referencePlatform sampleLanguages listingScraping
      badgeNetwork "faith" twoDocuments = Returns found
    /\ results found
       = [hit "Faith" key_publication; hit "w23" document_result;
          hit "w22" document_result].
Proof.
  assert (isResultPage badgePage) as Hpage by (by repeat split).
  pose proof (@search_results_selected referencePlatform sampleLanguages
                listingScraping badgeNetwork "faith" twoDocuments badgePage
                "1,234 results" eq_refl eq_refl eq_refl Hpage) as Hw.
  cbv zeta in Hw. destruct Hw as (found & Hsearch & _ & Hresults & _).
  exists found. split; [exact Hsearch|exact Hresults].
Defined.

(** ** Upstream failures *)

Definition serviceUnavailable : JSError :=
  createWOLError SERVICE_UNAVAILABLE "WOL service temporarily unavailable".

(** X7.  For a query that is not rejected, [search] reads the body of the
    page it obtains before it looks at the status.  When the body is read
    and the status is 502 or 503 it throws [SERVICE_UNAVAILABLE]; when the
    body cannot be read it throws [NETWORK_ERROR] with the text of that
    error after [Search failed: ], whatever the status is, 502 and 503
    included; and when the three attempts are rejected it throws
    [NETWORK_ERROR] with the text of the last rejection.  The two wraps are
    those of errors that carry no code. *)
Theorem search_upstream_failures `{Platform} `{WolLanguages} `{Scraping}
    (net : Network) (query : jsstring) (options : SearchOptions) :
  reachesUpstream query options = true ->
  let searchUrl := URLBuilder.buildSearchURL query options in
  (forall response html,
     (WOLService.fetchWithRetry net searchUrl WOLService.MAX_RETRIES).2
     = Returns response ->
     text response = Returns html ->
     status response = 502%Z \/ status response = 503%Z ->
     WOLService.search net query options = Throws serviceUnavailable)
  /\ (forall response e,
        (WOLService.fetchWithRetry net searchUrl WOLService.MAX_RETRIES).2
        = Returns response ->
        text response = Throws e -> code e = None ->
        WOLService.search net query options
        = Throws (createWOLError NETWORK_ERROR
                    ("Search failed: " ++ errorToString e)))
  /\ (forall e0 e1 e2,
        net searchUrl 0 = Rejects e0 -> net searchUrl 1 = Rejects e1 ->
        net searchUrl 2 = Rejects e2 -> code e2 = None ->
        WOLService.search net query options
        = Throws (createWOLError NETWORK_ERROR
                    ("Search failed: " ++ errorToString e2))).
Proof.
  intros Hreach searchUrl. unfold reachesUpstream in Hreach.
  apply negb_true_iff in Hreach. split; [|split].
  - intros response html Hfetch Htext Hstatus. unfold WOLService.search.
    fold searchUrl. rewrite Hreach, Hfetch. simpl. rewrite Htext. simpl.
    by destruct Hstatus as [-> | ->].
  - intros response e Hfetch Htext Hcode. unfold WOLService.search.
    fold searchUrl. rewrite Hreach, Hfetch. simpl. rewrite Htext. simpl.
    unfold rethrowOrWrap. by rewrite Hcode.
  - intros e0 e1 e2 H0' H1' H2' Hcode. unfold WOLService.search.
    fold searchUrl. rewrite Hreach.
    unfold WOLService.fetchWithRetry.
    rewrite (retryLoop_exhausted net searchUrl _ _ 0 e2); try done.
    + simpl. unfold rethrowOrWrap. by rewrite Hcode.
    + unfold WOLService.MAX_RETRIES. lia.
    + intros j Hj. unfold WOLService.MAX_RETRIES in Hj.
      assert (j = 0 \/ j = 1) as [-> | ->] by lia; eauto.
Qed.

Definition downNetwork : Network := fun _ _ => Rejects fetchFailed.

Lemma search_upstream_failures_witness :
  @WOLService.search referencePlatform sampleLanguages noScraping
    downNetwork "prayer" somePage
  = Throws (createWOLError NETWORK_ERROR "Search failed: TypeError: fetch failed").
Proof.
  exact (proj2 (proj2 (@search_upstream_failures referencePlatform
                         sampleLanguages noScraping downNetwork "prayer"
                         somePage eq_refl))
           fetchFailed fetchFailed fetchFailed eq_refl eq_refl eq_refl eq_refl).
Defined.

(** X8.  For a URL that [validateAndNormalizeDocumentURL] accepts and a response
    obtained for the normalised URL, [getDocumentByUrl] throws [NOT_FOUND]
    on status 404 and [SERVICE_UNAVAILABLE] on 502 and 503; on another
    status it returns the parsed document with its content formatted and
    its URL set to the normalised one, and wraps an error met while the
    body is read into [NETWORK_ERROR]. *)
Theorem getDocumentByUrl_by_status `{Platform} `{Scraping}
    (net : Network) (url format documentUrl : jsstring) (response : Response) :
  URLBuilder.validateAndNormalizeDocumentURL url = Returns documentUrl ->
  (WOLService.fetchWithRetry net documentUrl WOLService.MAX_RETRIES).2
  = Returns response ->
  (status response = 404%Z ->
   WOLService.getDocumentByUrl net url format
   = Throws (createWOLError NOT_FOUND "Document not found"))
  /\ (status response = 502%Z \/ status response = 503%Z ->
      WOLService.getDocumentByUrl net url format = Throws serviceUnavailable)
  /\ (isResultPage response ->
      forall html document,
        text response = Returns html ->
        parseDocument html documentUrl = Returns document ->
        exists found,
          WOLService.getDocumentByUrl net url format = Returns found
          /\ doc_url found = documentUrl
          /\ doc_content found = formatContent format (doc_content document)
          /\ doc_id found = doc_id document
          /\ doc_title found = doc_title document
          /\ doc_publication found = doc_publication document
          /\ doc_language found = doc_language document)
  /\ (isResultPage response ->
      forall e, text response = Throws e -> code e = None ->
        WOLService.getDocumentByUrl net url format
        = Throws (createWOLError NETWORK_ERROR
                    ("Document retrieval failed: " ++ errorToString e))).
Proof.
  intros Hvalid Hfetch. unfold WOLService.getDocumentByUrl.
  rewrite Hvalid. simpl. rewrite Hfetch. simpl.
  split; [by intros ->|]. split; [by intros [-> | ->]|].
  split.
  - intros (H404 & H502 & H503) html document Htext Hparse.
    rewrite (proj2 (Z.eqb_neq _ _) H404), (proj2 (Z.eqb_neq _ _) H502),
      (proj2 (Z.eqb_neq _ _) H503). simpl.
    rewrite Htext. simpl. rewrite Hparse. simpl. eexists. split; [reflexivity|].
    by repeat split.
  - intros (H404 & H502 & H503) e Htext Hcode.
    rewrite (proj2 (Z.eqb_neq _ _) H404), (proj2 (Z.eqb_neq _ _) H502),
      (proj2 (Z.eqb_neq _ _) H503). simpl.
    rewrite Htext. simpl. unfold rethrowOrWrap. by rewrite Hcode.
Qed.

Lemma getDocumentByUrl_by_status_witness :
  @WOLService.getDocumentByUrl referencePlatform noScraping notFoundNetwork
    "https://wol.jw.org/en/wol/d/r1/lp-e/1102008070?utm=x" "markdown"
  = Throws (createWOLError NOT_FOUND "Document not found").
Proof.
  refine (proj1 (@getDocumentByUrl_by_status referencePlatform noScraping
                   notFoundNetwork
                   "https://wol.jw.org/en/wol/d/r1/lp-e/1102008070?utm=x"
                   "markdown" "https://wol.jw.org/en/wol/d/r1/lp-e/1102008070"
                   notFound _ _) eq_refl).
  - vm_compute. reflexivity.
  - reflexivity.
Defined.

(** ** The retry loop for any number of retries *)

(** The milliseconds a run spends in back-off pauses. *)
Definition pauseOf (evs : list Event) : Z :=
  fold_right (fun ev acc => match ev with EvSleep ms => ms + acc | _ => acc end)%Z
    0%Z evs.

Definition maxRetriesExceeded : JSError := newError "Max retries exceeded".

Lemma retryLoop_pause (net : Network) url retries todo i :
  i + todo = retries -> 0 < todo ->
  let run := retryLoop net url retries i todo in
  1 <= attemptsOf run.1
  /\ pauseOf run.1
     = ((2 ^ Z.of_nat (i + attemptsOf run.1 - 1) - 2 ^ Z.of_nat i) * 1000)%Z
  /\ (forall r, run.2 = Returns r ->
        net url (i + attemptsOf run.1 - 1) = Responds r)
  /\ (forall e, run.2 = Throws e ->
        attemptsOf run.1 = todo /\ net url (retries - 1) = Rejects e).
Proof.
  revert i. induction todo as [|todo IH]; intros i Hsum Htodo; [lia|].
  simpl. destruct (net url i) as [r|e] eqn:Hnet.
  - unfold attemptsOf. simpl. replace (i + 1 - 1) with i by lia.
    split; [lia|]. split; [lia|]. split; [by intros ? [= <-]|done].
  - destruct (Nat.eqb_spec i (retries - 1)) as [Heq|Hne].
    + unfold attemptsOf. simpl. replace (i + 1 - 1) with i by lia.
      split; [lia|]. split; [lia|]. split; [done|].
      intros ? [= <-]. split; [lia|]. by rewrite <- Heq.
    + destruct (IH (S i)) as (Hone & Hpause & Hret & Hthrow); [lia|lia|].
      destruct (retryLoop net url retries (S i) todo) as [evs out].
      unfold attemptsOf in *.
      cbn [fst snd List.filter isFetch length pauseOf fold_right] in *.
      set (a := length (List.filter isFetch evs)) in *.
      replace (i + S a - 1) with (S i + a - 1) by lia.
      split; [lia|]. split; [|split].
      * rewrite Hpause. rewrite (Nat2Z.inj_succ i), Z.pow_succ_r by lia. lia.
      * done.
      * intros e' He'. destruct (Hthrow e' He') as [Hlen Hlast].
        split; [lia|done].
Qed.

(** X9.  For any number of retries, [fetchWithRetry] of the search service makes
    at most that many requests; with none allowed it makes no request and
    throws [Max retries exceeded]; otherwise it makes at least one, pauses
    1000, 2000, 4000, ... milliseconds between them and never after the last
    one, returns the first response obtained, and throws the last rejection
    once every attempt was rejected. *)
Theorem fetchWithRetry_any_retries (net : Network) (url : jsstring) (retries : nat) :
  let run := WOLService.fetchWithRetry net url retries in
  attemptsOf run.1 <= retries
  /\ (retries = 0 -> run = ([], Throws maxRetriesExceeded))
  /\ (0 < retries ->
      1 <= attemptsOf run.1
      /\ pauseOf run.1 = ((2 ^ Z.of_nat (attemptsOf run.1 - 1) - 1) * 1000)%Z
      /\ (pauseOf run.1 <= (2 ^ Z.of_nat (retries - 1) - 1) * 1000)%Z
      /\ (forall r, run.2 = Returns r ->
            net url (attemptsOf run.1 - 1) = Responds r)
      /\ (forall e, run.2 = Throws e ->
            attemptsOf run.1 = retries /\ net url (retries - 1) = Rejects e)).
Proof.
  intros run. split; [apply retryLoop_attempts|]. split; [by intros ->|].
  intros Hpos.
  destruct (retryLoop_pause net url retries retries 0) as (Hone & Hpause & Hret & Hthrow);
    [lia|lia|].
  pose proof (retryLoop_attempts net url retries retries 0) as Hmost.
  fold (WOLService.fetchWithRetry net url retries) in *. fold run in Hone, Hpause, Hret, Hthrow, Hmost.
  simpl in Hpause, Hret.
  split; [done|]. split; [rewrite Hpause; simpl; lia|]. split; [|split; [done|done]].
  rewrite Hpause. simpl (2 ^ Z.of_nat 0)%Z.
  assert (2 ^ Z.of_nat (attemptsOf run.1 - 1) <= 2 ^ Z.of_nat (retries - 1))%Z.
  { apply Z.pow_le_mono_r; lia. }
  lia.
Qed.

(** ** Laws of the language normalisation *)

Definition notSeparator (c : ascii) : bool := negb (isHyphenOrUnderscore c).

Lemma lowerChar_idem c : JS.lowerChar (JS.lowerChar c) = JS.lowerChar c.
Proof. ascii_cases c; vm_compute; reflexivity. Qed.

Lemma lowerChar_separator c :
  isHyphenOrUnderscore (JS.lowerChar c) = isHyphenOrUnderscore c.
Proof. ascii_cases c; vm_compute; reflexivity. Qed.

Lemma toLowerCase_idem s : JS.toLowerCase (JS.toLowerCase s) = JS.toLowerCase s.
Proof.
  unfold JS.toLowerCase. rewrite map_map. apply map_ext. apply lowerChar_idem.
Qed.

Lemma takeWhile_stop p xs c r :
  p c = false -> JS.takeWhile p (xs ++ c :: r) = JS.takeWhile p xs.
Proof.
  intros Hc. induction xs as [|x xs IH]; simpl; [by rewrite Hc|].
  destruct (p x); [by rewrite IH|done].
Qed.

Lemma takeWhile_idem p s : JS.takeWhile p (JS.takeWhile p s) = JS.takeWhile p s.
Proof.
  induction s as [|c s IH]; simpl; [done|].
  destruct (p c) eqn:Hp; simpl; [by rewrite Hp, IH|done].
Qed.

Lemma takeWhile_map_lower s :
  JS.takeWhile notSeparator (JS.toLowerCase (JS.takeWhile notSeparator s))
  = JS.toLowerCase (JS.takeWhile notSeparator s).
Proof.
  induction s as [|c s IH]; simpl; [done|].
  destruct (notSeparator c) eqn:Hc; simpl; [|done].
  unfold notSeparator in *. rewrite lowerChar_separator, Hc.
  f_equal. exact IH.
Qed.

Lemma toLowerCase_takeWhile s :
  JS.toLowerCase (JS.takeWhile notSeparator (JS.toLowerCase s))
  = JS.takeWhile notSeparator (JS.toLowerCase s).
Proof.
  induction s as [|c s IH]; simpl; [done|].
  destruct (notSeparator (JS.lowerChar c)); simpl; [|done].
  by rewrite lowerChar_idem, IH.
Qed.

Lemma normalizedCode_nonempty language : normalizedCode language <> [].
Proof. unfold normalizedCode. by destruct (JS.takeWhile _ _). Qed.

Lemma normalizedCode_segment language :
  JS.takeWhile notSeparator (normalizedCode language) = normalizedCode language
  /\ JS.toLowerCase (normalizedCode language) = normalizedCode language.
Proof.
  unfold normalizedCode.
  set (lowered := JS.toLowerCase _).
  fold notSeparator.
  destruct (JS.takeWhile notSeparator lowered) as [|c r] eqn:Hseg;
    [split; reflexivity|].
  rewrite <- Hseg. split; [apply takeWhile_idem|].
  unfold lowered. apply toLowerCase_takeWhile.
Qed.

Lemma normalizedCode_idem language :
  normalizedCode (Some (normalizedCode language)) = normalizedCode language.
Proof.
  destruct (normalizedCode_segment language) as [Hseg Hlow].
  pose proof (normalizedCode_nonempty language) as Hne.
  unfold normalizedCode at 1. fold notSeparator.
  destruct (normalizedCode language) as [|c r] eqn:Hcode; [done|].
  rewrite Hlow, Hseg. reflexivity.
Qed.

Lemma normalizedCode_region s sep region :
  isHyphenOrUnderscore sep = true ->
  normalizedCode (Some (s ++ sep :: region)) = normalizedCode (Some s).
Proof.
  intros Hsep. unfold normalizedCode. fold notSeparator.
  destruct s as [|c s].
  - simpl app. cbn [JS.toLowerCase map JS.takeWhile].
    unfold notSeparator at 1. rewrite lowerChar_separator, Hsep. reflexivity.
  - cbn [app]. cbv beta iota.
    assert (JS.toLowerCase (c :: s ++ sep :: region)
            = JS.toLowerCase (c :: s) ++ JS.lowerChar sep :: JS.toLowerCase region)
      as ->.
    { unfold JS.toLowerCase. by rewrite app_comm_cons, map_app. }
    rewrite takeWhile_stop; [done|].
    unfold notSeparator. by rewrite lowerChar_separator, Hsep.
Qed.

Lemma normalizedCode_case s t :
  JS.toLowerCase s = JS.toLowerCase t ->
  normalizedCode (Some s) = normalizedCode (Some t).
Proof.
  intros Hst. unfold normalizedCode.
  destruct s as [|c s], t as [|d t]; try done. by rewrite Hst.
Qed.

(** X10.  [normalizeIsoLanguageCode] always gives a code that is not empty, holds
    neither hyphen nor underscore, is in lower case and is a fixed point of
    the function; the code depends neither on the case of the input nor on
    what follows its first hyphen or underscore; a missing or empty input,
    and an input that starts with a separator, give [en]. *)
Theorem normalizeIsoLanguageCode_laws :
  (forall language,
     let code := normalizeIsoLanguageCode language in
     code <> []
     /\ forallb notSeparator code = true
     /\ JS.toLowerCase code = code
     /\ normalizeIsoLanguageCode (Some code) = code)
  /\ (forall s t,
        JS.toLowerCase s = JS.toLowerCase t ->
        normalizeIsoLanguageCode (Some s) = normalizeIsoLanguageCode (Some t))
  /\ (forall s sep region,
        isHyphenOrUnderscore sep = true ->
        normalizeIsoLanguageCode (Some (s ++ sep :: region))
        = normalizeIsoLanguageCode (Some s))
  /\ normalizeIsoLanguageCode None = ("en" : jsstring)
  /\ normalizeIsoLanguageCode (Some []) = ("en" : jsstring)
  /\ normalizeIsoLanguageCode (Some ("-Latn" : jsstring)) = ("en" : jsstring).
Proof.
  split; [|split; [|split; [|by vm_compute]]].
  - intros language code. unfold code. rewrite !normalizeIsoLanguageCode_spec.
    destruct (normalizedCode_segment language) as [Hseg Hlow].
    split; [apply normalizedCode_nonempty|]. split; [|split; [done|]].
    + rewrite <- Hseg. apply forallb_forall. intros c Hc.
      by apply takeWhile_In in Hc.
    + apply normalizedCode_idem.
  - intros s t Hst. rewrite !normalizeIsoLanguageCode_spec.
    by apply normalizedCode_case.
  - intros s sep region Hsep. rewrite !normalizeIsoLanguageCode_spec.
    by apply normalizedCode_region.
Qed.

(** ** The routing configuration *)

Lemma orDefault_nonempty a d : d <> [] -> JS.orDefault a d <> [].
Proof. intros Hd. unfold JS.orDefault. by destruct a as [[|c s]|]. Qed.

(** X11.  [resolveWolConfig] never gives an empty [lp] or [rev]; the configuration
    depends on the normalised code only, hence neither on the case nor on
    the region of the language given; of a listed language each of the two
    fields is taken from the entry when it is there and not empty, and falls
    back on its own otherwise. *)
Theorem resolveWolConfig_laws `{WolLanguages} :
  (forall language,
     cfg_lp (resolveWolConfig language) <> []
     /\ cfg_rev (resolveWolConfig language) <> [])
  /\ (forall a b,
        normalizeIsoLanguageCode a = normalizeIsoLanguageCode b ->
        resolveWolConfig a = resolveWolConfig b)
  /\ (forall s sep region,
        isHyphenOrUnderscore sep = true ->
        resolveWolConfig (Some (s ++ sep :: region)) = resolveWolConfig (Some s))
  /\ (forall s, resolveWolConfig (Some (JS.toLowerCase s)) = resolveWolConfig (Some s))
  /\ (forall language m entry,
        mapping = Some m ->
        m !! normalizeIsoLanguageCode language = Some entry ->
        (forall c s, lp entry = Some (c :: s) ->
           cfg_lp (resolveWolConfig language) = c :: s)
        /\ (forall c s, rsconf entry = Some (c :: s) ->
              cfg_rev (resolveWolConfig language) = c :: s)
        /\ (lp entry = None \/ lp entry = Some [] ->
            cfg_lp (resolveWolConfig language)
            = if bool_decide (normalizeIsoLanguageCode language = ("en" : jsstring))
              then ("e" : jsstring) else normalizeIsoLanguageCode language)
        /\ (rsconf entry = None \/ rsconf entry = Some [] ->
            cfg_rev (resolveWolConfig language) = ("r1" : jsstring))).
Proof.
  assert (forall a b, normalizeIsoLanguageCode a = normalizeIsoLanguageCode b ->
            resolveWolConfig a = resolveWolConfig b) as Hsame.
  { intros a b Hab. unfold resolveWolConfig. by rewrite Hab. }
  split; [|split; [done|split; [|split]]].
  - intros language. unfold resolveWolConfig. simpl. split.
    + apply orDefault_nonempty. case_bool_decide; [done|].
      rewrite normalizeIsoLanguageCode_spec. apply normalizedCode_nonempty.
    + by apply orDefault_nonempty.
  - intros s sep region Hsep. apply Hsame.
    rewrite !normalizeIsoLanguageCode_spec. by apply normalizedCode_region.
  - intros s. apply Hsame. rewrite !normalizeIsoLanguageCode_spec.
    apply normalizedCode_case, toLowerCase_idem.
  - intros language m entry Hm Hentry. unfold resolveWolConfig.
    rewrite Hm. unfold propertyOf. rewrite Hentry. simpl.
    repeat split.
    + by intros c s ->.
    + by intros c s ->.
    + by intros [-> | ->].
    + by intros [-> | ->].
Qed.

(** ** Filling the URL templates *)

(** A value the templates take as it is: no [$], which the replacement text
    of [replace] gives a meaning to, and no [{], which could form a
    placeholder of a later step. *)
Definition plain (s : jsstring) : bool :=
  forallb (fun c => negb (Ascii.eqb c "$") && negb (Ascii.eqb c "{")) s.

Definition dollarFree (s : jsstring) : bool :=
  forallb (fun c => negb (Ascii.eqb c "$")) s.

Lemma plain_dollarFree s : plain s = true -> dollarFree s = true.
Proof.
  apply forallb_weaken. intros c Hc. by apply andb_true_iff in Hc as [? _].
Qed.

Lemma plain_app s t : plain (s ++ t) = plain s && plain t.
Proof. apply forallb_app. Qed.

Lemma expandReplacement_dollarFree rep matched before after :
  dollarFree rep = true -> expandReplacement rep matched before after = rep.
Proof.
  induction rep as [|c rep IH]; [done|]. unfold dollarFree in *.
  rewrite (forallb_cons _ c rep).
  intros [Hc Hrep]%andb_true_iff. apply negb_true_iff in Hc.
  simpl. rewrite IH by done.
  destruct (Ascii.eqb_spec c "$") as [->|Hne]; [done|].
  ascii_cases c; try reflexivity. done.
Qed.

Lemma startsWith_app p r : JS.startsWith p (p ++ r) = true.
Proof. apply startsWith_spec. by exists r. Qed.

Lemma replaceFrom_here pat rep before post :
  dollarFree rep = true ->
  replaceFrom pat rep before (pat ++ post) = before ++ rep ++ post.
Proof.
  intros Hrep. destruct pat as [|p pat].
  - destruct post; simpl; by rewrite expandReplacement_dollarFree.
  - cbn [app replaceFrom]. change (p :: pat ++ post) with ((p :: pat) ++ post).
    rewrite startsWith_app, drop_app_length.
    by rewrite expandReplacement_dollarFree.
Qed.

Lemma replaceFrom_skip p pat rep before pre post :
  forallb (fun c => negb (Ascii.eqb c p)) pre = true ->
  dollarFree rep = true ->
  replaceFrom (p :: pat) rep before (pre ++ (p :: pat) ++ post)
  = before ++ pre ++ rep ++ post.
Proof.
  intros Hpre Hrep. revert before.
  induction pre as [|c pre IH]; intros before.
  - exact (replaceFrom_here (p :: pat) rep before post Hrep).
  - rewrite (forallb_cons _ c pre) in Hpre.
    apply andb_true_iff in Hpre as [Hc Hpre]. apply negb_true_iff in Hc.
    cbn [app replaceFrom JS.startsWith].
    rewrite Ascii.eqb_sym, Hc. cbn [andb].
    rewrite IH by done. by rewrite <- app_assoc.
Qed.

Lemma replaceFrom_expand p pat rep before pre post :
  forallb (fun c => negb (Ascii.eqb c p)) pre = true ->
  replaceFrom (p :: pat) rep before (pre ++ (p :: pat) ++ post)
  = before ++ pre
    ++ expandReplacement rep (p :: pat) (before ++ pre) post ++ post.
Proof.
  intros Hpre. revert before.
  induction pre as [|c pre IH]; intros before.
  - cbn [app replaceFrom].
    change (p :: pat ++ post) with ((p :: pat) ++ post).
    rewrite startsWith_app, drop_app_length. by rewrite app_nil_r.
  - rewrite (forallb_cons _ c pre) in Hpre.
    apply andb_true_iff in Hpre as [Hc Hpre]. apply negb_true_iff in Hc.
    cbn [app replaceFrom JS.startsWith].
    rewrite Ascii.eqb_sym, Hc. cbn [andb].
    rewrite IH by done. by rewrite <- !app_assoc.
Qed.

(** The first occurrence of a placeholder that starts with [{] is the one
    after a prefix without [{]. *)
Lemma replace_placeholder name rep pre post :
  forallb (fun c => negb (Ascii.eqb c "{")) pre = true ->
  dollarFree rep = true ->
  replace ("{"%char :: name) rep (pre ++ ("{"%char :: name) ++ post)
  = pre ++ rep ++ post.
Proof. intros Hpre Hrep. unfold replace. by rewrite replaceFrom_skip. Qed.

Lemma plain_noBrace s :
  plain s = true -> forallb (fun c => negb (Ascii.eqb c "{")) s = true.
Proof.
  apply forallb_weaken. intros c Hc. by apply andb_true_iff in Hc as [_ ?].
Qed.

(** The document URL up to the document id. *)
Definition documentFolder (lang rev lp : jsstring) : jsstring :=
  "https://wol.jw.org/" ++ lang ++ "/wol/d/" ++ rev ++ "/lp-" ++ lp ++ "/".

Lemma documentFolder_noBrace lang rev lp :
  plain lang = true -> plain rev = true -> plain lp = true ->
  forallb (fun c => negb (Ascii.eqb c "{")) (documentFolder lang rev lp) = true.
Proof.
  intros Hlang Hrev Hlp. unfold documentFolder. rewrite !forallb_app.
  by rewrite (plain_noBrace lang), (plain_noBrace rev), (plain_noBrace lp).
Qed.

Lemma document_template_filled lang rev lp :
  plain lang = true -> plain rev = true -> plain lp = true ->
  replace "{lp}" lp (replace "{rev}" rev (replace "{lang}" lang DOCUMENT))
  = documentFolder lang rev lp ++ "{docId}".
Proof.
  intros Hlang Hrev Hlp. unfold DOCUMENT.
  change ("https://wol.jw.org/{lang}/wol/d/{rev}/lp-{lp}/{docId}" : jsstring)
    with (("https://wol.jw.org/" : jsstring) ++ ("{lang}" : jsstring)
          ++ ("/wol/d/{rev}/lp-{lp}/{docId}" : jsstring)).
  rewrite (replace_placeholder "lang}") by (done || by apply plain_dollarFree).
  change ("/wol/d/{rev}/lp-{lp}/{docId}" : jsstring)
    with (("/wol/d/" : jsstring) ++ ("{rev}" : jsstring)
          ++ ("/lp-{lp}/{docId}" : jsstring)).
  rewrite (app_assoc _ lang), (app_assoc _ "/wol/d/").
  rewrite (replace_placeholder "rev}");
    [|rewrite !forallb_app; rewrite (plain_noBrace lang) by done; done
     |by apply plain_dollarFree].
  change ("/lp-{lp}/{docId}" : jsstring)
    with (("/lp-" : jsstring) ++ ("{lp}" : jsstring) ++ ("/{docId}" : jsstring)).
  rewrite (app_assoc _ rev), (app_assoc _ "/lp-").
  rewrite (replace_placeholder "lp}");
    [|rewrite !forallb_app;
      rewrite (plain_noBrace lang), (plain_noBrace rev) by done; done
     |by apply plain_dollarFree].
  unfold documentFolder. by rewrite <- !app_assoc.
Qed.

(** X12.  For a language and a configuration without dollar sign and opening
    brace, and a document id without dollar sign, [buildDocumentURL] is the
    concatenation of the site, the language, [/wol/d/], the [rev] code,
    [/lp-], the [lp] code, a slash and the document id. *)
Theorem buildDocumentURL_fills_template `{WolLanguages}
    (documentId : jsstring) (language : option jsstring) :
  let lang := default ("en" : jsstring) language in
  let config := resolveWolConfig (Some lang) in
  plain lang = true -> plain (cfg_rev config) = true ->
  plain (cfg_lp config) = true -> dollarFree documentId = true ->
  URLBuilder.buildDocumentURL documentId language
  = "https://wol.jw.org/" ++ lang ++ "/wol/d/" ++ cfg_rev config
    ++ "/lp-" ++ cfg_lp config ++ "/" ++ documentId.
Proof.
  intros lang config Hlang Hrev Hlp Hid.
  unfold URLBuilder.buildDocumentURL. fold lang config.
  rewrite document_template_filled by done.
  rewrite <- (app_nil_r ("{docId}" : jsstring)).
  rewrite (replace_placeholder "docId}");
    [|by apply documentFolder_noBrace|done].
  rewrite app_nil_r. unfold documentFolder. by rewrite <- !app_assoc.
Qed.

Lemma buildDocumentURL_fills_template_witness :
  @URLBuilder.buildDocumentURL sampleLanguages "1102008070" (Some ("pt" : jsstring))
  = ("https://wol.jw.org/pt/wol/d/r5/lp-t/1102008070" : jsstring).
Proof.
  exact (@buildDocumentURL_fills_template sampleLanguages "1102008070"
           (Some ("pt" : jsstring)) eq_refl eq_refl eq_refl eq_refl).
Defined.

(** ** Dollar patterns in the document id *)

Lemma expandReplacement_app pre rest matched before after :
  dollarFree pre = true ->
  expandReplacement (pre ++ rest) matched before after
  = pre ++ expandReplacement rest matched before after.
Proof.
  induction pre as [|c pre IH]; [done|]. unfold dollarFree in *.
  rewrite (forallb_cons _ c pre).
  intros [Hc Hpre]%andb_true_iff. apply negb_true_iff in Hc.
  cbn [app expandReplacement]. rewrite IH by done.
  destruct (Ascii.eqb_spec c "$") as [->|Hne]; [done|].
  ascii_cases c; try reflexivity. done.
Qed.

Lemma buildDocumentURL_expand `{WolLanguages} documentId language :
  let lang := default ("en" : jsstring) language in
  let config := resolveWolConfig (Some lang) in
  let folder := documentFolder lang (cfg_rev config) (cfg_lp config) in
  plain lang = true -> plain (cfg_rev config) = true ->
  plain (cfg_lp config) = true ->
  URLBuilder.buildDocumentURL documentId language
  = folder ++ expandReplacement documentId "{docId}" folder [].
Proof.
  intros lang config folder Hlang Hrev Hlp.
  unfold URLBuilder.buildDocumentURL. fold lang config.
  rewrite document_template_filled by done. fold folder. unfold replace.
  pose proof (replaceFrom_expand "{" "docId}" documentId [] folder []) as Hexpand.
  rewrite !app_nil_r in Hexpand.
  change ("{"%char :: ("docId}" : jsstring)) with ("{docId}" : jsstring) in Hexpand.
  rewrite Hexpand; [done|].
  by apply documentFolder_noBrace.
Qed.

(** X13.  The document id is given to [replace] as a replacement text, so its
    dollar patterns are expanded and not copied: a dollar sign with an
    ampersand puts the placeholder back, two dollar signs give one, and a
    dollar sign with a back quote inserts the start of the URL again. *)
Theorem buildDocumentURL_expands_dollar `{WolLanguages}
    (before after : jsstring) (language : option jsstring) :
  let lang := default ("en" : jsstring) language in
  let config := resolveWolConfig (Some lang) in
  let folder := documentFolder lang (cfg_rev config) (cfg_lp config) in
  plain lang = true -> plain (cfg_rev config) = true ->
  plain (cfg_lp config) = true ->
  dollarFree before = true -> dollarFree after = true ->
  URLBuilder.buildDocumentURL (before ++ "$&" ++ after) language
  = folder ++ before ++ "{docId}" ++ after
  /\ URLBuilder.buildDocumentURL (before ++ "$$" ++ after) language
     = folder ++ before ++ "$" ++ after
  /\ URLBuilder.buildDocumentURL (before ++ "$`" ++ after) language
     = folder ++ before ++ folder ++ after.
Proof.
  intros lang config folder Hlang Hrev Hlp Hbefore Hafter.
  rewrite !buildDocumentURL_expand by done. fold lang config folder.
  rewrite !(expandReplacement_app before) by done.
  change ("$&" : jsstring) with ["$"%char; "&"%char].
  change ("$$" : jsstring) with ["$"%char; "$"%char].
  change ("$`" : jsstring) with ["$"%char; "`"%char].
  cbn [app expandReplacement].
  rewrite !expandReplacement_dollarFree by done.
  by repeat split.
Qed.

Lemma buildDocumentURL_expands_dollar_witness :
  @URLBuilder.buildDocumentURL sampleLanguages "1$&2" (Some ("pt" : jsstring))
  = ("https://wol.jw.org/pt/wol/d/r5/lp-t/1{docId}2" : jsstring).
Proof.
  exact (proj1 (@buildDocumentURL_expands_dollar sampleLanguages "1" "2"
                  (Some ("pt" : jsstring)) eq_refl eq_refl eq_refl eq_refl eq_refl)).
Defined.

(** ** The document id read from a path *)

Lemma split_app_sep sep a c b :
  sep c = true -> JS.split sep (a ++ c :: b) = JS.split sep a ++ JS.split sep b.
Proof.
  intros Hc. induction a as [|x a IH]; simpl; [by rewrite Hc|].
  destruct (sep x); [by rewrite IH|].
  rewrite IH. by destruct (split_cons sep a) as (part & parts & ->).
Qed.

Lemma split_no_sep sep s :
  forallb (fun c => negb (sep c)) s = true -> JS.split sep s = [s].
Proof.
  intros Hs. rewrite <- (app_nil_r s) at 1. rewrite split_app_part by done.
  simpl. by rewrite app_nil_r.
Qed.

Lemma isDigits_no_slash s :
  ContentParser.isDigits s = true ->
  forallb (fun c => negb (Ascii.eqb "/" c)) s = true.
Proof.
  unfold ContentParser.isDigits. intros [_ Hs]%andb_true_iff. revert Hs.
  apply forallb_weaken. intros c Hc. ascii_cases c; try done.
Qed.

Lemma lastDigits_spec reversed :
  (ContentParser.lastDigits reversed = [] /\ Forall (fun p => ContentParser.isDigits p = false) reversed)
  \/ exists skipped rest,
       reversed = skipped ++ ContentParser.lastDigits reversed :: rest
       /\ ContentParser.isDigits (ContentParser.lastDigits reversed) = true
       /\ Forall (fun p => ContentParser.isDigits p = false) skipped.
Proof.
  induction reversed as [|p reversed IH]; [by left|]. simpl.
  destruct (ContentParser.isDigits p) eqn:Hp.
  - right. exists [], reversed. by repeat split.
  - destruct IH as [[Hnil Hall]|(skipped & rest & Heq & Hd & Hskipped)].
    + left. split; [done|]. by constructor.
    + right. exists (p :: skipped), rest. split; [by rewrite Heq at 1|].
      split; [done|]. by constructor.
Qed.

(** X14.  The document id [parseDocument] reads from a path is its last segment
    made of digits only: the id a document URL ends on is read back, with
    or without a slash after it, and a path without such a segment gives
    the empty id. *)
Theorem documentIdOfPath_last_numeric_segment :
  (forall folder documentId,
     ContentParser.isDigits documentId = true ->
     ContentParser.documentIdOfPath (folder ++ "/" ++ documentId) = documentId
     /\ ContentParser.documentIdOfPath (folder ++ "/" ++ documentId ++ "/") = documentId)
  /\ (forall pathname,
        let parts := List.filter JS.truthy (JS.split (Ascii.eqb "/") pathname) in
        (ContentParser.documentIdOfPath pathname = []
         /\ Forall (fun p => ContentParser.isDigits p = false) parts)
        \/ exists earlier later,
             parts = earlier ++ ContentParser.documentIdOfPath pathname :: later
             /\ ContentParser.isDigits (ContentParser.documentIdOfPath pathname) = true
             /\ Forall (fun p => ContentParser.isDigits p = false) later).
Proof.
  split.
  - intros folder documentId Hid.
    assert (JS.truthy documentId = true) as Htruthy.
    { unfold ContentParser.isDigits in Hid. by apply andb_true_iff in Hid as [? _]. }
    pose proof (isDigits_no_slash _ Hid) as Hslash.
    unfold ContentParser.documentIdOfPath. split.
    + change (("/" : jsstring) ++ documentId) with ("/"%char :: documentId).
      rewrite split_app_sep by done. rewrite (split_no_sep _ documentId) by done.
      rewrite List.filter_app. simpl List.filter. rewrite Htruthy.
      rewrite rev_app_distr. simpl. by rewrite Hid.
    + change (("/" : jsstring) ++ documentId ++ ("/" : jsstring))
        with ("/"%char :: (documentId ++ "/"%char :: [])).
      rewrite split_app_sep by done. rewrite split_app_sep by done.
      rewrite (split_no_sep _ documentId) by done.
      rewrite !List.filter_app. simpl List.filter. rewrite Htruthy.
      rewrite app_nil_r, rev_app_distr. simpl. by rewrite Hid.
  - intros pathname parts. unfold ContentParser.documentIdOfPath. fold parts.
    destruct (lastDigits_spec (rev parts))
      as [[Hnil Hall]|(skipped & rest & Heq & Hd & Hskipped)].
    + left. split; [done|]. apply List.Forall_rev in Hall.
      by rewrite rev_involutive in Hall.
    + right. exists (rev rest), (rev skipped). split; [|split; [done|]].
      * set (d := ContentParser.lastDigits (rev parts)) in *.
        rewrite <- (rev_involutive parts), Heq, rev_app_distr. simpl.
        by rewrite <- app_assoc.
      * by apply List.Forall_rev.
Qed.

(** ** The paragraphs of the plain text *)

(** A string that does not start with white space. *)
Definition headSolid (s : jsstring) : bool :=
  match s with
  | [] => true
  | c :: _ => negb (JS.isWhiteSpace c)
  end.

Lemma dropWhile_headSolid s : headSolid (JS.dropWhile JS.isWhiteSpace s) = true.
Proof.
  destruct (JS.dropWhile JS.isWhiteSpace s) as [|c r] eqn:Hdrop; [done|].
  apply dropWhile_head in Hdrop. simpl. by rewrite Hdrop.
Qed.

Lemma dropWhile_fixed s : headSolid s = true -> JS.dropWhile JS.isWhiteSpace s = s.
Proof. destruct s as [|c s]; simpl; [done|]. by intros ->%negb_true_iff. Qed.

Lemma trim_headSolid s :
  headSolid (JS.trim s) = true /\ headSolid (rev (JS.trim s)) = true.
Proof.
  unfold JS.trim, JS.trimEnd, JS.trimStart. rewrite rev_involutive.
  split; [|apply dropWhile_headSolid].
  pose proof (dropWhile_headSolid s) as Hhead.
  destruct (JS.dropWhile JS.isWhiteSpace s) as [|c t]; [done|].
  simpl in Hhead. apply negb_true_iff in Hhead.
  simpl rev. rewrite <- (app_nil_r [c]) at 1.
  change ([c] ++ []) with (c :: ([] : jsstring)).
  rewrite dropWhile_app_stop by done. rewrite rev_app_distr. simpl.
  by rewrite Hhead.
Qed.

Lemma trim_fixed s :
  headSolid s = true -> headSolid (rev s) = true -> JS.trim s = s.
Proof.
  intros Hhead Hlast. unfold JS.trim, JS.trimEnd, JS.trimStart.
  rewrite (dropWhile_fixed s) by done. rewrite (dropWhile_fixed (rev s)) by done.
  apply rev_involutive.
Qed.

Lemma trim_idem s : JS.trim (JS.trim s) = JS.trim s.
Proof. destruct (trim_headSolid s). by apply trim_fixed. Qed.

Lemma trim_fixed_iff s :
  JS.trim s = s <-> headSolid s = true /\ headSolid (rev s) = true.
Proof.
  split; [intros <-; apply trim_headSolid|]. intros []. by apply trim_fixed.
Qed.

Lemma endsSentence_trim s :
  headSolid s = true ->
  VideoService.endsSentence (JS.trim s) = VideoService.endsSentence s.
Proof.
  intros Hhead. unfold VideoService.endsSentence, JS.trim, JS.trimEnd, JS.trimStart.
  rewrite (dropWhile_fixed s) by done. rewrite rev_involutive.
  rewrite (dropWhile_fixed (JS.dropWhile _ _)) by apply dropWhile_headSolid.
  reflexivity.
Qed.

Definition lineFree (s : jsstring) : bool :=
  forallb (fun c => negb (Ascii.eqb LF c)) s.

Lemma lineFree_In s : lineFree s = true <-> ~ In LF s.
Proof.
  unfold lineFree. rewrite forallb_forall. split.
  - intros Hall Hin. specialize (Hall _ Hin). by rewrite Ascii.eqb_refl in Hall.
  - intros Hno c Hc. destruct (Ascii.eqb_spec LF c) as [<-|]; [done|reflexivity].
Qed.

Lemma split_parts sep s part :
  In part (JS.split sep s) -> forallb (fun c => negb (sep c)) part = true.
Proof.
  revert part. induction s as [|c s IH]; cbn [JS.split]; intros part.
  - by intros [<-|[]].
  - destruct (sep c) eqn:Hc.
    + intros [<-|Hin]; [done|by apply IH].
    + destruct (split_cons sep s) as (p & ps & Hsplit).
      rewrite Hsplit in *. intros [<-|Hin].
      * rewrite (forallb_cons _ c p), Hc. apply IH. by left.
      * apply IH. by right.
Qed.

Lemma split_lineFree s part :
  In part (JS.split (Ascii.eqb LF) s) -> lineFree part = true.
Proof. apply split_parts. Qed.

Lemma In_removeAllFrom matchLen c skip s :
  In c (JS.removeAllFrom matchLen skip s) -> In c s.
Proof.
  revert skip. induction s as [|a s IH]; intros skip; simpl; [done|].
  destruct skip as [|k]; [|intros ?%IH; by right].
  destruct (matchLen (a :: s)) as [[|n]|].
  - intros [->|?%IH]; [by left|by right].
  - intros ?%IH; by right.
  - intros [->|?%IH]; [by left|by right].
Qed.

Lemma cleanCueText_lineFree s :
  lineFree s = true -> lineFree (VideoService.cleanCueText s) = true.
Proof.
  rewrite !lineFree_In. intros Hs Hin. apply Hs.
  unfold VideoService.cleanCueText in Hin.
  apply In_trim in Hin. apply filter_In in Hin as [Hin _].
  unfold JS.removeAll in Hin.
  by repeat apply In_removeAllFrom in Hin.
Qed.

(** What every cue fragment is: not blank, without white space at either
    end, on one line. *)
Definition tidy (s : jsstring) : bool :=
  solid s && headSolid s && headSolid (rev s) && lineFree s.

Lemma trim_lineFree s : lineFree s = true -> lineFree (JS.trim s) = true.
Proof. rewrite !lineFree_In. intros Hs Hin. by apply Hs, In_trim. Qed.

Lemma cleanCueText_tidy s :
  JS.truthy (VideoService.cleanCueText s) = true -> lineFree s = true ->
  tidy (VideoService.cleanCueText s) = true.
Proof.
  intros Htruthy Hfree. unfold tidy.
  rewrite (cleanCueText_lineFree s Hfree), andb_true_r.
  unfold VideoService.cleanCueText in *.
  destruct (trim_headSolid
              (List.filter (VideoService.isNot "\")
                 (JS.removeAll (JS.matchRun "align:" JS.isWordChar None)
                    (JS.removeAll (JS.matchRun "position:" JS.isDigit (Some "%"%char))
                       (JS.removeAll (JS.matchRun "line:" JS.isDigit (Some "%"%char))
                          (JS.removeAll (JS.matchRun "{" (VideoService.isNot "}") (Some "}"%char))
                             (JS.removeAll (JS.matchRun "<" (VideoService.isNot ">") (Some ">"%char))
                                s))))))) as [-> ->].
  by rewrite trim_truthy_solid.
Qed.

Lemma collectTextLines_tidy inCue lines :
  Forall (fun l => lineFree l = true) lines ->
  Forall (fun l => tidy l = true) (VideoService.collectTextLines inCue lines).
Proof.
  intros Hlines. revert inCue.
  induction Hlines as [|line rest Hline Hrest IH]; intros inCue; simpl;
    [constructor|].
  repeat (case_match; try apply IH).
  constructor; [|apply IH].
  apply cleanCueText_tidy; [done|by apply trim_lineFree].
Qed.

Lemma textLinesOf_tidy vtt :
  Forall (fun l => tidy l = true) (VideoService.textLinesOf vtt).
Proof.
  apply collectTextLines_tidy, Forall_forall. intros part Hpart.
  apply list_elem_of_In in Hpart. by apply split_lineFree in Hpart.
Qed.

(** The sentence being accumulated, once it holds a fragment. *)
Definition openSentence (cs : jsstring) : bool :=
  solid cs && headSolid cs && lineFree cs.

(** A paragraph that was pushed before the last one. *)
Definition closed (p : jsstring) : bool := tidy p && VideoService.endsSentence p.

Lemma tidy_unfold s :
  tidy s = true
  <-> solid s = true /\ headSolid s = true /\ headSolid (rev s) = true
      /\ lineFree s = true.
Proof. unfold tidy. rewrite !andb_true_iff. tauto. Qed.

Lemma openSentence_unfold s :
  openSentence s = true
  <-> solid s = true /\ headSolid s = true /\ lineFree s = true.
Proof. unfold openSentence. rewrite !andb_true_iff. tauto. Qed.

Lemma tidy_open s : tidy s = true -> openSentence s = true.
Proof. rewrite tidy_unfold, openSentence_unfold. tauto. Qed.

Lemma open_trim_tidy cs : openSentence cs = true -> tidy (JS.trim cs) = true.
Proof.
  rewrite tidy_unfold, openSentence_unfold. intros (Hsolid & Hhead & Hfree).
  destruct (trim_headSolid cs) as [-> ->].
  by rewrite solid_trim, trim_lineFree.
Qed.

Lemma open_app cs line :
  openSentence cs = true -> tidy line = true ->
  openSentence (cs ++ " " ++ line) = true.
Proof.
  rewrite tidy_unfold, !openSentence_unfold.
  intros (Hsolid & Hhead & Hfree) (Hsolid' & _ & _ & Hfree').
  split; [|split].
  - by apply solid_app_r, solid_app_r.
  - destruct cs as [|c cs]; [done|exact Hhead].
  - unfold lineFree in *. rewrite !forallb_app. by rewrite Hfree, Hfree'.
Qed.

Lemma joinSentences_paragraphs lines result cs :
  Forall (fun l => tidy l = true) lines ->
  Forall (fun p => closed p = true) result ->
  cs = [] \/ openSentence cs = true ->
  Forall (fun p => closed p = true) (VideoService.joinSentences lines result cs).1
  /\ ((VideoService.joinSentences lines result cs).2 = []
      \/ openSentence (VideoService.joinSentences lines result cs).2 = true).
Proof.
  intros Hlines. revert result cs.
  induction Hlines as [|line rest Hline Hrest IH]; intros result cs Hresult Hcs;
    [done|].
  cbn [VideoService.joinSentences].
  destruct (JS.endsWith line cs); [by apply IH|].
  destruct cs as [|c cs'] eqn:Hcs_eq.
  { cbn [JS.truthy andb]. apply IH; [done|]. right. by apply tidy_open. }
  destruct Hcs as [|Hopen]; [done|]. cbn [JS.truthy andb].
  destruct (VideoService.endsSentence (c :: cs')) eqn:Hends; cbn [negb].
  - apply IH; [|right; by apply tidy_open].
    apply Forall_app. split; [done|]. constructor; [|done].
    unfold closed. rewrite open_trim_tidy by done.
    rewrite endsSentence_trim; [by rewrite Hends|].
    by apply openSentence_unfold in Hopen as (_ & ? & _).
  - apply IH; [done|]. right. by apply open_app.
Qed.

Lemma vttToPlainText_join vtt :
  VideoService.vttToPlainText vtt
  = let run := VideoService.joinSentences (VideoService.textLinesOf vtt) [] [] in
    JS.join [LF] (if JS.truthy run.2 then run.1 ++ [JS.trim run.2] else run.1).
Proof.
  unfold VideoService.vttToPlainText.
  by destruct (VideoService.joinSentences _ [] []).
Qed.

(** A line that ends the way the pattern of the joining loop asks: on a
    full stop, an exclamation mark, a question mark, a colon or a semicolon,
    or on one of these followed by one quotation mark, double or single. *)
Definition sentenceEnd (line : jsstring) : Prop :=
  exists body mark,
    In mark (".!?:;" : jsstring)
    /\ (line = body ++ [mark]
        \/ exists quote,
             (quote = "034"%char \/ quote = "'"%char)
             /\ line = body ++ [mark; quote]).

Lemma isTerminal_In c : VideoService.isTerminal c = true -> In c (".!?:;" : jsstring).
Proof.
  unfold VideoService.isTerminal. intros (x & Hx & Heq)%existsb_exists.
  apply Ascii.eqb_eq in Heq. by subst x.
Qed.

Lemma endsSentence_sentenceEnd line :
  headSolid (rev line) = true ->
  VideoService.endsSentence line = true -> sentenceEnd line.
Proof.
  intros Hsolid. unfold VideoService.endsSentence.
  rewrite (dropWhile_fixed (rev line)) by done.
  destruct (rev line) as [|c before] eqn:Hrev; [done|].
  apply (f_equal (@rev ascii)) in Hrev. rewrite rev_involutive in Hrev.
  simpl in Hrev. intros [Hc|[Hq Hp]%andb_true_iff]%orb_true_iff.
  - exists (rev before), c. split; [by apply isTerminal_In|by left].
  - destruct before as [|p before']; [done|].
    exists (rev before'), p. split; [by apply isTerminal_In|]. right.
    exists c. split.
    + unfold VideoService.isQuote in Hq.
      apply orb_true_iff in Hq as [Hq|Hq%Ascii.eqb_eq]; [left|by right].
      apply N.eqb_eq in Hq. rewrite <- (ascii_N_embedding c).
      unfold JS.code in Hq. by rewrite Hq.
    + rewrite Hrev. simpl. by rewrite <- app_assoc.
Qed.

(** X15.  The text [vttToPlainText] returns is empty when the subtitles hold no
    text line; otherwise none of its lines is empty or made of white space,
    none starts or ends with white space, and every line but the last ends
    on a full stop, an exclamation mark, a question mark, a colon or a
    semicolon, or on one of these followed by one quotation mark. *)
Theorem vttToPlainText_paragraphs (vttContent : jsstring) :
  (VideoService.textLinesOf vttContent = [] ->
   VideoService.vttToPlainText vttContent = [])
  /\ (VideoService.textLinesOf vttContent <> [] ->
      let lines := JS.split (Ascii.eqb LF) (VideoService.vttToPlainText vttContent) in
      Forall (fun line => solid line = true /\ JS.trim line = line) lines
      /\ Forall sentenceEnd (removelast lines)).
Proof.
  rewrite vttToPlainText_join. split.
  { intros ->. reflexivity. }
  intros Hlines.
  destruct (joinSentences_paragraphs (VideoService.textLinesOf vttContent) [] [])
    as [Hresult Hcs]; [apply textLinesOf_tidy|constructor|by left|].
  pose proof (joinSentences_solid (VideoService.textLinesOf vttContent) [] []
                (collectTextLines_solid _ _) (or_intror (conj eq_refl Hlines)))
    as Hsolid.
  destruct (VideoService.joinSentences _ [] []) as [result cs].
  cbn [fst snd] in *. cbv zeta.
  destruct Hcs as [->|Hopen]; [done|].
  assert (JS.truthy cs = true) as -> by (by destruct cs).
  pose proof (open_trim_tidy cs Hopen) as Hlast.
  assert (Forall (fun p => tidy p = true) (result ++ [JS.trim cs])) as Htidy.
  { apply Forall_app. split; [|by constructor].
    eapply Forall_impl; [exact Hresult|]. intros p Hp.
    unfold closed in Hp. by apply andb_true_iff in Hp as [? _]. }
  rewrite split_join.
  - split.
    + eapply Forall_impl; [exact Htidy|]. intros p Hp.
      apply tidy_unfold in Hp as (? & ? & ? & _).
      split; [done|]. by apply trim_fixed.
    + rewrite removelast_last.
      eapply Forall_impl; [exact Hresult|]. intros p Hp.
      unfold closed in Hp. apply andb_true_iff in Hp as [Htidy_p Hends].
      apply endsSentence_sentenceEnd; [|done].
      by apply tidy_unfold in Htidy_p as (_ & _ & ? & _).
  - by destruct result.
  - eapply Forall_impl; [exact Htidy|]. intros p Hp.
    by apply tidy_unfold in Hp as (_ & _ & _ & ?).
Qed.

(** ** Lines of digits *)

Lemma numeric_not_header s :
  VideoService.isNumericLine s = true ->
  bool_decide (s = ("WEBVTT" : jsstring)) = false
  /\ JS.truthy s = true /\ JS.includes "-->" s = false.
Proof.
  unfold VideoService.isNumericLine. intros [Htruthy Hdigits]%andb_true_iff.
  split; [|split; [done|]].
  - apply bool_decide_false. intros ->. by vm_compute in Hdigits.
  - destruct (JS.includes "-->" s) eqn:Hinc; [|done].
    apply (includes_In _ _ "-"%char) in Hinc; [|by left].
    rewrite forallb_forall in Hdigits. by apply Hdigits in Hinc.
Qed.

Lemma collectTextLines_skips_numeric before number after inCue :
  VideoService.isNumericLine (JS.trim number) = true ->
  VideoService.collectTextLines inCue (before ++ number :: after)
  = VideoService.collectTextLines inCue (before ++ after).
Proof.
  intros Hnumber. destruct (numeric_not_header _ Hnumber) as (Hheader & Htruthy & Harrow).
  revert inCue. induction before as [|line before IH]; intros inCue.
  - cbn [app VideoService.collectTextLines].
    by rewrite Hheader, Htruthy, Harrow, Hnumber.
  - cbn [app VideoService.collectTextLines]. by rewrite !IH.
Qed.

(** X16.  A line that holds a number and nothing else around it but white space,
    such as a cue number, never reaches the plain text: the text is the one
    of the subtitles without that line. *)
Theorem vttToPlainText_skips_numeric_lines (before after : list jsstring)
    (number : jsstring) :
  VideoService.isNumericLine (JS.trim number) = true ->
  Forall (fun line => lineFree line = true) (before ++ number :: after) ->
  VideoService.vttToPlainText (JS.join [LF] (before ++ number :: after))
  = VideoService.vttToPlainText (JS.join [LF] (before ++ after)).
Proof.
  intros Hnumber Hlines.
  assert (VideoService.textLinesOf (JS.join [LF] (before ++ number :: after))
          = VideoService.textLinesOf (JS.join [LF] (before ++ after))) as Htext.
  { unfold VideoService.textLinesOf. rewrite split_join; [|by destruct before|done].
    rewrite collectTextLines_skips_numeric by done.
    destruct (before ++ after) as [|l ls] eqn:Hrest; [done|].
    rewrite split_join; [done|done|].
    rewrite <- Hrest. apply Forall_app in Hlines as [Hbefore Hafter].
    apply Forall_app. split; [done|]. by inversion Hafter. }
  unfold VideoService.vttToPlainText. by rewrite Htext.
Qed.

Lemma vttToPlainText_skips_numeric_lines_witness :
  VideoService.vttToPlainText
    (JS.join [LF]
       ([("WEBVTT" : jsstring); []]
        ++ ("1" : jsstring)
           :: [("00:00:10.000 --> 00:00:15.000" : jsstring);
               ("Hello" : jsstring)]))
  = VideoService.vttToPlainText
      (JS.join [LF]
         ([("WEBVTT" : jsstring); []]
          ++ [("00:00:10.000 --> 00:00:15.000" : jsstring);
              ("Hello" : jsstring)])).
Proof.
  refine (vttToPlainText_skips_numeric_lines
            [("WEBVTT" : jsstring); []]
            [("00:00:10.000 --> 00:00:15.000" : jsstring); ("Hello" : jsstring)]
            "1" eq_refl _).
  repeat constructor.
Defined.

(** ** The header of a filtered text *)

Lemma filterVttByTimeRange_cues vttContent startTime endTime :
  VideoService.filterVttByTimeRange vttContent startTime endTime
  = JS.trim (JS.join [LF]
      ([("WEBVTT" : jsstring); []]
       ++ flat_map render
            (List.filter (retained startTime endTime) (cuesOf vttContent)))).
Proof.
  unfold VideoService.filterVttByTimeRange, VideoService.filteredLinesOf, cuesOf.
  rewrite processCues_cues, cuesFrom_skipHeader; [done|].
  apply skipHeader_length.
Qed.

Lemma cuesFrom_arrow open lines c :
  (forall o, open = Some o -> VideoService.isArrowLine (timing o) = true) ->
  In c (cuesFrom open lines) -> VideoService.isArrowLine (timing c) = true.
Proof.
  revert open. induction lines as [|line rest IH]; intros open Hopen; simpl.
  - destruct open as [o|]; simpl; [|done].
    intros [Heq|[]]. subst c. exact (Hopen o eq_refl).
  - assert (In c (option_list open) -> VideoService.isArrowLine (timing c) = true)
      as Hflush.
    { destruct open as [o|]; simpl; [|done].
      intros [Heq|[]]. subst c. exact (Hopen o eq_refl). }
    destruct (VideoService.isArrowLine line) eqn:Harrow.
    + rewrite in_app_iff. intros [Hc|Hc]; [by apply Hflush|].
      destruct (VideoService.timestampMatch line) as [[t1 t2]|].
      * refine (IH _ _ Hc). intros o Ho. by injection Ho as <-.
      * by apply (IH None).
    + destruct (JS.truthy (JS.trim line)).
      * destruct open as [o|]; [|by apply (IH None)].
        apply IH. intros o' Ho'. injection Ho' as <-. exact (Hopen o eq_refl).
      * rewrite in_app_iff. intros [Hc|Hc]; [by apply Hflush|].
        by apply (IH None).
Qed.

Lemma trimEnd_app_solid a b :
  solid b = true -> JS.trimEnd (a ++ b) = a ++ JS.trimEnd b.
Proof.
  intros Hb. unfold JS.trimEnd, JS.trimStart.
  unfold solid in Hb. apply existsb_exists in Hb as (c & Hin & Hc).
  apply negb_true_iff in Hc. apply in_split in Hin as (b1 & b2 & ->).
  assert (rev (b1 ++ c :: b2) = rev b2 ++ c :: rev b1) as Hrev.
  { rewrite rev_app_distr. simpl. by rewrite <- app_assoc. }
  rewrite rev_app_distr, Hrev, <- app_assoc. simpl.
  rewrite !dropWhile_app_stop by done.
  rewrite !rev_app_distr. simpl. rewrite !rev_app_distr, !rev_involutive. simpl.
  by rewrite <- !app_assoc.
Qed.

Lemma solid_app_l s t : solid s = true -> solid (s ++ t) = true.
Proof. unfold solid. rewrite existsb_app. by intros ->. Qed.

Lemma trimEnd_solid s : solid s = true -> solid (JS.trimEnd s) = true.
Proof.
  intros Hs. unfold JS.trimEnd, JS.trimStart. rewrite solid_rev.
  apply dropWhile_solid. by rewrite solid_rev.
Qed.

Lemma arrow_solid line : VideoService.isArrowLine line = true -> solid line = true.
Proof.
  intros Harrow. unfold solid. apply existsb_exists. exists "-"%char.
  split; [|done]. apply (includes_In "-->"); [done|by left].
Qed.

Lemma rendered_solid first others :
  VideoService.isArrowLine (timing first) = true ->
  solid (JS.join [LF] (flat_map render (first :: others))) = true.
Proof.
  intros Harrow.
  change (flat_map render (first :: others))
    with (timing first :: ((payload first ++ [[]]) ++ flat_map render others)).
  destruct ((payload first ++ [[]]) ++ flat_map render others) as [|l ls] eqn:Hrest.
  { apply app_eq_nil in Hrest as [Hrest _]. by destruct (payload first). }
  change (JS.join [LF] (timing first :: l :: ls))
    with (timing first ++ [LF] ++ JS.join [LF] (l :: ls)).
  by apply solid_app_l, arrow_solid.
Qed.

(** X17.  The text [filterVttByTimeRange] returns always starts with [WEBVTT] and
    has no white space at either end; it is [WEBVTT] alone exactly when no
    cue is kept, and otherwise [WEBVTT], an empty line and the kept cues,
    each followed by an empty line, without the white space at the end. *)
Theorem filterVttByTimeRange_header (vttContent : jsstring)
    (startTime endTime : float) :
  let kept := List.filter (retained startTime endTime) (cuesOf vttContent) in
  let filtered := VideoService.filterVttByTimeRange vttContent startTime endTime in
  (kept = [] <-> filtered = ("WEBVTT" : jsstring))
  /\ (kept <> [] ->
      filtered
      = "WEBVTT" ++ [LF; LF] ++ JS.trimEnd (JS.join [LF] (flat_map render kept)))
  /\ JS.startsWith "WEBVTT" filtered = true
  /\ JS.trim filtered = filtered.
Proof.
  intros kept filtered.
  assert (filtered = JS.trim (JS.join [LF]
            ([("WEBVTT" : jsstring); []] ++ flat_map render kept))) as Hfiltered
    by apply filterVttByTimeRange_cues.
  assert (kept <> [] ->
          filtered
          = "WEBVTT" ++ [LF; LF] ++ JS.trimEnd (JS.join [LF] (flat_map render kept))
          /\ solid (JS.trimEnd (JS.join [LF] (flat_map render kept))) = true)
    as Hbody.
  { intros Hkept. destruct kept as [|first others] eqn:Hkept_eq; [done|].
    assert (VideoService.isArrowLine (timing first) = true) as Harrow.
    { apply (cuesFrom_arrow None (JS.split (Ascii.eqb LF) vttContent)); [done|].
      assert (In first kept) as Hin by (rewrite Hkept_eq; by left).
      by apply filter_In in Hin as [? _]. }
    pose proof (rendered_solid first others Harrow) as Hsolid.
    split; [|by apply trimEnd_solid].
    rewrite Hfiltered.
    destruct (flat_map render (first :: others)) as [|l ls] eqn:Hlines; [done|].
    change (JS.join [LF] ([("WEBVTT" : jsstring); []] ++ l :: ls))
      with ((("WEBVTT" : jsstring) ++ [LF; LF]) ++ JS.join [LF] (l :: ls)).
    unfold JS.trim. rewrite (dropWhile_fixed _) by done.
    rewrite trimEnd_app_solid by done. by rewrite <- app_assoc. }
  split; [|split; [apply Hbody|split]].
  - split.
    + intros Hkept. rewrite Hfiltered, Hkept. by vm_compute.
    + intros Hheader. destruct kept as [|first others] eqn:Hkept; [done|].
      destruct Hbody as [Heq Hsolid]; [done|]. rewrite Heq in Hheader.
      change ("WEBVTT" : jsstring) with (("WEBVTT" : jsstring) ++ []) in Hheader at 2.
      apply app_inv_head in Hheader. done.
  - destruct kept as [|first others] eqn:Hkept.
    + rewrite Hfiltered. by vm_compute.
    + destruct Hbody as [-> _]; [done|]. apply startsWith_app.
  - rewrite Hfiltered. apply trim_idem.
Qed.

(** ** Filtering a filtered text *)

(** White space only. *)
Definition blank (w : jsstring) : bool := forallb JS.isWhiteSpace w.

Lemma dropWhile_blank w : blank w = true -> JS.dropWhile JS.isWhiteSpace w = [].
Proof.
  induction w as [|c w IH]; simpl; [done|].
  intros [-> Hw]%andb_true_iff. by apply IH.
Qed.

Lemma dropWhile_split p s :
  exists w, s = w ++ JS.dropWhile p s /\ forallb p w = true.
Proof.
  induction s as [|c s (w & IH & Hw)]; simpl; [by exists []|].
  destruct (p c) eqn:Hc; [|by exists []].
  exists (c :: w). simpl. rewrite Hc, Hw. split; [by rewrite <- IH|done].
Qed.

Lemma forallb_rev {A} (p : A -> bool) xs : forallb p (rev xs) = forallb p xs.
Proof.
  induction xs as [|x xs IH]; simpl; [done|].
  rewrite forallb_app, IH. simpl. rewrite andb_true_r. apply andb_comm.
Qed.

Lemma trimEnd_split s : exists w, s = JS.trimEnd s ++ w /\ blank w = true.
Proof.
  unfold JS.trimEnd, JS.trimStart.
  destruct (dropWhile_split JS.isWhiteSpace (rev s)) as (w & Hsplit & Hw).
  exists (rev w). split.
  - rewrite <- (rev_involutive s) at 1. rewrite Hsplit at 1.
    by rewrite rev_app_distr.
  - unfold blank. by rewrite forallb_rev.
Qed.

Lemma trimEnd_blank_app s w : blank w = true -> JS.trimEnd (s ++ w) = JS.trimEnd s.
Proof.
  intros Hw. unfold JS.trimEnd, JS.trimStart. rewrite rev_app_distr. f_equal.
  assert (blank (rev w) = true) as Hrev by (unfold blank; by rewrite forallb_rev).
  clear Hw. induction (rev w) as [|c r IH]; simpl; [done|].
  simpl in Hrev. apply andb_true_iff in Hrev as [-> Hr]. by apply IH.
Qed.

Lemma trimEnd_idem s : JS.trimEnd (JS.trimEnd s) = JS.trimEnd s.
Proof.
  destruct (trimEnd_split s) as (w & Hsplit & Hw).
  rewrite Hsplit at 2. by rewrite trimEnd_blank_app.
Qed.

Lemma takeWhile_app_blank p u w :
  forallb (fun c => negb (p c)) w = true ->
  JS.takeWhile p (u ++ w) = JS.takeWhile p u.
Proof.
  intros Hw. induction u as [|c u IH]; simpl.
  - destruct w as [|d w]; simpl; [done|].
    simpl in Hw. apply andb_true_iff in Hw as [Hd _].
    apply negb_true_iff in Hd. by rewrite Hd.
  - destruct (p c); [by rewrite IH|done].
Qed.

Lemma takeWhile_length p s : length (JS.takeWhile p s) <= length s.
Proof.
  induction s as [|c s IH]; simpl; [done|]. destruct (p c); simpl; lia.
Qed.

Lemma drop_app_short {A} n (a w : list A) :
  n <= length a -> drop n (a ++ w) = drop n a ++ w.
Proof. intros Hn. by rewrite drop_app_le. Qed.

Lemma startsWith_app_blank needle a w :
  forallb (fun c => negb (JS.isWhiteSpace c)) needle = true -> blank w = true ->
  JS.startsWith needle (a ++ w) = JS.startsWith needle a.
Proof.
  intros Hneedle Hw. revert a.
  induction needle as [|n needle IH]; intros a; [done|].
  rewrite (forallb_cons _ n needle) in Hneedle.
  apply andb_true_iff in Hneedle as [Hn Hneedle]. apply negb_true_iff in Hn.
  destruct a as [|c a]; cbn [app JS.startsWith].
  - destruct w as [|d w]; [done|]. cbn [JS.startsWith].
    simpl in Hw. apply andb_true_iff in Hw as [Hd _].
    destruct (Ascii.eqb_spec n d) as [->|]; [congruence|done].
  - by rewrite IH.
Qed.

Lemma includes_app_blank needle a w :
  needle <> [] ->
  forallb (fun c => negb (JS.isWhiteSpace c)) needle = true -> blank w = true ->
  JS.includes needle (a ++ w) = JS.includes needle a.
Proof.
  intros Hne Hneedle Hw.
  assert (forall w', blank w' = true -> JS.includes needle w' = false) as Hnone.
  { destruct needle as [|n needle]; [done|].
    rewrite (forallb_cons _ n needle) in Hneedle.
    apply andb_true_iff in Hneedle as [Hn _]. apply negb_true_iff in Hn.
    induction w' as [|d w' IH]; [done|]. simpl.
    intros [Hd Hw']%andb_true_iff. rewrite IH by done.
    destruct (Ascii.eqb_spec n d) as [->|]; [congruence|done]. }
  induction a as [|c a IH].
  - simpl app. rewrite Hnone by done. by destruct needle.
  - cbn [app JS.includes].
    change (c :: a ++ w) with ((c :: a) ++ w).
    by rewrite startsWith_app_blank, IH.
Qed.

Lemma blank_notDigit w :
  blank w = true -> forallb (fun c => negb (JS.isDigit c)) w = true.
Proof. apply forallb_weaken. intros c Hc. ascii_cases c; done. Qed.

Lemma blank_notTimeChar w :
  blank w = true -> forallb (fun c => negb (VideoService.isTimeChar c)) w = true.
Proof. apply forallb_weaken. intros c Hc. ascii_cases c; done. Qed.

Lemma matchTime_app_blank u w :
  blank w = true ->
  VideoService.matchTime (u ++ w)
  = match VideoService.matchTime u with
    | Some (g, r) => Some (g, r ++ w)
    | None => None
    end.
Proof.
  intros Hw. unfold VideoService.matchTime.
  rewrite takeWhile_app_blank by (by apply blank_notDigit).
  pose proof (takeWhile_length JS.isDigit u) as Hlen.
  destruct (JS.takeWhile JS.isDigit u) as [|d ds]; [done|].
  rewrite drop_app_short by done.
  destruct (drop (length (d :: ds)) u) as [|c r].
  - destruct w as [|x w]; [done|]. simpl app.
    simpl in Hw. apply andb_true_iff in Hw as [Hx _].
    ascii_cases x; done.
  - cbn [app]. destruct (Ascii.eqb_spec c ":") as [->|Hne].
    + rewrite takeWhile_app_blank by (by apply blank_notTimeChar).
      pose proof (takeWhile_length VideoService.isTimeChar r) as Hlen'.
      destruct (JS.takeWhile VideoService.isTimeChar r) as [|t ts]; [done|].
      by rewrite drop_app_short.
    + ascii_cases c; done.
Qed.

Lemma dropWhile_app_blank r w :
  blank w = true ->
  JS.dropWhile JS.isWhiteSpace (r ++ w)
  = match JS.dropWhile JS.isWhiteSpace r with
    | [] => []
    | c :: r1 => (c :: r1) ++ w
    end.
Proof.
  intros Hw. induction r as [|c r IH]; simpl.
  - by rewrite dropWhile_blank.
  - destruct (JS.isWhiteSpace c); [exact IH|done].
Qed.

Lemma startsWith_length p s : JS.startsWith p s = true -> length p <= length s.
Proof.
  intros (r & ->)%startsWith_spec. rewrite length_app. lia.
Qed.

Lemma matchTimestampAt_app_blank u w :
  blank w = true ->
  VideoService.matchTimestampAt (u ++ w) = VideoService.matchTimestampAt u.
Proof.
  intros Hw. unfold VideoService.matchTimestampAt.
  rewrite matchTime_app_blank by done.
  destruct (VideoService.matchTime u) as [[g1 r]|]; [|done].
  rewrite dropWhile_app_blank by done.
  destruct (JS.dropWhile JS.isWhiteSpace r) as [|c r1]; [done|].
  rewrite startsWith_app_blank by done.
  destruct (JS.startsWith "-->" (c :: r1)) eqn:Hstart; [|done].
  apply startsWith_length in Hstart.
  rewrite drop_app_short by exact Hstart.
  rewrite dropWhile_app_blank by done.
  destruct (JS.dropWhile JS.isWhiteSpace (drop 3 (c :: r1))) as [|c2 r2]; [done|].
  rewrite matchTime_app_blank by done.
  by destruct (VideoService.matchTime (c2 :: r2)) as [[g2 ?]|].
Qed.

Lemma timestampMatch_blank w :
  blank w = true -> VideoService.timestampMatch w = None.
Proof.
  induction w as [|c w IH]; [done|]. intros Hw.
  pose proof Hw as Hw'. simpl in Hw'. apply andb_true_iff in Hw' as [Hc Hw'].
  cbn [VideoService.timestampMatch]. rewrite IH by done.
  assert (VideoService.matchTimestampAt (c :: w) = None) as ->; [|done].
  unfold VideoService.matchTimestampAt, VideoService.matchTime.
  cbn [JS.takeWhile].
  assert (JS.isDigit c = false) as ->; [|done].
  clear -Hc. ascii_cases c; done.
Qed.

Lemma timestampMatch_app_blank t w :
  blank w = true ->
  VideoService.timestampMatch (t ++ w) = VideoService.timestampMatch t.
Proof.
  intros Hw. induction t as [|c t IH].
  - simpl app. by rewrite timestampMatch_blank.
  - cbn [app VideoService.timestampMatch].
    change (c :: t ++ w) with ((c :: t) ++ w).
    by rewrite matchTimestampAt_app_blank, IH.
Qed.

Lemma timestampMatch_trimEnd t :
  VideoService.timestampMatch (JS.trimEnd t) = VideoService.timestampMatch t.
Proof.
  destruct (trimEnd_split t) as (w & Hsplit & Hw).
  rewrite Hsplit at 2. by rewrite timestampMatch_app_blank.
Qed.

Lemma isArrowLine_trimEnd t :
  VideoService.isArrowLine (JS.trimEnd t) = VideoService.isArrowLine t.
Proof.
  destruct (trimEnd_split t) as (w & Hsplit & Hw).
  rewrite Hsplit at 2. unfold VideoService.isArrowLine.
  by rewrite includes_app_blank.
Qed.

(** A text line of a cue, as the inner loops take it. *)
Definition isTextLine (line : jsstring) : bool :=
  JS.truthy (JS.trim line) && negb (VideoService.isArrowLine line).

(** What holds of every cue [cuesOf] reads. *)
Definition wellFormed (c : Cue) : Prop :=
  VideoService.isArrowLine (timing c) = true
  /\ timedByItsLine c
  /\ Forall (fun l => isTextLine l = true) (payload c)
  /\ lineFree (timing c) = true
  /\ Forall (fun l => lineFree l = true) (payload c).

Lemma cuesFrom_wellFormed open lines c :
  Forall (fun l => lineFree l = true) lines ->
  (forall o, open = Some o -> wellFormed o) ->
  In c (cuesFrom open lines) -> wellFormed c.
Proof.
  intros Hlines. revert open.
  induction Hlines as [|line rest Hline Hrest IH]; intros open Hopen; simpl.
  - destruct open as [o|]; simpl; [|done].
    intros [Heq|[]]. subst c. exact (Hopen o eq_refl).
  - assert (In c (option_list open) -> wellFormed c) as Hflush.
    { destruct open as [o|]; simpl; [|done].
      intros [Heq|[]]. subst c. exact (Hopen o eq_refl). }
    destruct (VideoService.isArrowLine line) eqn:Harrow.
    + rewrite in_app_iff. intros [Hc|Hc]; [by apply Hflush|].
      destruct (VideoService.timestampMatch line) as [[t1 t2]|] eqn:Hmatch.
      * refine (IH _ _ Hc). intros o Ho. injection Ho as <-.
        split; [done|]. split; [by exists t1, t2|]. by repeat split.
      * by apply (IH None).
    + destruct (JS.truthy (JS.trim line)) eqn:Htext.
      * destruct open as [o|]; [|by apply (IH None)].
        apply IH. intros o' Ho'. injection Ho' as <-.
        destruct (Hopen o eq_refl) as (Ha & (t1 & t2 & Ht) & Hp & Hl & Hpl).
        split; [done|]. split; [by exists t1, t2|]. simpl.
        split; [|split; [done|]].
        -- apply Forall_app. split; [done|]. constructor; [|done].
           unfold isTextLine. by rewrite Htext, Harrow.
        -- apply Forall_app. split; [done|]. by constructor.
      * rewrite in_app_iff. intros [Hc|Hc]; [by apply Hflush|].
        by apply (IH None).
Qed.

Lemma cuesOf_wellFormed vttContent c : In c (cuesOf vttContent) -> wellFormed c.
Proof.
  apply cuesFrom_wellFormed; [|done].
  apply Forall_forall. intros part Hpart%list_elem_of_In.
  by apply split_lineFree in Hpart.
Qed.

Lemma cueTextLines_app lines rest :
  Forall (fun l => isTextLine l = true) lines ->
  VideoService.cueTextLines (lines ++ rest)
  = (lines ++ (VideoService.cueTextLines rest).1, (VideoService.cueTextLines rest).2).
Proof.
  induction 1 as [|line lines Hline _ IH]; simpl.
  - by destruct (VideoService.cueTextLines rest).
  - unfold isTextLine in Hline. rewrite Hline, IH. reflexivity.
Qed.

(** The lines of a cue without the blank line that closes it. *)
Definition bodyOf (c : Cue) : list jsstring := timing c :: payload c.

Lemma cuesFrom_cue c rest :
  wellFormed c ->
  (VideoService.cueTextLines rest).1 = [] ->
  cuesFrom None (bodyOf c ++ rest)
  = c :: cuesFrom None (VideoService.cueTextLines rest).2.
Proof.
  intros (Harrow & (t1 & t2 & Hmatch & Hstart & Hend) & Hpayload & _) Hrest.
  unfold bodyOf. cbn [app cuesFrom]. rewrite Harrow, Hmatch. cbn [option_list app].
  rewrite cuesFrom_open, cueTextLines_app by done. cbn [fst snd].
  rewrite Hrest, app_nil_r. f_equal.
  destruct c as [t s e p]. unfold addLines. simpl in *. by rewrite Hstart, Hend.
Qed.

Lemma cuesFrom_rendered cues rest :
  Forall wellFormed cues ->
  cuesFrom None (flat_map render cues ++ rest) = cues ++ cuesFrom None rest.
Proof.
  induction 1 as [|c cues Hc _ IH]; [done|].
  cbn [flat_map]. unfold render at 1.
  change (timing c :: payload c ++ [[]]) with (bodyOf c ++ [[]]).
  rewrite <- !app_assoc. rewrite cuesFrom_cue by done.
  cbn [app VideoService.cueTextLines JS.trim JS.trimStart JS.trimEnd JS.dropWhile
         rev JS.truthy andb fst snd].
  change (cuesFrom None ([] :: flat_map render cues ++ rest))
    with (cuesFrom None (flat_map render cues ++ rest)).
  by rewrite IH.
Qed.

(** The cue with the white space at the end of its last line removed: what
    the final [trim] does to the last cue of the text. *)
Definition trimLast (c : Cue) : Cue :=
  match payload c with
  | [] => {| timing := JS.trimEnd (timing c); cueStart := cueStart c;
             cueEnd := cueEnd c; payload := [] |}
  | line :: lines =>
      {| timing := timing c; cueStart := cueStart c; cueEnd := cueEnd c;
         payload := removelast (line :: lines)
                    ++ [JS.trimEnd (List.last (line :: lines) [])] |}
  end.

Lemma In_trimEnd c s : In c (JS.trimEnd s) -> In c s.
Proof.
  destruct (trimEnd_split s) as (w & Hsplit & _). intros Hin.
  rewrite Hsplit. apply in_app_iff. by left.
Qed.

Lemma trimEnd_lineFree s : lineFree s = true -> lineFree (JS.trimEnd s) = true.
Proof. rewrite !lineFree_In. intros Hs Hin. by apply Hs, In_trimEnd. Qed.

Lemma truthy_trim_solid s : JS.truthy (JS.trim s) = true <-> solid s = true.
Proof.
  split.
  - intros Hs%trim_truthy_solid. unfold solid in *.
    apply existsb_exists in Hs as (c & Hin & Hc). apply existsb_exists.
    exists c. split; [by apply In_trim|done].
  - intros Hs%solid_trim. by destruct (JS.trim s).
Qed.

Lemma isTextLine_trimEnd line :
  isTextLine line = true -> isTextLine (JS.trimEnd line) = true.
Proof.
  unfold isTextLine. rewrite isArrowLine_trimEnd.
  intros [Htext ->]%andb_true_iff. rewrite andb_true_r.
  apply truthy_trim_solid, trimEnd_solid. by apply truthy_trim_solid.
Qed.

Lemma isTextLine_solid line : isTextLine line = true -> solid line = true.
Proof.
  unfold isTextLine. intros [Htext _]%andb_true_iff. by apply truthy_trim_solid.
Qed.

Lemma bodyOf_trimLast c :
  wellFormed c ->
  exists before line,
    bodyOf c = before ++ [line]
    /\ bodyOf (trimLast c) = before ++ [JS.trimEnd line]
    /\ solid line = true.
Proof.
  intros (Harrow & _ & Hpayload & _). unfold bodyOf, trimLast.
  destruct (payload c) as [|l ls] eqn:Hp.
  - exists [], (timing c). simpl. split; [done|]. split; [done|].
    by apply arrow_solid.
  - exists (timing c :: removelast (l :: ls)), (List.last (l :: ls) []).
    cbn [payload timing app].
    rewrite <- app_removelast_last by done. split; [done|]. split; [done|].
    apply isTextLine_solid. rewrite Forall_forall in Hpayload.
    apply Hpayload, list_elem_of_In.
    destruct (exists_last (l := l :: ls) ltac:(done)) as (l' & a & ->).
    rewrite last_last. apply in_app_iff. right. by left.
Qed.

Lemma trimLast_wellFormed c : wellFormed c -> wellFormed (trimLast c).
Proof.
  intros (Harrow & (t1 & t2 & Hmatch & Hstart & Hend) & Hpayload & Hline & Hlines).
  unfold trimLast. destruct (payload c) as [|l ls] eqn:Hp.
  - unfold wellFormed, timedByItsLine. cbn [timing cueStart cueEnd payload].
    split; [by rewrite isArrowLine_trimEnd|]. split.
    + exists t1, t2. by rewrite timestampMatch_trimEnd.
    + split; [done|]. split; [by apply trimEnd_lineFree|done].
  - destruct (exists_last (l := l :: ls) ltac:(done)) as (l' & a & Heq).
    rewrite Heq in *. rewrite removelast_last, last_last.
    apply Forall_app in Hpayload as [Hl' Ha]. apply Forall_app in Hlines as [Hll' Hla].
    inversion Ha; subst. inversion Hla; subst.
    unfold wellFormed, timedByItsLine. cbn [timing cueStart cueEnd payload].
    split; [done|]. split; [by exists t1, t2|].
    split; [|split; [done|]].
    + apply Forall_app. split; [done|]. constructor; [|done].
      by apply isTextLine_trimEnd.
    + apply Forall_app. split; [done|]. constructor; [|done].
      by apply trimEnd_lineFree.
Qed.

Lemma trimLast_idem c : trimLast (trimLast c) = trimLast c.
Proof.
  unfold trimLast at 2 3. destruct (payload c) as [|l ls] eqn:Hp.
  - unfold trimLast. cbn [payload timing cueStart cueEnd]. by rewrite trimEnd_idem.
  - destruct (exists_last (l := l :: ls) ltac:(done)) as (l' & a & Heq).
    rewrite Heq. rewrite removelast_last, last_last.
    unfold trimLast. cbn [payload timing cueStart cueEnd].
    destruct (l' ++ [JS.trimEnd a]) as [|x xs] eqn:Hnew; [by destruct l'|].
    rewrite <- Hnew. by rewrite removelast_last, last_last, trimEnd_idem.
Qed.

Lemma trimLast_times startTime endTime c :
  retained startTime endTime (trimLast c) = retained startTime endTime c.
Proof. unfold retained, trimLast. by destruct (payload c). Qed.

Lemma join_snoc sep parts x :
  parts <> [] -> JS.join sep (parts ++ [x]) = JS.join sep parts ++ sep ++ x.
Proof.
  induction parts as [|p parts IH]; [done|]. intros _.
  destruct parts as [|q parts]; [done|].
  change (JS.join sep ((p :: q :: parts) ++ [x]))
    with (p ++ sep ++ JS.join sep ((q :: parts) ++ [x])).
  rewrite IH by done.
  change (JS.join sep (p :: q :: parts)) with (p ++ sep ++ JS.join sep (q :: parts)).
  by rewrite <- !app_assoc.
Qed.

(** The final [trim] removes the blank line that closes the last cue and
    the white space that ends the line before it. *)
Lemma trim_join_closed lines line :
  solid line = true ->
  JS.trim (JS.join [LF] ((("WEBVTT" : jsstring) :: lines) ++ [line; []]))
  = JS.join [LF] ((("WEBVTT" : jsstring) :: lines) ++ [JS.trimEnd line]).
Proof.
  intros Hline.
  change [line; []] with ([line] ++ [([] : jsstring)]).
  rewrite app_assoc, join_snoc by (by destruct lines).
  rewrite join_snoc by done. rewrite join_snoc by done.
  unfold JS.trim. rewrite (dropWhile_fixed _); [|by destruct lines].
  rewrite app_nil_r. rewrite trimEnd_blank_app by done.
  rewrite trimEnd_app_solid by (by apply solid_app_r).
  f_equal. by rewrite trimEnd_app_solid.
Qed.

Lemma filtered_text cues last :
  wellFormed last ->
  JS.trim (JS.join [LF]
    ([("WEBVTT" : jsstring); []] ++ flat_map render (cues ++ [last])))
  = JS.join [LF]
      ([("WEBVTT" : jsstring); []] ++ flat_map render cues ++ bodyOf (trimLast last)).
Proof.
  intros Hlast. destruct (bodyOf_trimLast last Hlast) as (before & line & Hb & Hb' & Hsolid).
  rewrite flat_map_app. cbn [flat_map]. rewrite app_nil_r. unfold render at 2.
  change (timing last :: payload last ++ [[]]) with (bodyOf last ++ [[]]).
  rewrite Hb, Hb'.
  replace ([("WEBVTT" : jsstring); []] ++ flat_map render cues ++ (before ++ [line]) ++ [[]])
    with ((("WEBVTT" : jsstring) :: ([] :: flat_map render cues ++ before)) ++ [line; []])
    by (cbn [app]; by rewrite <- !app_assoc).
  rewrite trim_join_closed by done.
  cbn [app]. by rewrite <- !app_assoc.
Qed.

Lemma bodyOf_lineFree c :
  wellFormed c -> Forall (fun l => lineFree l = true) (bodyOf c).
Proof. intros (_ & _ & _ & Hline & Hlines). by constructor. Qed.

Lemma rendered_lineFree cues :
  Forall wellFormed cues ->
  Forall (fun l => lineFree l = true) (flat_map render cues).
Proof.
  induction 1 as [|c cues Hc _ IH]; [constructor|].
  cbn [flat_map]. apply Forall_app. split; [|done].
  unfold render. change (timing c :: payload c ++ [[]]) with (bodyOf c ++ [[]]).
  apply Forall_app. split; [by apply bodyOf_lineFree|]. by constructor.
Qed.

Lemma cuesFrom_header rest :
  cuesFrom None (("WEBVTT" : jsstring) :: [] :: rest) = cuesFrom None rest.
Proof. reflexivity. Qed.

(** X18.  Filtering a filtered text again, with the same window, changes
    nothing. *)
Theorem filterVttByTimeRange_idempotent (vttContent : jsstring)
    (startTime endTime : float) :
  VideoService.filterVttByTimeRange
    (VideoService.filterVttByTimeRange vttContent startTime endTime)
    startTime endTime
  = VideoService.filterVttByTimeRange vttContent startTime endTime.
Proof.
  rewrite (filterVttByTimeRange_cues vttContent).
  set (kept := List.filter (retained startTime endTime) (cuesOf vttContent)).
  assert (Forall wellFormed kept) as Hwf.
  { apply Forall_forall. intros c Hc%list_elem_of_In.
    apply filter_In in Hc as [Hc _]. by eapply cuesOf_wellFormed. }
  assert (Forall (fun c => retained startTime endTime c = true) kept) as Hkept.
  { apply Forall_forall. intros c Hc%list_elem_of_In.
    by apply filter_In in Hc as [_ ?]. }
  clearbody kept. destruct kept as [|k ks].
  { by vm_compute. }
  destruct (exists_last (l := k :: ks) ltac:(done)) as (cues & last & Heq).
  rewrite Heq in *. clear Heq k ks.
  apply Forall_app in Hwf as [Hcues Hlast]. inversion Hlast as [|? ? Hlast' _]; subst.
  apply Forall_app in Hkept as [Hkept Hkept_last].
  inversion Hkept_last as [|? ? Hkept_last' _]; subst.
  pose proof (trimLast_wellFormed last Hlast') as Htrimmed.
  rewrite filtered_text by done.
  rewrite filterVttByTimeRange_cues.
  assert (cuesOf (JS.join [LF]
            ([("WEBVTT" : jsstring); []] ++ flat_map render cues
             ++ bodyOf (trimLast last)))
          = cues ++ [trimLast last]) as ->.
  { unfold cuesOf. rewrite split_join.
    - cbn [app]. rewrite cuesFrom_header.
      rewrite cuesFrom_rendered by done.
      rewrite <- (app_nil_r (bodyOf (trimLast last))).
      by rewrite cuesFrom_cue.
    - done.
    - repeat (apply Forall_app; split); [by repeat constructor| |].
      + by apply rendered_lineFree.
      + by apply bodyOf_lineFree. }
  rewrite filter_all.
  - rewrite filtered_text by done. by rewrite trimLast_idem.
  - apply Forall_app. split; [done|]. constructor; [|done].
    by rewrite trimLast_times.
Qed.

Lemma filterVttByTimeRange_idempotent_example :
  VideoService.filterVttByTimeRange firstCue 5 12 = firstCue.
Proof. by vm_compute. Qed.

(** ** Widening the window *)

Lemma SFleb_trans (a b c : spec_float) :
  SFleb a b = true -> SFleb b c = true -> SFleb a c = true.
Proof.
  unfold SFleb.
  destruct a as [sa|sa| |sa ma ea], b as [sb|sb| |sb mb eb],
    c as [sc|sc| |sc mc ec]; simpl; try done;
    try (by destruct sa, sb, sc).
  change (PosDef.Pos.compare_cont Eq ma mb) with (Pos.compare ma mb).
  change (PosDef.Pos.compare_cont Eq mb mc) with (Pos.compare mb mc).
  change (PosDef.Pos.compare_cont Eq ma mc) with (Pos.compare ma mc).
  destruct sa, sb, sc; try done;
    destruct (Z.compare_spec ea eb), (Z.compare_spec eb ec),
      (Z.compare_spec ea ec); try done; try lia;
    destruct (Pos.compare_spec ma mb), (Pos.compare_spec mb mc),
      (Pos.compare_spec ma mc); simpl; try done; try lia.
Qed.

Lemma leb_trans (x y z : float) :
  PrimFloat.leb x y = true -> PrimFloat.leb y z = true -> PrimFloat.leb x z = true.
Proof. rewrite !FloatAxioms.leb_spec. apply SFleb_trans. Qed.

Lemma retained_wider startTime endTime startTime' endTime' c :
  PrimFloat.leb startTime' startTime = true ->
  PrimFloat.leb endTime endTime' = true ->
  retained startTime endTime c = true -> retained startTime' endTime' c = true.
Proof.
  unfold retained, Num.geb, Num.leb. intros Hstart Hend [H1 H2]%andb_true_iff.
  by rewrite (leb_trans _ _ _ Hstart H1), (leb_trans _ _ _ H2 Hend).
Qed.

Lemma filter_sublist {A} (p q : A -> bool) xs :
  (forall x, p x = true -> q x = true) ->
  sublist (List.filter p xs) (List.filter q xs).
Proof.
  intros Hpq. induction xs as [|x xs IH]; simpl; [constructor|].
  destruct (p x) eqn:Hp.
  - rewrite (Hpq _ Hp). by constructor.
  - destruct (q x); [by constructor|done].
Qed.

Lemma flat_map_sublist {A B} (f : A -> list B) xs ys :
  sublist xs ys -> sublist (flat_map f xs) (flat_map f ys).
Proof.
  induction 1 as [|x xs ys _ IH|x xs ys _ IH]; simpl; [constructor| |].
  - by apply sublist_app.
  - by apply sublist_inserts_l.
Qed.

(** X19.  A window that starts no later and ends no earlier keeps every cue the
    narrower one keeps, in the same order: the cues and the lines of the
    narrower selection are a sublist of those of the wider one. *)
Theorem filterVttByTimeRange_wider_window (vttContent : jsstring)
    (startTime endTime startTime' endTime' : float) :
  PrimFloat.leb startTime' startTime = true ->
  PrimFloat.leb endTime endTime' = true ->
  let kept := List.filter (retained startTime endTime) (cuesOf vttContent) in
  let kept' := List.filter (retained startTime' endTime') (cuesOf vttContent) in
  sublist kept kept'
  /\ (forall c, In c kept -> In c kept')
  /\ sublist (VideoService.filteredLinesOf vttContent startTime endTime)
       (VideoService.filteredLinesOf vttContent startTime' endTime').
Proof.
  intros Hstart Hend kept kept'.
  assert (sublist kept kept') as Hsub.
  { apply filter_sublist. intros c. by apply retained_wider. }
  split; [done|]. split.
  - intros c Hc%list_elem_of_In. apply list_elem_of_In.
    by eapply elem_of_sublist.
  - unfold VideoService.filteredLinesOf.
    rewrite !processCues_cues by apply skipHeader_length.
    rewrite !cuesFrom_skipHeader. fold (cuesOf vttContent). fold kept kept'.
    apply sublist_app; [done|]. by apply flat_map_sublist.
Qed.

Lemma filterVttByTimeRange_wider_window_witness :
  In helloCue (List.filter (retained 0 100) (cuesOf sampleVtt)).
Proof.
  apply (proj1 (proj2 (filterVttByTimeRange_wider_window sampleVtt 5 12 0 100
                         eq_refl eq_refl))).
  vm_compute. by left.
Defined.

(** ** Times that cannot be read *)

Lemma SFcompare_nan (f : spec_float) :
  SFcompare f S754_nan = None /\ SFcompare S754_nan f = None.
Proof. by destruct f. Qed.

Lemma is_nan_Prim2SF (x : float) :
  PrimFloat.is_nan x = true -> Prim2SF x = S754_nan.
Proof.
  unfold PrimFloat.is_nan. rewrite FloatAxioms.eqb_spec. unfold SFeqb.
  destruct (Prim2SF x) as [s|s| |s m e]; simpl; try done.
  - by destruct s.
  - rewrite Z.compare_refl, Pos.compare_cont_refl. by destruct s.
Qed.

Lemma leb_nan (x y : float) :
  PrimFloat.is_nan x = true \/ PrimFloat.is_nan y = true ->
  PrimFloat.leb x y = false.
Proof.
  rewrite FloatAxioms.leb_spec. unfold SFleb.
  intros [Hx%is_nan_Prim2SF|Hy%is_nan_Prim2SF].
  - by rewrite Hx.
  - rewrite Hy. by rewrite (proj1 (SFcompare_nan _)).
Qed.

Lemma retained_nan startTime endTime c :
  PrimFloat.is_nan (cueStart c) = true \/ PrimFloat.is_nan (cueEnd c) = true
  \/ PrimFloat.is_nan startTime = true \/ PrimFloat.is_nan endTime = true ->
  retained startTime endTime c = false.
Proof.
  unfold retained, Num.geb, Num.leb. intros [H|[H|[H|H]]].
  - rewrite (leb_nan (cueStart c) endTime) by auto. apply andb_false_r.
  - by rewrite (leb_nan startTime (cueEnd c)) by auto.
  - by rewrite (leb_nan startTime (cueEnd c)) by auto.
  - rewrite (leb_nan (cueStart c) endTime) by auto. apply andb_false_r.
Qed.

(** A cue whose start reads [00::05], which the timestamp pattern accepts. *)
Definition brokenVtt : jsstring :=
  JS.join [LF]
    [("WEBVTT" : jsstring); [];
     ("00::05 --> 00:00:09.000" : jsstring); ("Hello" : jsstring)].

(** X20.  A time that is not a number never passes the window: a cue with such a
    start or end is dropped, and a window with such a bound drops every
    cue.  [parseVttTimestamp] gives 0 for a text that is not in two or
    three parts, and a time that is not a number for [00::05], which the
    cue pattern accepts: such a cue is dropped by [filterVttByTimeRange] for
    every window, while [vttToPlainText] keeps its text. *)
Theorem unreadable_time_drops_cue :
  (forall startTime endTime c,
     PrimFloat.is_nan (cueStart c) = true \/ PrimFloat.is_nan (cueEnd c) = true
     \/ PrimFloat.is_nan startTime = true \/ PrimFloat.is_nan endTime = true ->
     retained startTime endTime c = false)
  /\ (forall vttContent startTime endTime,
        PrimFloat.is_nan startTime = true \/ PrimFloat.is_nan endTime = true ->
        VideoService.filterVttByTimeRange vttContent startTime endTime
        = ("WEBVTT" : jsstring))
  /\ (forall t,
        let parts := JS.split (Ascii.eqb ":") (JS.trim t) in
        length parts <> 2 -> length parts <> 3 ->
        VideoService.parseVttTimestamp t = 0%float)
  /\ VideoService.timestampMatch "00::05 --> 00:00:09.000"
     = Some (("00::05" : jsstring), ("00:00:09.000" : jsstring))
  /\ PrimFloat.is_nan (VideoService.parseVttTimestamp "00::05") = true
  /\ (forall startTime endTime,
        VideoService.filterVttByTimeRange brokenVtt startTime endTime
        = ("WEBVTT" : jsstring))
  /\ VideoService.vttToPlainText brokenVtt = ("Hello" : jsstring).
Proof.
  split; [apply retained_nan|]. split; [|split; [|split; [|split; [|split]]]].
  - intros vtt s e Hnan. rewrite filterVttByTimeRange_cues.
    assert (List.filter (retained s e) (cuesOf vtt) = []) as ->; [|by vm_compute].
    induction (cuesOf vtt) as [|c cs IH]; [done|]. simpl.
    rewrite retained_nan by auto. exact IH.
  - intros t parts H2 H3. unfold VideoService.parseVttTimestamp. fold parts.
    by destruct parts as [|a [|b [|c [|d rest]]]].
  - by vm_compute.
  - by vm_compute.
  - intros s e. rewrite filterVttByTimeRange_cues.
    assert (exists c, cuesOf brokenVtt = [c]
                      /\ PrimFloat.is_nan (cueStart c) = true) as (c & -> & Hc).
    { eexists. split; vm_compute; reflexivity. }
    simpl. rewrite retained_nan by auto. by vm_compute.
  - by vm_compute.
Qed.

(** ** The metadata request *)

Lemma URLSearchParams_get_filter ps name other :
  name <> other ->
  URLSearchParams_get (filter (fun kv => kv.1 <> other) ps) name
  = URLSearchParams_get ps name.
Proof.
  intros Hne. induction ps as [|[k v] ps IH]; [done|].
  rewrite filter_cons. simpl. destruct (decide (k <> other)) as [Hk|Hk]; simpl.
  - by rewrite IH.
  - apply dec_stable in Hk. subst k. rewrite bool_decide_false by done. exact IH.
Qed.

Lemma URLSearchParams_get_set ps name value :
  URLSearchParams_get (URLSearchParams_set ps name value) name = Some value.
Proof.
  induction ps as [|[k v] ps IH]; simpl.
  - by rewrite bool_decide_true.
  - case_bool_decide as Hk; simpl; [by rewrite bool_decide_true|].
    by rewrite bool_decide_false.
Qed.

Lemma URLSearchParams_get_set_other ps name other value :
  name <> other ->
  URLSearchParams_get (URLSearchParams_set ps other value) name
  = URLSearchParams_get ps name.
Proof.
  intros Hne. induction ps as [|[k v] ps IH]; simpl.
  - by rewrite bool_decide_false.
  - case_bool_decide as Hk; simpl.
    + subst k. rewrite bool_decide_false by done.
      by apply URLSearchParams_get_filter.
    + case_bool_decide; [done|exact IH].
Qed.

(** X21.  When the request for the metadata is answered, [fetchVideoMetadata]
    returns the parsed body on a status from 200 to 299, throws [NOT_FOUND]
    on 404 and [SERVICE_UNAVAILABLE] with the status in the message on any
    other.  The URL requested carries [output=json], the identifier under
    the name of its kind, the track, and the language under both
    [langwritten] and [txtCMSLang]. *)
Theorem fetchVideoMetadata_by_status `{Platform}
    (net : Network) (id track language : jsstring) (type : IdType)
    (apiUrl : URL) (response : Response) :
  URL_new VideoService.JW_PUBMEDIA_API = Some apiUrl ->
  let request :=
    VideoService.apiParams (URL_searchParams apiUrl) id track language type in
  let requested :=
    URL_toString (URL_setSearch apiUrl ("?"%char :: URLSearchParams_toString request)) in
  (VideoService.fetchWithRetry net requested).2 = Returns response ->
  let outcome := VideoService.fetchVideoMetadata net id track language type in
  ((200 <= status response <= 299)%Z -> outcome = json response)
  /\ (status response = 404%Z ->
      outcome = Throws (createWOLError NOT_FOUND "Video not found"))
  /\ (~ (200 <= status response <= 299)%Z -> status response <> 404%Z ->
      outcome
      = Throws (createWOLError SERVICE_UNAVAILABLE
                  ("API request failed: " ++ JS.intToString (status response))))
  /\ URL_searchParams (URL_setSearch apiUrl ("?"%char :: URLSearchParams_toString request))
     = request
  /\ URLSearchParams_get request "output" = Some ("json" : jsstring)
  /\ URLSearchParams_get request (VideoService.typeName type) = Some id
  /\ URLSearchParams_get request "track" = Some track
  /\ URLSearchParams_get request "langwritten" = Some language
  /\ URLSearchParams_get request "txtCMSLang" = Some language
  /\ (URL_searchParams apiUrl = [] ->
      request = [("output" : jsstring, "json" : jsstring);
                 (VideoService.typeName type, id); ("track" : jsstring, track);
                 ("langwritten" : jsstring, language);
                 ("txtCMSLang" : jsstring, language)]).
Proof.
  intros Hnew request requested Hfetch outcome.
  unfold outcome, VideoService.fetchVideoMetadata. rewrite Hnew.
  fold request requested. rewrite Hfetch. simpl. unfold ok.
  split; [|split; [|split; [|split]]].
  - intros [Hlo Hhi].
    by rewrite (proj2 (Z.leb_le _ _) Hlo), (proj2 (Z.leb_le _ _) Hhi).
  - by intros ->.
  - intros Hrange Hne.
    assert ((200 <=? status response)%Z && (status response <=? 299)%Z = false) as ->.
    { apply andb_false_iff. lia. }
    simpl. by rewrite (proj2 (Z.eqb_neq _ _) Hne).
  - apply URL_searchParams_setSearch. unfold request, VideoService.apiParams.
    by destruct (URLSearchParams_set _ "langwritten" language) as [|[] ?];
      simpl; try case_bool_decide.
  - unfold request, VideoService.apiParams. repeat split.
    + rewrite !URLSearchParams_get_set_other by (by destruct type).
      apply URLSearchParams_get_set.
    + rewrite !URLSearchParams_get_set_other by (by destruct type).
      apply URLSearchParams_get_set.
    + rewrite !URLSearchParams_get_set_other by done.
      apply URLSearchParams_get_set.
    + rewrite !URLSearchParams_get_set_other by done.
      apply URLSearchParams_get_set.
    + apply URLSearchParams_get_set.
    + intros ->. by destruct type.
Qed.

Definition mediaEndpoint : Reference.url :=
  {| Reference.scheme := "https"; Reference.host := "b.jw-cdn.org";
     Reference.port := []; Reference.path := "/apis/pub-media/GETPUBMEDIALINKS";
     Reference.query := None; Reference.fragment := None |}.

Lemma fetchVideoMetadata_by_status_witness :
  @VideoService.fetchVideoMetadata referencePlatform mediaNetwork
    "jwbvod25" "41" "E" pub
  = Returns sampleMedia.
Proof.
  refine (proj1 (@fetchVideoMetadata_by_status referencePlatform mediaNetwork
                   "jwbvod25" "41" "E" pub mediaEndpoint
                   {| status := 200; text := Returns [];
                      json := Returns sampleMedia |} _ _) _).
  - vm_compute. reflexivity.
  - vm_compute. reflexivity.
  - simpl. lia.
Defined.

(** ** What [getVideoSubtitles] needs from the metadata *)

(** X22.  For a URL that is parsed and metadata that are obtained,
    [getVideoSubtitles] throws [NOT_FOUND] when the language has no video
    file, when the first file has no subtitles, and when the subtitle file
    is answered with a status outside 200 to 299; a result gives the URL of
    the subtitles of the first file, the title, duration and image of that
    file, the language asked for, and the labels of all the files. *)
Theorem getVideoSubtitles_first_file `{Platform}
    (net : Network) (url format : jsstring) (startTime endTime : option float)
    (params : ParsedVideoParams) (media : PubMediaResponse) :
  VideoService.parseVideoUrl url = Returns params ->
  VideoService.fetchVideoMetadata net (pv_id params) (pv_track params)
    (pv_language params) (pv_type params) = Returns media ->
  let videos := files media !! pv_language params ≫= MP4 in
  let outcome := VideoService.getVideoSubtitles net url format startTime endTime in
  (videos = None \/ videos = Some [] ->
   outcome = Throws (createWOLError NOT_FOUND
                       "No video files found for the specified language"))
  /\ (forall first others,
        videos = Some (first :: others) ->
        (pm_subtitles first = None ->
         outcome = Throws (createWOLError NOT_FOUND
                             "No subtitles available for this video"))
        /\ (forall subs,
              pm_subtitles first = Some subs ->
              (forall response,
                 (VideoService.fetchWithRetry net (sub_url subs)).2 = Returns response ->
                 ~ (200 <= status response <= 299)%Z ->
                 outcome = Throws (createWOLError NOT_FOUND
                                     "Failed to fetch subtitle file"))
              /\ (forall result,
                    outcome = Returns result ->
                    vttUrl (subtitles result) = sub_url subs
                    /\ metadata result
                       = {| vm_title := pm_title first;
                            vm_publication := pubName media;
                            vm_pub := pm_pub media;
                            vm_track := pm_track media;
                            vm_language := pv_language params;
                            vm_duration := pm_duration first;
                            availableResolutions := map pm_label (first :: others);
                            thumbnailUrl := pm_trackImage first |}))).
Proof.
  intros Hparse Hmedia videos outcome.
  unfold outcome, VideoService.getVideoSubtitles. rewrite Hparse. simpl.
  rewrite Hmedia. simpl. fold videos. split.
  - by intros [-> | ->].
  - intros first others ->. split; [by intros ->|].
    intros subs ->. split.
    + intros response Hfetch Hrange. unfold VideoService.fetchVttContent.
      rewrite Hfetch. simpl. unfold ok.
      assert ((200 <=? status response)%Z && (status response <=? 299)%Z = false) as ->.
      { apply andb_false_iff. lia. }
      reflexivity.
    + intros result Hresult. apply tryCatch_Returns in Hresult.
      apply bind_Returns in Hresult as (fetched & _ & Hresult).
      by injection Hresult as <-.
Qed.

Definition otherLanguageUrl : jsstring :=
  "https://www.jw.org/finder?lank=pub-jwbvod25_41_VIDEO&wtlocale=X".

Lemma getVideoSubtitles_first_file_witness :
  @VideoService.getVideoSubtitles referencePlatform mediaNetwork
    otherLanguageUrl "text" None None
  = Throws (createWOLError NOT_FOUND
              "No video files found for the specified language").
Proof.
  refine (proj1 (@getVideoSubtitles_first_file referencePlatform mediaNetwork
                   otherLanguageUrl "text" None None
                   {| pv_id := "jwbvod25"; pv_track := "41";
                      pv_language := "X"; pv_type := pub |}
                   sampleMedia _ _) _).
  - vm_compute. reflexivity.
  - vm_compute. reflexivity.
  - left. vm_compute. reflexivity.
Defined.

(** ** Plain text of a document *)

Example convertToPlainText_example :
  WOLService.convertToPlainText "<p class='x'>Love &amp;  <b>faith</b>&nbsp;</p>
  <p>1 &lt; 2</p>" = ("Love & faith 1 < 2" : jsstring).
Proof. vm_compute. reflexivity. Qed.

Fixpoint noRuns (s : jsstring) : bool :=
  match s with
  | a :: r => negb (JS.isWhiteSpace a && negb (headSolid r)) && noRuns r
  | [] => true
  end.

Lemma collapseFrom_spaces b s c :
  In c (JS.collapseFrom b s) -> JS.isWhiteSpace c = true -> c = " "%char.
Proof.
  revert b. induction s as [|a s IH]; intros b; simpl; [done|].
  destruct (JS.isWhiteSpace a) eqn:Ha.
  - destruct b; [apply IH|]. intros [<-|Hin]; [done|by eapply IH].
  - intros [<-|Hin]; [congruence|by eapply IH].
Qed.

Lemma collapseFrom_noRuns b s :
  noRuns (JS.collapseFrom b s) = true
  /\ headSolid (JS.collapseFrom true s) = true.
Proof.
  revert b. induction s as [|a s IH]; intros b; simpl; [done|].
  destruct (IH true) as [Hruns Hhead]. destruct (IH false) as [Hruns' _].
  destruct (JS.isWhiteSpace a) eqn:Ha.
  - split; [|done]. destruct b; [done|]. simpl. by rewrite Hhead, Hruns.
  - simpl. rewrite Ha. simpl. by rewrite Hruns'.
Qed.

Lemma noRuns_double s before after :
  noRuns s = true -> s <> before ++ " "%char :: " "%char :: after.
Proof.
  revert s. induction before as [|b before IH]; intros s Hs Heq; subst s.
  - by vm_compute in Hs.
  - simpl in Hs. apply andb_true_iff in Hs as [_ Hs]. by eapply IH.
Qed.

(** X23.  The text [convertToPlainText] returns has no white space at either end,
    no white space other than the space, and no two spaces in a row. *)
Theorem convertToPlainText_spacing (html : jsstring) :
  let text := WOLService.convertToPlainText html in
  JS.trim text = text
  /\ (forall c, In c text -> JS.isWhiteSpace c = true -> c = " "%char)
  /\ (forall before after, text <> before ++ "  " ++ after).
Proof.
  intros out. unfold out, WOLService.convertToPlainText.
  set (decoded := JS.replaceAll "&#39;" _ _).
  split; [apply trim_idem|]. split.
  - intros c Hin%In_trim. exact (collapseFrom_spaces false decoded c Hin).
  - intros before after Heq.
    destruct (trim_infix (JS.collapseWhiteSpace decoded)) as (w1 & w2 & Hinfix).
    rewrite Heq in Hinfix.
    apply (noRuns_double (JS.collapseWhiteSpace decoded) (w1 ++ before) (after ++ w2)).
    + apply collapseFrom_noRuns.
    + rewrite Hinfix. rewrite <- !app_assoc. reflexivity.
Qed.

(** No [<] with a [>] somewhere after it. *)
Fixpoint tagFree (s : jsstring) : bool :=
  match s with
  | [] => true
  | c :: r => (negb (Ascii.eqb c "<") || negb (existsb (Ascii.eqb ">") r)) && tagFree r
  end.

Lemma existsb_In c s : existsb (Ascii.eqb c) s = true <-> In c s.
Proof.
  rewrite existsb_exists. split.
  - by intros (x & Hin & ->%Ascii.eqb_eq).
  - intros Hin. exists c. by rewrite Ascii.eqb_refl.
Qed.

Lemma tagFree_spec s before after :
  tagFree s = true -> s = before ++ "<"%char :: after -> ~ In ">"%char after.
Proof.
  revert s. induction before as [|b before IH]; intros s Hs ->; simpl in Hs.
  - apply andb_true_iff in Hs as [Hs _]. intros Hin%existsb_In.
    by rewrite Hin in Hs.
  - apply andb_true_iff in Hs as [_ Hs]. by eapply IH.
Qed.

Lemma tagFree_app s t : tagFree (s ++ t) = true -> tagFree s = true /\ tagFree t = true.
Proof.
  induction s as [|c s IH]; simpl; [done|].
  intros [Hc [Hs Ht]%IH]%andb_true_iff. split; [|done].
  rewrite Hs, andb_true_r. destruct (Ascii.eqb c "<"); [|done]. simpl in *.
  apply negb_true_iff in Hc. apply negb_true_iff.
  rewrite existsb_app in Hc. by apply orb_false_iff in Hc as [? _].
Qed.

Lemma matchTag_none c s :
  match WOLService.matchTag (c :: s) with Some (S _) => False | _ => True end ->
  c = "<"%char -> ~ In ">"%char s.
Proof.
  intros Hmatch ->. simpl in Hmatch.
  pose proof (takeWhile_drop (VideoService.isNot ">") s) as Hsplit.
  destruct (drop _ s) as [|d rest]; [|done].
  rewrite app_nil_r in Hsplit. rewrite <- Hsplit.
  intros Hin%takeWhile_In. by vm_compute in Hin.
Qed.

Lemma removeAllFrom_tagFree skip s :
  tagFree (JS.removeAllFrom WOLService.matchTag skip s) = true.
Proof.
  revert skip. induction s as [|c s IH]; intros skip; [done|].
  cbn [JS.removeAllFrom]. destruct skip as [|k]; [|apply IH].
  pose proof (matchTag_none c s) as Hnone.
  destruct (WOLService.matchTag (c :: s)) as [[|n]|]; [|apply IH|];
    cbn [tagFree]; rewrite IH, andb_true_r;
    (destruct (Ascii.eqb_spec c "<") as [Hc|]; [|done]); simpl;
    apply negb_true_iff; (destruct (existsb _ _) eqn:Hex; [|done]);
    apply existsb_In, In_removeAllFrom in Hex; by apply Hnone in Hex.
Qed.

Lemma replaceAll_absent pat rep s p :
  hd_error pat = Some p -> ~ In p s -> JS.replaceAll pat rep s = s.
Proof.
  destruct pat as [|p' pat]; [done|]. intros [= ->]. unfold JS.replaceAll.
  induction s as [|c s IH]; [done|]. intros Hin.
  cbn [JS.replaceAllFrom JS.startsWith].
  destruct (Ascii.eqb_spec p c) as [->|Hne]; [exfalso; apply Hin; by left|].
  cbn [andb]. rewrite IH; [done|]. intros ?. apply Hin. by right.
Qed.

Lemma collapseFrom_In b s c :
  In c (JS.collapseFrom b s) -> c = " "%char \/ In c s.
Proof.
  revert b. induction s as [|a s IH]; intros b; simpl; [done|].
  destruct (JS.isWhiteSpace a).
  - destruct b.
    + intros [?|?]%IH; auto.
    + intros [<-|[?|?]%IH]; auto.
  - intros [<-|[?|?]%IH]; auto.
Qed.

Lemma collapseFrom_tagFree b s :
  tagFree s = true -> tagFree (JS.collapseFrom b s) = true.
Proof.
  revert b. induction s as [|a s IH]; intros b; [done|].
  cbn [tagFree JS.collapseFrom]. intros [Ha Hs]%andb_true_iff.
  assert (forall b', negb (Ascii.eqb a "<")
                     || negb (existsb (Ascii.eqb ">") (JS.collapseFrom b' s)) = true)
    as Hkeep.
  { intros b'. destruct (Ascii.eqb a "<"); [|done]. simpl in *.
    apply negb_true_iff in Ha. apply negb_true_iff.
    destruct (existsb _ (JS.collapseFrom b' s)) eqn:Hex; [|done].
    apply existsb_In, collapseFrom_In in Hex as [Hex|Hex]; [done|].
    apply existsb_In in Hex. congruence. }
  destruct (JS.isWhiteSpace a) eqn:Hws.
  - destruct b; [by apply IH|]. cbn [tagFree]. by rewrite IH.
  - cbn [tagFree]. by rewrite Hkeep, IH.
Qed.

(** X24.  After the tags are removed no [<] is followed, anywhere later, by a [>],
    and the same holds of the whole text for a page without ampersand.  The
    entities are decoded after the tags are removed, one after the other:
    an encoded tag comes out as a tag, and [&amp;lt;] is decoded twice. *)
Theorem convertToPlainText_strips_tags (html : jsstring) :
  (forall before after,
     JS.removeAll WOLService.matchTag html = before ++ "<"%char :: after ->
     ~ In ">"%char after)
  /\ (~ In "&"%char html ->
      forall before after,
        WOLService.convertToPlainText html = before ++ "<"%char :: after ->
        ~ In ">"%char after)
  /\ WOLService.convertToPlainText "<b>&lt;i&gt;</b>" = ("<i>" : jsstring)
  /\ WOLService.convertToPlainText "&amp;lt;" = ("<" : jsstring).
Proof.
  split; [|split; [|by vm_compute]].
  - intros before after. apply tagFree_spec, removeAllFrom_tagFree.
  - intros Hamp before after. apply tagFree_spec.
    unfold WOLService.convertToPlainText.
    assert (~ In "&"%char (JS.removeAll WOLService.matchTag html)) as Hclean.
    { intros Hin. by apply In_removeAllFrom in Hin. }
    rewrite (replaceAll_absent "&nbsp;" _ _ "&"%char eq_refl) by done.
    rewrite (replaceAll_absent "&amp;" _ _ "&"%char eq_refl) by done.
    rewrite (replaceAll_absent "&lt;" _ _ "&"%char eq_refl) by done.
    rewrite (replaceAll_absent "&gt;" _ _ "&"%char eq_refl) by done.
    rewrite (replaceAll_absent "&quot;" _ _ "&"%char eq_refl) by done.
    rewrite (replaceAll_absent "&#39;" _ _ "&"%char eq_refl) by done.
    destruct (trim_infix (JS.collapseWhiteSpace (JS.removeAll WOLService.matchTag html)))
      as (w1 & w2 & Hinfix).
    pose proof (collapseFrom_tagFree false _ (removeAllFrom_tagFree 0 html)) as Hfree.
    fold (JS.removeAll WOLService.matchTag html) in Hfree.
    fold (JS.collapseWhiteSpace (JS.removeAll WOLService.matchTag html)) in Hfree.
    rewrite Hinfix in Hfree.
    apply tagFree_app in Hfree as [_ Hfree]. by apply tagFree_app in Hfree as [? _].
Qed.

(** ** The two versions of the video service *)

Lemma isAlnum_underscore : JS.isAlnum "_"%char = false.
Proof. reflexivity. Qed.

Lemma lankMatch_pubMatch lank id track :
  VideoServiceV1.lankMatch lank = Some (id, track) ->
  VideoService.pubMatch lank = Some (id, track).
Proof.
  unfold VideoServiceV1.lankMatch, VideoService.pubMatch.
  rewrite !matchLank_spec by done.
  intros (pre & suf & Heq & Hpre & Hsuf & Hid & Hcls & Htrack & Hlt).
  exists pre, suf. repeat split; try done.
  eapply Forall_impl; [exact Hcls|]. intros c Hc. unfold VideoService.isPubIdChar.
  by rewrite Hc.
Qed.

(** X25.  The second [parseVideoUrl] accepts whatever the first accepts, with the
    same publication, track and language; what the second accepts as a
    publication with an identifier of letters and digits the first accepts
    too; and what the second rejects the first rejects, with
    [INVALID_QUERY]. *)
Theorem parseVideoUrl_extends_first_version `{Platform} (url : jsstring) :
  (forall parsed,
     VideoServiceV1.parseVideoUrl url = Returns parsed ->
     VideoService.parseVideoUrl url
     = Returns {| pv_id := VideoServiceV1.pv_pub parsed;
                  pv_track := VideoServiceV1.pv_track parsed;
                  pv_language := VideoServiceV1.pv_language parsed;
                  pv_type := pub |})
  /\ (forall parsed,
        VideoService.parseVideoUrl url = Returns parsed ->
        pv_type parsed = pub ->
        Forall (fun c => JS.isAlnum c = true) (pv_id parsed) ->
        VideoServiceV1.parseVideoUrl url
        = Returns {| VideoServiceV1.pv_pub := pv_id parsed;
                     VideoServiceV1.pv_track := pv_track parsed;
                     VideoServiceV1.pv_language := pv_language parsed |})
  /\ (forall e,
        VideoService.parseVideoUrl url = Throws e ->
        exists e', VideoServiceV1.parseVideoUrl url = Throws e'
                   /\ code e' = Some INVALID_QUERY).
Proof.
  unfold VideoServiceV1.parseVideoUrl, VideoService.parseVideoUrl.
  destruct (URL_new url) as [urlObj|]; [|by repeat split; eauto].
  destruct (JS.orElse (URLSearchParams_get _ "wtlocale") _) as [[|l language]|];
    [by repeat split; eauto| |by repeat split; eauto].
  destruct (JS.orElse (URLSearchParams_get _ "lank") _) as [[|k lank]|];
    [by repeat split; eauto| |by repeat split; eauto].
  split; [|split].
  - intros parsed.
    destruct (VideoServiceV1.lankMatch (k :: lank)) as [[id track]|] eqn:Hmatch;
      [|done].
    intros [= <-]. by rewrite (lankMatch_pubMatch _ _ _ Hmatch).
  - intros parsed.
    destruct (VideoService.pubMatch (k :: lank)) as [[id track]|] eqn:Hpub.
    + intros [= <-] _ Hid. simpl in Hid.
      assert (VideoServiceV1.lankMatch (k :: lank) = Some (id, track)) as ->; [|done].
      unfold VideoServiceV1.lankMatch, VideoService.pubMatch in *.
      rewrite matchLank_spec in Hpub |- * by done.
      destruct Hpub as (pre & suf & Heq & Hpre & Hsuf & Hne & _ & Htrack & Hlt).
      exists pre, suf. by repeat split.
    + destruct (VideoService.docidMatch (k :: lank)) as [[id track]|]; [|done].
      by intros [= <-].
  - intros e.
    destruct (VideoService.pubMatch (k :: lank)) as [[id track]|] eqn:Hpub; [done|].
    destruct (VideoServiceV1.lankMatch (k :: lank)) as [[id track]|] eqn:Hmatch.
    { apply lankMatch_pubMatch in Hmatch. congruence. }
    intros _. eauto.
Qed.

Example parseVideoUrl_hyphenated_pub :
  @VideoServiceV1.parseVideoUrl referencePlatform
    "https://www.jw.org/finder?wtlocale=E&lank=pub-jwb-133_1_VIDEO"
  = Throws (createWOLError INVALID_QUERY
              (VideoServiceV1.invalidMessage "pub-jwb-133_1_VIDEO"))
  /\ @VideoService.parseVideoUrl referencePlatform
       "https://www.jw.org/finder?wtlocale=E&lank=pub-jwb-133_1_VIDEO"
     = Returns {| pv_id := "jwb-133"; pv_track := "1"; pv_language := "E";
                  pv_type := pub |}.
Proof. split; vm_compute; reflexivity. Qed.

(** No two neighbours are equal. *)
Fixpoint distinctNeighbours (lines : list jsstring) : Prop :=
  match lines with
  | a :: (b :: _) as rest => a <> b /\ distinctNeighbours rest
  | _ => True
  end.

Lemma distinctNeighbours_snoc lines line :
  distinctNeighbours lines -> last lines <> Some line ->
  distinctNeighbours (lines ++ [line]).
Proof.
  induction lines as [|a [|b rest] IH]; simpl; [done| |].
  - intros _ Hlast. split; [|done]. congruence.
  - intros [Hab Hrest] Hlast. split; [done|]. by apply IH.
Qed.

Lemma uniqueLinesFrom_spec textLines uniqueLines :
  distinctNeighbours uniqueLines ->
  let out := VideoServiceV1.uniqueLinesFrom textLines uniqueLines in
  distinctNeighbours out
  /\ (forall x, In x out <-> In x uniqueLines \/ In x textLines)
  /\ (distinctNeighbours (uniqueLines ++ textLines) -> out = uniqueLines ++ textLines).
Proof.
  revert uniqueLines. induction textLines as [|line rest IH]; intros acc Hacc; simpl.
  - split; [done|]. split; [tauto|]. by rewrite app_nil_r.
  - destruct (decide (acc = [])) as [->|Hne].
    + simpl. destruct (IH [line]) as (Hd & Hin & Hid); [done|].
      split; [done|]. split; [|done].
      intros x. rewrite Hin. simpl. tauto.
    + rewrite (bool_decide_false (acc = [])) by done. simpl.
      case_bool_decide as Hlast; simpl.
      * destruct (IH acc Hacc) as (Hd & Hin & Hid). split; [done|]. split.
        -- intros x. rewrite Hin. split; [tauto|].
           intros [?|[<-|?]]; [tauto| |tauto]. left.
           apply last_Some in Hlast as [l' ->]. apply in_app_iff. right. by left.
        -- intros Hdist. exfalso. apply last_Some in Hlast as [l' ->].
           clear -Hdist. induction l' as [|a [|b l''] IHl]; simpl in *;
             [tauto|tauto|]. tauto.
      * destruct (IH (acc ++ [line])) as (Hd & Hin & Hid).
        { by apply distinctNeighbours_snoc. }
        split; [done|]. split.
        -- intros x. rewrite Hin, in_app_iff. simpl. tauto.
        -- rewrite <- app_assoc in Hid. exact Hid.
Qed.

(** X26.  The first [vttToPlainText] returns the text lines of the subtitles, one
    per line, without the repetitions that follow each other: no two
    neighbours are equal, the lines are those of the subtitles, and nothing
    is removed when no line repeats the one before. *)
Theorem vttToPlainText_first_version (vttContent : jsstring) :
  let fragments := VideoService.textLinesOf vttContent in
  exists lines,
    VideoServiceV1.vttToPlainText vttContent = JS.join [LF] lines
    /\ distinctNeighbours lines
    /\ (forall x, In x lines <-> In x fragments)
    /\ (distinctNeighbours fragments -> lines = fragments)
    /\ (fragments <> [] ->
        JS.split (Ascii.eqb LF) (VideoServiceV1.vttToPlainText vttContent) = lines).
Proof.
  intros fragments.
  destruct (uniqueLinesFrom_spec fragments []) as (Hd & Hin & Hid); [done|].
  exists (VideoServiceV1.uniqueLinesFrom fragments []).
  split; [done|]. split; [done|]. split; [|split; [done|]].
  - intros x. rewrite Hin. simpl. tauto.
  - intros Hne. unfold VideoServiceV1.vttToPlainText. fold fragments.
    apply split_join.
    + destruct fragments as [|f fs]; [done|]. intros Hnil.
      assert (In f (VideoServiceV1.uniqueLinesFrom (f :: fs) [])) as Hf
        by (apply Hin; right; by left).
      by rewrite Hnil in Hf.
    + apply Forall_forall. intros x Hx%list_elem_of_In%Hin.
      destruct Hx as [[]|Hx].
      pose proof (textLinesOf_tidy vttContent) as Htidy.
      rewrite Forall_forall in Htidy. apply list_elem_of_In, Htidy in Hx.
      by apply tidy_unfold in Hx as (_ & _ & _ & ?).
Qed.
